(** * halapi-js: the streaming chat client and its line-framed event decoder

    A shallow embedding of [src/client.ts] and [src/config.ts].  JavaScript
    strings are sequences of UTF-16 code units, byte chunks are sequences of
    octets, and the platform services the client calls ([TextDecoder],
    [String.prototype.split], [Headers.get], ...) are written out from their
    standards.  [JSON.parse] is a parameter of the development; a reader
    and a writer of JSON written here instantiate it on concrete inputs. *)

From Stdlib Require Import ZArith List Lia Bool String Ascii DecimalString.
Import ListNotations.
Open Scope Z_scope.

Set Implicit Arguments.

(** ** JavaScript strings *)

(** A JavaScript string: its UTF-16 code units, each in [0, 0xFFFF]. *)
Definition jsstring := list Z.

(** A [Uint8Array]: its octets, each in [0, 0xFF]. *)
Definition bytes := list Z.

(** An ASCII literal of the source as a JavaScript string. *)
Definition js (s : string) : jsstring :=
  map (fun a => Z.of_nat (nat_of_ascii a)) (list_ascii_of_string s).

(** The code unit of ['\n']. *)
Definition LF : Z := 10.

(** [s.split(sep)] for a separator of one code unit; the result is never
    empty, and [''.split(sep)] is [['']]. *)
Fixpoint String_split (sep : Z) (s : jsstring) : list jsstring :=
  match s with
  | [] => [[]]
  | c :: s' =>
      if c =? sep then [] :: String_split sep s'
      else match String_split sep s' with
           | [] => [[c]]
           | l :: ls => (c :: l) :: ls
           end
  end.

(** [array.pop()]: the last element ([None] for [undefined] on an empty
    array) and the array that remains. *)
Definition Array_pop (A : Type) (l : list A) : option A * list A :=
  match rev l with
  | [] => (None, [])
  | x :: r => (Some x, rev r)
  end.

(** [s.startsWith(prefix)]. *)
Fixpoint String_startsWith (s prefix : jsstring) {struct prefix} : bool :=
  match prefix with
  | [] => true
  | p :: prefix' =>
      match s with
      | [] => false
      | c :: s' => (c =? p) && String_startsWith s' prefix'
      end
  end.

(** [s.slice(start)] for a start within [0, s.length]. *)
Definition String_slice (start : nat) (s : jsstring) : jsstring := skipn start s.

(** [s.substring(0, n)]. *)
Definition String_substring0 (n : nat) (s : jsstring) : jsstring := firstn n s.

(** White space and line terminators, as [String.prototype.trim] strips them. *)
Definition is_white_space (c : Z) : bool :=
  ((9 <=? c) && (c <=? 13)) || (c =? 32) || (c =? 0xA0) || (c =? 0x1680)
  || ((0x2000 <=? c) && (c <=? 0x200A)) || (c =? 0x2028) || (c =? 0x2029)
  || (c =? 0x202F) || (c =? 0x205F) || (c =? 0x3000) || (c =? 0xFEFF).

Fixpoint trim_start (s : jsstring) : jsstring :=
  match s with
  | [] => []
  | c :: s' => if is_white_space c then trim_start s' else s
  end.

(** [s.trim()]. *)
Definition String_trim (s : jsstring) : jsstring :=
  rev (trim_start (rev (trim_start s))).

(** The integers that a number holds exactly, [Number.isSafeInteger]. *)
Definition safe_integer (n : Z) : Prop := Z.abs n <= 9007199254740991.

(** [String(n)] for a number [n] that is a safe integer, as the status of a
    response is: its decimal digits, after a minus sign when it is negative.
    (From [1e21] on [String] writes an exponent; the client is not run on
    such numbers here.) *)
Definition String_of_Z (n : Z) : jsstring :=
  js (NilZero.string_of_int (Z.to_int n)).

(** ASCII lower-casing of one code unit, as header names are compared. *)
Definition ascii_lower (c : Z) : Z :=
  if (65 <=? c) && (c <=? 90) then c + 32 else c.

Fixpoint jsstring_eqb (a b : jsstring) : bool :=
  match a, b with
  | [], [] => true
  | x :: a', y :: b' => (x =? y) && jsstring_eqb a' b'
  | _, _ => false
  end.

(** ** The UTF-8 decoder of the Encoding standard *)

Module Utf8.

(** The state of the "UTF-8 decoder" of the Encoding standard. *)
Record Decoder := {
  code_point : Z;
  bytes_seen : Z;
  bytes_needed : Z;
  lower_boundary : Z;
  upper_boundary : Z
}.

Definition initial : Decoder :=
  {| code_point := 0; bytes_seen := 0; bytes_needed := 0;
     lower_boundary := 0x80; upper_boundary := 0xBF |}.

Definition REPLACEMENT : Z := 0xFFFD.

(** The handler on a byte when no continuation byte is awaited. *)
Definition lead (b : Z) : Decoder * list Z :=
  if (0 <=? b) && (b <=? 0x7F) then (initial, [b])
  else if (0xC2 <=? b) && (b <=? 0xDF) then
    ({| code_point := Z.land b 0x1F; bytes_seen := 0; bytes_needed := 1;
        lower_boundary := 0x80; upper_boundary := 0xBF |}, [])
  else if (0xE0 <=? b) && (b <=? 0xEF) then
    ({| code_point := Z.land b 0xF; bytes_seen := 0; bytes_needed := 2;
        lower_boundary := if b =? 0xE0 then 0xA0 else 0x80;
        upper_boundary := if b =? 0xED then 0x9F else 0xBF |}, [])
  else if (0xF0 <=? b) && (b <=? 0xF4) then
    ({| code_point := Z.land b 0x7; bytes_seen := 0; bytes_needed := 3;
        lower_boundary := if b =? 0xF0 then 0x90 else 0x80;
        upper_boundary := if b =? 0xF4 then 0x8F else 0xBF |}, [])
  else (initial, [REPLACEMENT]).

(** The handler: the new state and the code points emitted for one byte.  A
    byte outside the awaited range ends the sequence with U+FFFD and is
    processed again from the initial state. *)
Definition handler (d : Decoder) (b : Z) : Decoder * list Z :=
  if bytes_needed d =? 0 then lead b
  else if negb ((lower_boundary d <=? b) && (b <=? upper_boundary d)) then
    let (d', out) := lead b in (d', REPLACEMENT :: out)
  else
    let cp := Z.lor (Z.shiftl (code_point d) 6) (Z.land b 0x3F) in
    if bytes_seen d + 1 =? bytes_needed d then (initial, [cp])
    else ({| code_point := cp; bytes_seen := bytes_seen d + 1;
             bytes_needed := bytes_needed d;
             lower_boundary := 0x80; upper_boundary := 0xBF |}, []).

(** The decoder run over a chunk; at the end of the chunk a pending
    sequence stays in the state (the "do not flush" mode). *)
Fixpoint run (d : Decoder) (input : bytes) : Decoder * list Z :=
  match input with
  | [] => (d, [])
  | b :: input' =>
      let (d1, out1) := handler d b in
      let (d2, out2) := run d1 input' in
      (d2, out1 ++ out2)
  end.

(** A scalar value as UTF-16 code units. *)
Definition utf16_of_code_point (c : Z) : jsstring :=
  if c <? 0x10000 then [c]
  else [0xD800 + Z.shiftr (c - 0x10000) 10; 0xDC00 + Z.land (c - 0x10000) 0x3FF].

(** "Serialize I/O queue" of [TextDecoder] with [ignoreBOM] false: the first
    code point is dropped when it is U+FEFF. *)
Fixpoint serialize (BOM_seen : bool) (cps : list Z) : bool * jsstring :=
  match cps with
  | [] => (BOM_seen, [])
  | c :: cps' =>
      if negb BOM_seen && (c =? 0xFEFF) then serialize true cps'
      else let (seen, s) := serialize true cps' in (seen, utf16_of_code_point c ++ s)
  end.

Definition is_lead_surrogate (u : Z) : bool := (0xD800 <=? u) && (u <=? 0xDBFF).
Definition is_trail_surrogate (u : Z) : bool := (0xDC00 <=? u) && (u <=? 0xDFFF).

(** The scalar values of a JavaScript string (conversion to a USVString):
    surrogate pairs are combined, lone surrogates become U+FFFD. *)
Fixpoint code_points (s : jsstring) : list Z :=
  match s with
  | [] => []
  | u :: s' =>
      if is_lead_surrogate u then
        match s' with
        | v :: s'' =>
            if is_trail_surrogate v
            then (0x10000 + Z.shiftl (u - 0xD800) 10 + (v - 0xDC00)) :: code_points s''
            else REPLACEMENT :: code_points s'
        | [] => [REPLACEMENT]
        end
      else if is_trail_surrogate u then REPLACEMENT :: code_points s'
      else u :: code_points s'
  end.

(** The "UTF-8 encoder" on one scalar value. *)
Definition encode_code_point (c : Z) : bytes :=
  if c <=? 0x7F then [c]
  else if c <=? 0x7FF then
    [Z.lor 0xC0 (Z.shiftr c 6); Z.lor 0x80 (Z.land c 0x3F)]
  else if c <=? 0xFFFF then
    [Z.lor 0xE0 (Z.shiftr c 12); Z.lor 0x80 (Z.land (Z.shiftr c 6) 0x3F);
     Z.lor 0x80 (Z.land c 0x3F)]
  else
    [Z.lor 0xF0 (Z.shiftr c 18); Z.lor 0x80 (Z.land (Z.shiftr c 12) 0x3F);
     Z.lor 0x80 (Z.land (Z.shiftr c 6) 0x3F); Z.lor 0x80 (Z.land c 0x3F)].

(** A string is well formed when its code units are in range and every
    surrogate is half of a pair. *)
Fixpoint well_formed (s : jsstring) : bool :=
  match s with
  | [] => true
  | u :: s' =>
      if is_lead_surrogate u then
        match s' with
        | v :: s'' => is_trail_surrogate v && well_formed s''
        | [] => false
        end
      else (0 <=? u) && (u <=? 0xFFFF) && negb (is_trail_surrogate u) && well_formed s'
  end.

End Utf8.

(** [new TextDecoder()]: the UTF-8 decoder and the BOM flag, both kept
    between calls of [decode(value, { stream: true })]. *)
Record TextDecoder := {
  utf8 : Utf8.Decoder;
  BOM_seen : bool
}.

Definition new_TextDecoder : TextDecoder :=
  {| utf8 := Utf8.initial; BOM_seen := false |}.

(** [decoder.decode(value, { stream: true })]. *)
Definition TextDecoder_decode (decoder : TextDecoder) (value : bytes)
  : TextDecoder * jsstring :=
  let (d, cps) := Utf8.run (utf8 decoder) value in
  let (seen, text) := Utf8.serialize (BOM_seen decoder) cps in
  ({| utf8 := d; BOM_seen := seen |}, text).

(** [new TextEncoder().encode(s)]: the UTF-8 bytes of a string. *)
Definition TextEncoder_encode (s : jsstring) : bytes :=
  flat_map Utf8.encode_code_point (Utf8.code_points s).

(** ** A JSON instance

    A reader and a writer of JSON texts over code units, used to run the
    client on concrete inputs.  A number is kept as its literal; an object is
    the list of its members in the order of the text. *)

Module Json.

Set Warnings "-register-all".

Inductive value : Type :=
| Null
| Bool (b : bool)
| Number (literal : jsstring)
| Str (s : jsstring)
| Array (items : list value)
| Object (members : list (jsstring * value)).

Definition is_ws (c : Z) : bool := (c =? 32) || (c =? 9) || (c =? 10) || (c =? 13).

Fixpoint skip_ws (s : jsstring) : jsstring :=
  match s with
  | [] => []
  | c :: s' => if is_ws c then skip_ws s' else s
  end.

Definition is_digit (c : Z) : bool := (48 <=? c) && (c <=? 57).

(** The longest prefix of digits and what follows it. *)
Fixpoint digits (s : jsstring) : jsstring * jsstring :=
  match s with
  | [] => ([], [])
  | c :: s' => if is_digit c then let (d, r) := digits s' in (c :: d, r) else ([], s)
  end.

Definition leading_zero (int : jsstring) : bool :=
  match int with
  | c :: _ :: _ => c =? 48
  | _ => false
  end.

Definition parse_fraction (s : jsstring) : option (jsstring * jsstring) :=
  match s with
  | c :: s' =>
      if c =? 46 then
        match digits s' with
        | ([], _) => None
        | (f, r) => Some (c :: f, r)
        end
      else Some ([], s)
  | [] => Some ([], s)
  end.

Definition parse_exponent (s : jsstring) : option (jsstring * jsstring) :=
  match s with
  | e :: s' =>
      if (e =? 101) || (e =? 69) then
        let (sign, s'') :=
          match s' with
          | c :: t => if (c =? 43) || (c =? 45) then ([c], t) else ([], s')
          | [] => ([], s')
          end in
        match digits s'' with
        | ([], _) => None
        | (d, r) => Some (e :: sign ++ d, r)
        end
      else Some ([], s)
  | [] => Some ([], s)
  end.

Definition parse_number (s : jsstring) : option (jsstring * jsstring) :=
  let (sign, s1) :=
    match s with
    | c :: t => if c =? 45 then ([c], t) else ([], s)
    | [] => ([], s)
    end in
  match digits s1 with
  | ([], _) => None
  | (int, s2) =>
      if leading_zero int then None
      else
        match parse_fraction s2 with
        | None => None
        | Some (frac, s3) =>
            match parse_exponent s3 with
            | None => None
            | Some (ex, s4) => Some (sign ++ int ++ frac ++ ex, s4)
            end
        end
  end.

Definition hex_value (c : Z) : option Z :=
  if is_digit c then Some (c - 48)
  else if (97 <=? c) && (c <=? 102) then Some (c - 87)
  else if (65 <=? c) && (c <=? 70) then Some (c - 55)
  else None.

Definition unescape (c : Z) : option Z :=
  if c =? 34 then Some 34 else if c =? 92 then Some 92 else if c =? 47 then Some 47
  else if c =? 98 then Some 8 else if c =? 102 then Some 12 else if c =? 110 then Some 10
  else if c =? 114 then Some 13 else if c =? 116 then Some 9 else None.

(** The characters of a string literal after its opening quote. *)
Fixpoint parse_chars (s : jsstring) : option (jsstring * jsstring) :=
  match s with
  | [] => None
  | c :: s' =>
      if c =? 34 then Some ([], s')
      else if c =? 92 then
        match s' with
        | [] => None
        | e :: s'' =>
            if e =? 117 then
              match s'' with
              | h1 :: h2 :: h3 :: h4 :: s3 =>
                  match hex_value h1, hex_value h2, hex_value h3, hex_value h4 with
                  | Some a, Some b, Some c', Some d =>
                      match parse_chars s3 with
                      | Some (t, r) => Some ((a * 4096 + b * 256 + c' * 16 + d) :: t, r)
                      | None => None
                      end
                  | _, _, _, _ => None
                  end
              | _ => None
              end
            else
              match unescape e with
              | Some u =>
                  match parse_chars s'' with
                  | Some (t, r) => Some (u :: t, r)
                  | None => None
                  end
              | None => None
              end
        end
      else if c <? 32 then None
      else
        match parse_chars s' with
        | Some (t, r) => Some (c :: t, r)
        | None => None
        end
  end.

Definition literal (word : string) (v : value) (s : jsstring) : option (value * jsstring) :=
  if String_startsWith s (js word)
  then Some (v, skipn (List.length (js word)) s) else None.

Fixpoint parse_value (fuel : nat) (s : jsstring) : option (value * jsstring) :=
  match fuel with
  | O => None
  | S fuel' =>
      match skip_ws s with
      | [] => None
      | c :: s' =>
          if c =? 34 then
            match parse_chars s' with
            | Some (t, r) => Some (Str t, r)
            | None => None
            end
          else if c =? 91 then
            match skip_ws s' with
            | d :: s'' =>
                if d =? 93 then Some (Array [], s'')
                else
                  match parse_elements fuel' s' with
                  | Some (vs, r) => Some (Array vs, r)
                  | None => None
                  end
            | [] => None
            end
          else if c =? 123 then
            match skip_ws s' with
            | d :: s'' =>
                if d =? 125 then Some (Object [], s'')
                else
                  match parse_members fuel' s' with
                  | Some (ms, r) => Some (Object ms, r)
                  | None => None
                  end
            | [] => None
            end
          else if c =? 116 then literal "true" (Bool true) (c :: s')
          else if c =? 102 then literal "false" (Bool false) (c :: s')
          else if c =? 110 then literal "null" Null (c :: s')
          else
            match parse_number (c :: s') with
            | Some (n, r) => Some (Number n, r)
            | None => None
            end
      end
  end

with parse_elements (fuel : nat) (s : jsstring) : option (list value * jsstring) :=
  match fuel with
  | O => None
  | S fuel' =>
      match parse_value fuel' s with
      | None => None
      | Some (v, r) =>
          match skip_ws r with
          | c :: r' =>
              if c =? 44 then
                match parse_elements fuel' r' with
                | Some (vs, r'') => Some (v :: vs, r'')
                | None => None
                end
              else if c =? 93 then Some ([v], r')
              else None
          | [] => None
          end
      end
  end

with parse_members (fuel : nat) (s : jsstring)
  : option (list (jsstring * value) * jsstring) :=
  match fuel with
  | O => None
  | S fuel' =>
      match skip_ws s with
      | q :: s1 =>
          if q =? 34 then
            match parse_chars s1 with
            | None => None
            | Some (k, r) =>
                match skip_ws r with
                | c :: r1 =>
                    if c =? 58 then
                      match parse_value fuel' r1 with
                      | None => None
                      | Some (v, r2) =>
                          match skip_ws r2 with
                          | c2 :: r3 =>
                              if c2 =? 44 then
                                match parse_members fuel' r3 with
                                | Some (ms, r4) => Some ((k, v) :: ms, r4)
                                | None => None
                                end
                              else if c2 =? 125 then Some ([(k, v)], r3)
                              else None
                          | [] => None
                          end
                      end
                    else None
                | [] => None
                end
            end
          else None
      | [] => None
      end
  end.

(** [JSON.parse(text)]: [inl] carries the message of the [SyntaxError].
    Every level of the descent consumes a code unit at least every second
    call, so twice the length of the text is fuel enough. *)
Definition parse (text : jsstring) : jsstring + value :=
  match parse_value (2 * List.length text + 2) text with
  | Some (v, r) =>
      match skip_ws r with
      | [] => inr v
      | _ :: _ => inl (js "Unexpected non-whitespace character after JSON")
      end
  | None => inl (js "Unexpected token in JSON")
  end.

Definition hex_digit (n : Z) : Z := if n <? 10 then 48 + n else 87 + n.

Definition unicode_escape (c : Z) : jsstring :=
  [92; 117; hex_digit (c / 4096); hex_digit ((c / 256) mod 16);
   hex_digit ((c / 16) mod 16); hex_digit (c mod 16)].

Definition quote_unit (c : Z) : jsstring :=
  if c =? 34 then [92; 34] else if c =? 92 then [92; 92]
  else if c =? 8 then [92; 98] else if c =? 12 then [92; 102]
  else if c =? 10 then [92; 110] else if c =? 13 then [92; 114]
  else if c =? 9 then [92; 116]
  else if c <? 32 then unicode_escape c
  else [c].

(** The body of [QuoteJSONString]: lone surrogates are escaped, pairs and
    every other code unit from U+0020 are copied. *)
Fixpoint quote_chars (s : jsstring) : jsstring :=
  match s with
  | [] => []
  | u :: s' =>
      if Utf8.is_lead_surrogate u then
        match s' with
        | v :: s'' =>
            if Utf8.is_trail_surrogate v then u :: v :: quote_chars s''
            else unicode_escape u ++ quote_chars s'
        | [] => unicode_escape u
        end
      else if Utf8.is_trail_surrogate u then unicode_escape u ++ quote_chars s'
      else quote_unit u ++ quote_chars s'
  end.

Definition quote (s : jsstring) : jsstring := [34] ++ quote_chars s ++ [34].

(** [JSON.stringify(v)] without indentation. *)
Fixpoint stringify (v : value) : jsstring :=
  match v with
  | Null => js "null"
  | Bool true => js "true"
  | Bool false => js "false"
  | Number n => n
  | Str s => quote s
  | Array items =>
      [91] ++
      (fix elements (l : list value) : jsstring :=
         match l with
         | [] => []
         | x :: l' =>
             stringify x ++ match l' with [] => [] | _ :: _ => 44 :: elements l' end
         end) items
      ++ [93]
  | Object members =>
      [123] ++
      (fix pairs (l : list (jsstring * value)) : jsstring :=
         match l with
         | [] => []
         | (k, x) :: l' =>
             quote k ++ [58] ++ stringify x
             ++ match l' with [] => [] | _ :: _ => 44 :: pairs l' end
         end) members
      ++ [125]
  end.

(** Property access [o[key]] on a parsed object: of the members of one
    name in the text, the last is the one the object has. *)
Fixpoint lookup (key : jsstring) (members : list (jsstring * value)) : option value :=
  match members with
  | [] => None
  | (k, v) :: rest =>
      match lookup key rest with
      | Some v' => Some v'
      | None => if jsstring_eqb k key then Some v else None
      end
  end.

(** A number literal that denotes zero: no digit of its mantissa is other
    than [0]. *)
Fixpoint is_zero (literal : jsstring) : bool :=
  match literal with
  | [] => true
  | c :: s =>
      if (c =? 101) || (c =? 69) then true
      else if (49 <=? c) && (c <=? 57) then false
      else is_zero s
  end.

(** [Boolean(v)] on a parsed value. *)
Definition truthy (v : value) : bool :=
  match v with
  | Null => false
  | Bool b => b
  | Number literal => negb (is_zero literal)
  | Str s => match s with [] => false | _ :: _ => true end
  | Array _ => true
  | Object _ => true
  end.

(** [String(v)] on a parsed value, as a template literal writes it: an array
    is its elements joined by commas, [null] among them written as nothing;
    a number is written by its literal, which is how [String] writes a
    number whose literal is in the form [String] uses (as [42] and [1.5]
    are). *)
Fixpoint to_string (v : value) : jsstring :=
  match v with
  | Null => js "null"
  | Bool true => js "true"
  | Bool false => js "false"
  | Number literal => literal
  | Str s => s
  | Array items =>
      (fix join (l : list value) : jsstring :=
         match l with
         | [] => []
         | x :: l' =>
             match x with Null => [] | _ => to_string x end
             ++ match l' with [] => [] | _ :: _ => [44] ++ join l' end
         end) items
  | Object _ => js "[object Object]"
  end.

(** [errorData.error?.message] where it is truthy, as the template literal
    of [handleErrorResponse] writes it.  Reading [error] of [null] throws,
    which the [catch] of [handleErrorResponse] turns into no message; the
    other values that are not objects have no such property. *)
Definition error_message (errorData : value) : option jsstring :=
  match errorData with
  | Object ms =>
      match lookup (js "error") ms with
      | Some (Object es) =>
          match lookup (js "message") es with
          | Some message => if truthy message then Some (to_string message) else None
          | None => None
          end
      | _ => None
      end
  | _ => None
  end.

(** A UTF-16 code unit. *)
Definition code_unit (c : Z) : Prop := 0 <= c <= 0xFFFF.

(** What may follow a value in a text: nothing, a comma, or a closing
    bracket or brace. *)
Definition delimited (rest : jsstring) : Prop :=
  match rest with
  | [] => True
  | c :: _ => c = 44 \/ c = 93 \/ c = 125
  end.

(** The text between the brackets of an array, and between the braces of
    an object, as [stringify] writes them. *)
Fixpoint elements_text (l : list value) : jsstring :=
  match l with
  | [] => []
  | x :: l' =>
      stringify x ++ match l' with [] => [] | _ :: _ => 44 :: elements_text l' end
  end.

Fixpoint members_text (l : list (jsstring * value)) : jsstring :=
  match l with
  | [] => []
  | (k, x) :: l' =>
      quote k ++ [58] ++ stringify x
      ++ match l' with [] => [] | _ :: _ => 44 :: members_text l' end
  end.

(** A number literal: a text that [parse_number] reads to its end. *)
Definition number_literal (lit : jsstring) : bool :=
  match parse_number lit with
  | Some (_, []) => true
  | _ => false
  end.

(** A string of code units. *)
Definition code_units (s : jsstring) : bool :=
  forallb (fun c => (0 <=? c) && (c <=? 0xFFFF)) s.

(** The values of JSON: their numbers are number literals, their strings
    and keys are strings of code units. *)
Fixpoint valid (v : value) : bool :=
  match v with
  | Null | Bool _ => true
  | Number lit => number_literal lit
  | Str s => code_units s
  | Array items => forallb valid items
  | Object members =>
      forallb (fun kv => code_units (fst kv) && valid (snd kv)) members
  end.

(** The depth of calls that reading a value back takes. *)
Fixpoint weight (v : value) : nat :=
  match v with
  | Array items => S (list_sum (map (fun x => S (weight x)) items))
  | Object members => S (list_sum (map (fun kv => S (weight (snd kv))) members))
  | _ => 1
  end.

(** How a written value begins: never with white space, nor with a closing
    bracket or brace. *)
Definition opening (c : Z) : Prop :=
  is_ws c = false /\ c <> 93 /\ c <> 125.

(** A printable ASCII character. *)
Definition printable (c : Z) : Prop := 32 <= c <= 126.

End Json.

(** ** The values of JavaScript

    An event in a program is a value of JavaScript, and some of these have
    no JSON text: [undefined], [NaN] and the infinities.  [JSON.stringify]
    writes [null] for such a number and for [undefined] in an array, and
    leaves out the member of an object whose value is [undefined]; what
    [JSON.parse] gives is a value of JSON.  A finite number is known by the
    literal that [JSON.stringify] writes for it, as [Number "1"]. *)

Module Js.

Set Warnings "-register-all".

Inductive value : Type :=
| Undefined
| Null
| Bool (b : bool)
| Number (literal : jsstring)
| NaN
| Infinity (negative : bool)
| Str (s : jsstring)
| Array (items : list value)
| Object (members : list (jsstring * value)).

(** [SerializeJSONProperty]: the value of JSON that is written for a
    value, [None] where nothing is written. *)
Fixpoint to_json (v : value) : option Json.value :=
  match v with
  | Undefined => None
  | Null => Some Json.Null
  | Bool b => Some (Json.Bool b)
  | Number literal => Some (Json.Number literal)
  | NaN => Some Json.Null
  | Infinity _ => Some Json.Null
  | Str s => Some (Json.Str s)
  | Array items =>
      Some (Json.Array
              (map (fun x => match to_json x with Some j => j | None => Json.Null end)
                   items))
  | Object members =>
      Some (Json.Object
              (flat_map (fun kv => match to_json (snd kv) with
                                   | Some j => [(fst kv, j)]
                                   | None => []
                                   end)
                        members))
  end.

(** [JSON.stringify(v)] in a template literal: where it gives [undefined]
    the template writes that word. *)
Definition stringify (v : value) : jsstring :=
  match to_json v with
  | Some j => Json.stringify j
  | None => js "undefined"
  end.

(** A value of JSON as a value of JavaScript; a number of a text is known
    by its literal, which is the literal of the number where the text has it
    in the form [JSON.stringify] writes. *)
Fixpoint of_json (j : Json.value) : value :=
  match j with
  | Json.Null => Null
  | Json.Bool b => Bool b
  | Json.Number literal => Number literal
  | Json.Str s => Str s
  | Json.Array items => Array (map of_json items)
  | Json.Object members => Object (map (fun kv => (fst kv, of_json (snd kv))) members)
  end.

Definition parse (text : jsstring) : jsstring + value :=
  match Json.parse text with
  | inr j => inr (of_json j)
  | inl message => inl message
  end.

(** [errorData.error?.message] on a value that [parse] gave. *)
Definition error_message (errorData : value) : option jsstring :=
  match to_json errorData with
  | Some j => Json.error_message j
  | None => None
  end.

End Js.

(** ** The client *)

(** The configuration of [src/config.ts]. *)
Record HalapiConfig := {
  apiUrl : jsstring;
  apiToken : jsstring
}.

(** [Boolean(config.apiToken)]: a string is truthy when it is not empty. *)
Definition isConfigValid (config : HalapiConfig) : bool :=
  match apiToken config with
  | [] => false
  | _ :: _ => true
  end.

(** What the caller can catch: the client's own [HalapiError], a plain
    [Error], or an exception of the platform (an [AbortError] of the
    transport, a [TypeError] of the network, a [SyntaxError]), known by its
    name. *)
Inductive JsError :=
| HalapiError (message : jsstring) (statusCode : option Z)
| Error (message : jsstring)
| Exception (name : jsstring).

(** [error instanceof HalapiError]. *)
Definition instanceof_HalapiError (e : JsError) : bool :=
  match e with
  | HalapiError _ _ => true
  | _ => false
  end.

Inductive AbortSignal := abort_signal (id : nat).

(** One answer of [reader.read()] before the stream is done: a chunk, or a
    rejection.  A response body is the list of these answers; when the list
    is exhausted [read()] answers [{ done: true }]. *)
Inductive ReadResult :=
| ReadValue (value : bytes)
| ReadRejects (e : JsError).

(** [ChatStreamResult], with its fields [conversationId] and [messageId];
    [None] is [null]. *)
Record ChatStreamResult := {
  result_conversationId : option jsstring;
  result_messageId : option jsstring
}.

Definition DATA_PREFIX : jsstring := Eval cbv in js "data: ".

(** [headers.get(name)]: the values of the headers whose name matches
    without regard to ASCII case, joined by a comma and a space; [None] for
    [null]. *)
Definition Headers_get (headers : list (jsstring * jsstring)) (name : jsstring)
  : option jsstring :=
  match filter (fun kv => jsstring_eqb (map ascii_lower (fst kv)) (map ascii_lower name))
               headers with
  | [] => None
  | (_, v) :: rest => Some (fold_left (fun acc kv => acc ++ js ", " ++ snd kv) rest v)
  end.

(** ** The configuration adapters *)

(** What the adapters read of [globalThis]: [process], which may be absent,
    with its [env], which may be absent too and maps a name to a string or
    to [undefined]; and [__HALAPI_CONFIG__], which may be absent and whose
    two fields may be missing at run time. *)
Record Process := {
  process_env : option (jsstring -> option jsstring)
}.

Record RuntimeConfig := {
  runtime_apiUrl : option jsstring;
  runtime_apiToken : option jsstring
}.

Record GlobalThis := {
  process : option Process;
  __HALAPI_CONFIG__ : option RuntimeConfig
}.

(** [v || '']: [undefined] and the empty string are the falsy strings. *)
Definition or_empty (v : option jsstring) : jsstring :=
  match v with
  | Some (c :: s) => c :: s
  | _ => []
  end.

(** A [ConfigProvider] of the adapters: called, it reads [globalThis] as it
    is at that time. *)
Definition ConfigProvider : Type := GlobalThis -> HalapiConfig.

Module adapters.

Definition static (config : HalapiConfig) : ConfigProvider := fun _ => config.

(** [None] for an omitted argument, which takes its default. *)
Definition env (urlVar tokenVar : option jsstring) : ConfigProvider :=
  let urlVar := match urlVar with Some v => v | None => js "HALAPI_URL" end in
  let tokenVar := match tokenVar with Some v => v | None => js "HALAPI_TOKEN" end in
  fun globalThis =>
    let env :=
      match process globalThis with
      | Some p => process_env p
      | None => None
      end in
    {| apiUrl := or_empty (match env with Some e => e urlVar | None => None end);
       apiToken := or_empty (match env with Some e => e tokenVar | None => None end) |}.

Definition browser : ConfigProvider :=
  fun globalThis =>
    let config := __HALAPI_CONFIG__ globalThis in
    {| apiUrl := or_empty (match config with Some c => runtime_apiUrl c | None => None end);
       apiToken :=
         or_empty (match config with Some c => runtime_apiToken c | None => None end) |}.

End adapters.

(** ** Inputs of the scenarios

    The streams, events and configurations on which the client is run
    below.  JSON texts are written with ['] for the quotation mark. *)

Module Scenario.

Definition json_text (s : string) : jsstring :=
  map (fun c => if c =? 39 then 34 else c) (js s).

Definition config : HalapiConfig :=
  {| apiUrl := js "https://api.example.com"; apiToken := js "secret" |}.

Definition no_token : HalapiConfig :=
  {| apiUrl := js "https://api.example.com"; apiToken := [] |}.

Definition text_delta : jsstring :=
  json_text "{'type':'text-delta','data':{'delta':'Hi'}}".

Definition text_delta_event : Json.value :=
  Json.Object [(js "type", Json.Str (js "text-delta"));
               (js "data", Json.Object [(js "delta", Json.Str (js "Hi"))])].

Definition done : jsstring :=
  json_text ("{'type':'done','data':{'messageId':'m1','conversationId':'c1',"
             ++ "'totalTokens':{'input':1,'output':2},'executionTimeMs':5}}").

Definition done_event : Json.value :=
  Json.Object
    [(js "type", Json.Str (js "done"));
     (js "data",
      Json.Object
        [(js "messageId", Json.Str (js "m1"));
         (js "conversationId", Json.Str (js "c1"));
         (js "totalTokens",
          Json.Object [(js "input", Json.Number (js "1"));
                       (js "output", Json.Number (js "2"))]);
         (js "executionTimeMs", Json.Number (js "5"))])].

Definition error : jsstring :=
  json_text "{'type':'error','data':{'code':'E','message':'bad'}}".

Definition error_event : Json.value :=
  Json.Object
    [(js "type", Json.Str (js "error"));
     (js "data", Json.Object [(js "code", Json.Str (js "E"));
                              (js "message", Json.Str (js "bad"))])].

Definition not_json : jsstring := js "{not json}".

(** A delta of two characters outside ASCII: U+20AC, three bytes in UTF-8,
    and U+1F600, a surrogate pair and four bytes. *)
Definition euro : jsstring :=
  json_text "{'type':'text-delta','data':{'delta':'" ++ [0x20AC; 0xD83D; 0xDE00]
  ++ json_text "'}}".

Definition euro_event : Json.value :=
  Json.Object [(js "type", Json.Str (js "text-delta"));
               (js "data", Json.Object [(js "delta", Json.Str [0x20AC; 0xD83D; 0xDE00])])].

Definition isbn : jsstring := js "9780000000002".

(** A Node.js process whose environment sets the two default variables,
    and one that sets the token to the empty string. *)
Definition node_env (name : jsstring) : option jsstring :=
  if jsstring_eqb name (js "HALAPI_URL") then Some (js "https://api.example.com")
  else if jsstring_eqb name (js "HALAPI_TOKEN") then Some (js "secret")
  else None.

Definition node : GlobalThis :=
  {| process := Some {| process_env := Some node_env |}; __HALAPI_CONFIG__ := None |}.

Definition node_empty_token : GlobalThis :=
  {| process :=
       Some {| process_env :=
                 Some (fun name => if jsstring_eqb name (js "HALAPI_TOKEN")
                                   then Some [] else None) |};
     __HALAPI_CONFIG__ := None |}.

(** A page that sets [window.__HALAPI_CONFIG__] with a token and no URL,
    and a run time that has neither [process] nor the page's object. *)
Definition page : GlobalThis :=
  {| process := None;
     __HALAPI_CONFIG__ :=
       Some {| runtime_apiUrl := None; runtime_apiToken := Some (js "secret") |} |}.

Definition bare : GlobalThis := {| process := None; __HALAPI_CONFIG__ := None |}.

(** A line of a stream that is a comment, a record that ends on a carriage
    return and a newline, and the bytes of a byte order mark. *)
Definition keep_alive : jsstring := js ": keep-alive".

Definition CR : Z := 13.

Definition BOM_bytes : bytes := [0xEF; 0xBB; 0xBF].

(** What [URLSearchParams] writes for names and values that need no
    escaping, and a time of the clock. *)
Definition query_string (params : list (jsstring * jsstring)) : jsstring :=
  match params with
  | [] => []
  | (name, value) :: rest =>
      fold_left (fun acc kv => acc ++ js "&" ++ fst kv ++ js "=" ++ snd kv) rest
                (name ++ js "=" ++ value)
  end.

Definition now : jsstring := js "2024-01-01T00:00:00.000Z".

(** A [done] event whose [executionTimeMs], a number, is [NaN], and what
    comes back of it. *)
Definition nan_event : Js.value :=
  Js.Object
    [(js "type", Js.Str (js "done"));
     (js "data",
      Js.Object
        [(js "messageId", Js.Str (js "m1"));
         (js "conversationId", Js.Str (js "c1"));
         (js "totalTokens",
          Js.Object [(js "input", Js.Number (js "1"));
                     (js "output", Js.Number (js "2"))]);
         (js "executionTimeMs", Js.NaN)])].

Definition null_event : Js.value :=
  Js.Object
    [(js "type", Js.Str (js "done"));
     (js "data",
      Js.Object
        [(js "messageId", Js.Str (js "m1"));
         (js "conversationId", Js.Str (js "c1"));
         (js "totalTokens",
          Js.Object [(js "input", Js.Number (js "1"));
                     (js "output", Js.Number (js "2"))]);
         (js "executionTimeMs", Js.Null)])].

(** The body of a response that is not ok and says why. *)
Definition no_such_conversation : jsstring :=
  json_text "{'error':{'message':'No such conversation'}}".

End Scenario.

Section Client.

Set Default Proof Using "Type".

(** The values of the JavaScript run time that [JSON.parse] produces. *)
Variable JSValue : Type.

(** [JSON.parse(text)]; [inl m] when it throws a [SyntaxError] of message [m]. *)
Variable JSON_parse : jsstring -> jsstring + JSValue.

(** [JSON.stringify(value)]. *)
Variable JSON_stringify : JSValue -> jsstring.

(** [errorData.error?.message] where that is truthy, as a string. *)
Variable error_message : JSValue -> option jsstring.

(** [String(new URLSearchParams(entries))]. *)
Variable URLSearchParams_toString : list (jsstring * jsstring) -> jsstring.

(** [new Date().toISOString()] at the time of the call. *)
Variable Date_toISOString : jsstring.

(** The events of the stream are the parsed values, cast without a check:
    [JSON.parse(line.slice(6)) as SSEEvent]. *)
Definition SSEEvent : Type := JSValue.

(** [ChatStreamOptions]; [None] is an omitted field. *)
Record ChatStreamOptions := {
  query : jsstring;
  conversationId : option jsstring;
  externalUserId : option jsstring;
  metadata : option JSValue;
  signal : option AbortSignal
}.

(** The object handed to [JSON.stringify] as the body of a request. *)
Inductive RequestBody :=
| ChatBody (query : jsstring) (conversationId : option jsstring)
           (externalUserId : jsstring) (metadata : option JSValue)
| IsbnBody (isbn13s : list jsstring).

(** The [init] argument of [fetch]. *)
Record RequestInit := {
  init_method : option jsstring;
  init_headers : list (jsstring * jsstring);
  init_body : option RequestBody;
  init_signal : option AbortSignal
}.

(** The part of a [Response] the client looks at. *)
Record Response := {
  ok : bool;
  status : Z;
  headers : list (jsstring * jsstring);
  body : option (list ReadResult);
  text : JsError + jsstring
}.

(** [await response.json()]: the text of the body, parsed. *)
Definition Response_json (response : Response) : JsError + JSValue :=
  match text response with
  | inl e => inl e
  | inr t =>
      match JSON_parse t with
      | inl _ => inl (Exception (js "SyntaxError"))
      | inr v => inr v
      end
  end.

(** What the client does to the world, in order. *)
Inductive Effect :=
| GetConfig
| Fetch (url : jsstring) (init : RequestInit)
| GetReader
| Read
| ReleaseLock
| ConsoleWarn (line : jsstring)
| ConsoleError (label : jsstring) (excerpt : jsstring).

(** Computations of the client: the effects performed, then a value or the
    error thrown. *)
Definition M (A : Type) : Type := (list Effect * (JsError + A))%type.

Definition ret (A : Type) (a : A) : M A := ([], inr a).

Definition throw (A : Type) (e : JsError) : M A := ([], inl e).

Definition bind (A B : Type) (m : M A) (f : A -> M B) : M B :=
  match m with
  | (log, inl e) => (log, inl e)
  | (log, inr a) => let (log', r) := f a in (log ++ log', r)
  end.

(** An awaited call of the environment: one effect and its outcome. *)
Definition await (A : Type) (e : Effect) (outcome : JsError + A) : M A := ([e], outcome).

Definition perform (e : Effect) : M unit := ([e], inr tt).

Notation "x <- m ;; k" := (bind m (fun x => k))
  (at level 61, m at next level, right associativity).

(** The arguments of [createHalapiClient]: what awaiting [getConfig()]
    gives, and the transport [options.customFetch ?? fetch]. *)
Variable getConfig : JsError + HalapiConfig.
Variable fetchFn : jsstring -> RequestInit -> JsError + Response.

Definition resolveConfig : M HalapiConfig :=
  config <- await GetConfig getConfig ;;
  if negb (isConfigValid config)
  then throw _ (HalapiError (js "API token not configured") None)
  else ret config.

Definition getAuthHeaders (config : HalapiConfig) : list (jsstring * jsstring) :=
  [(js "Authorization", js "Bearer " ++ apiToken config)].

Definition getApiUrl (config : HalapiConfig) (path : jsstring) : jsstring :=
  apiUrl config ++ path.

(** [handleErrorResponse] never returns: this is the error it throws. *)
Definition handleErrorResponse (A : Type) (response : Response) (context : jsstring) : M A :=
  let errorMessage :=
    match Response_json response with
    | inr errorData =>
        match error_message errorData with
        | Some m => context ++ js ": " ++ m
        | None => context ++ js ": HTTP " ++ String_of_Z (status response)
        end
    | inl _ => context ++ js ": HTTP " ++ String_of_Z (status response)
    end in
  throw A (HalapiError errorMessage (Some (status response))).

Definition fetch (url : jsstring) (init : RequestInit) : M Response :=
  await (Fetch url init) (fetchFn url init).

(** *** [chatStream] *)

(** The statements of [chatStream] before its [try]: the request, the two
    identifiers read from the headers, and the reader on the body. *)
Definition chatStream_request (options : ChatStreamOptions)
  : M (ChatStreamResult * list ReadResult) :=
  config <- resolveConfig ;;
  let authHeaders := getAuthHeaders config in
  let url := getApiUrl config (js "/api/halap/chat/stream") in
  response <- fetch url
    {| init_method := Some (js "POST");
       init_headers := authHeaders ++ [(js "Content-Type", js "application/json")];
       init_body := Some (ChatBody (query options) (conversationId options)
                            (match externalUserId options with
                             | Some id => id
                             | None => js "sdk-user"
                             end)
                            (metadata options));
       init_signal := signal options |} ;;
  _ <- (if negb (ok response)
        then handleErrorResponse unit response (js "Chat stream failed")
        else ret tt) ;;
  let conversationId := Headers_get (headers response) (js "X-Conversation-Id") in
  let messageId := Headers_get (headers response) (js "X-Message-Id") in
  match body response with
  | None => throw _ (HalapiError (js "Response body is not readable") None)
  | Some source =>
      _ <- perform GetReader ;;
      ret ({| result_conversationId := conversationId;
              result_messageId := messageId |}, source)
  end.

(** Where the generator is suspended.  At a [yield] its locals are the
    identifiers, the reader (what it has still to deliver), the decoder,
    the buffer and the lines the [for] loop has not visited yet. *)
Inductive Frame :=
| SuspendedStart (options : ChatStreamOptions)
| SuspendedYield (result : ChatStreamResult) (source : list ReadResult)
                 (decoder : TextDecoder) (buffer : jsstring) (lines : list jsstring)
| Completed.

(** What [next()] resolves or rejects to. *)
Inductive IteratorResult :=
| Yielded (event : SSEEvent)
| Returned (value : option ChatStreamResult)
| Thrown (e : JsError).

(** The [for (const line of lines)] loop up to its next [yield]: the
    warnings logged, and the event with the lines that remain, if any. *)
Fixpoint for_lines (lines : list jsstring)
  : list Effect * option (SSEEvent * list jsstring) :=
  match lines with
  | [] => ([], None)
  | line :: rest =>
      if String_startsWith line DATA_PREFIX then
        match JSON_parse (String_slice 6 line) with
        | inr event => ([], Some (event, rest))
        | inl _ => let (log, r) := for_lines rest in (ConsoleWarn line :: log, r)
        end
      else for_lines rest
  end.

(** The [while (true)] loop from the [reader.read()] at its head up to the
    next [yield], or to the end of the [try] block and its [finally]. *)
Fixpoint while_read (result : ChatStreamResult) (source : list ReadResult)
                    (decoder : TextDecoder) (buffer : jsstring)
  : list Effect * IteratorResult * Frame :=
  match source with
  | [] => ([Read; ReleaseLock], Returned (Some result), Completed)
  | ReadRejects e :: _ => ([Read; ReleaseLock], Thrown e, Completed)
  | ReadValue value :: source' =>
      let (decoder', decoded) := TextDecoder_decode decoder value in
      let buffer := buffer ++ decoded in
      let lines := String_split LF buffer in
      let (popped, lines) := Array_pop lines in
      let buffer := match popped with Some last => last | None => [] end in
      match for_lines lines with
      | (log, Some (event, rest)) =>
          (Read :: log, Yielded event,
           SuspendedYield result source' decoder' buffer rest)
      | (log, None) =>
          let '(log', r, frame) := while_read result source' decoder' buffer in
          (Read :: log ++ log', r, frame)
      end
  end.

(** [generator.next()]. *)
Definition Generator_next (g : Frame) : list Effect * IteratorResult * Frame :=
  match g with
  | SuspendedStart options =>
      match chatStream_request options with
      | (log, inl e) => (log, Thrown e, Completed)
      | (log, inr (result, source)) =>
          let '(log', r, frame) := while_read result source new_TextDecoder [] in
          (log ++ log', r, frame)
      end
  | SuspendedYield result source decoder buffer lines =>
      match for_lines lines with
      | (log, Some (event, rest)) =>
          (log, Yielded event, SuspendedYield result source decoder buffer rest)
      | (log, None) =>
          let '(log', r, frame) := while_read result source decoder buffer in
          (log ++ log', r, frame)
      end
  | Completed => ([], Returned None, Completed)
  end.

(** [generator.return()]: at a [yield] the [finally] block runs; a
    generator that has not started has nothing to run. *)
Definition Generator_return (g : Frame) : list Effect * Frame :=
  match g with
  | SuspendedStart _ => ([], Completed)
  | SuspendedYield _ _ _ _ _ => ([ReleaseLock], Completed)
  | Completed => ([], Completed)
  end.

(** How a consumer's loop over the stream ended. *)
Inductive Completion :=
| Finished (value : option ChatStreamResult)
| Failed (e : JsError)
| Abandoned.

Record Run := {
  yielded : list SSEEvent;
  effects : list Effect;
  completion : Completion;
  final : Frame
}.

(** A consumer that takes events and leaves after the [n]-th:
    [for await (const event of stream) { ...; if (++i === n) break }].
    Leaving calls [return()] on the generator. *)
Fixpoint for_await (n : nat) (g : Frame) : Run :=
  match n with
  | O =>
      let (log, frame) := Generator_return g in
      {| yielded := []; effects := log; completion := Abandoned; final := frame |}
  | S n' =>
      match Generator_next g with
      | (log, Yielded event, frame) =>
          let r := for_await n' frame in
          {| yielded := event :: yielded r; effects := log ++ effects r;
             completion := completion r; final := final r |}
      | (log, Returned value, frame) =>
          {| yielded := []; effects := log; completion := Finished value; final := frame |}
      | (log, Thrown e, frame) =>
          {| yielded := []; effects := log; completion := Failed e; final := frame |}
      end
  end.

(** [client.chatStream(options)]: a generator that has not started. *)
Definition chatStream (options : ChatStreamOptions) : Frame := SuspendedStart options.

(** *** The accessors *)

(** An outcome of the environment that involves no call the model tracks
    ([response.text()], [response.json()]). *)
Definition lift (A : Type) (outcome : JsError + A) : M A := ([], outcome).

Definition GET (authHeaders : list (jsstring * jsstring)) : RequestInit :=
  {| init_method := None; init_headers := authHeaders;
     init_body := None; init_signal := None |}.

(** What [getConversations] resolves to: the literal it builds for an empty
    body, [{ success: true, conversations: [], metadata: { requestId: '',
    timestamp, count: 0, hasMore: false } }], or the parsed body. *)
Inductive ConversationsListResponse :=
| NoConversations (timestamp : jsstring)
| ParsedConversations (v : JSValue).

(** [getConversations(externalUserId, limit)]; [None] is an omitted
    argument, and a limit that is given is an integer. *)
Definition getConversations (externalUserId : option jsstring) (limit : option Z)
  : M ConversationsListResponse :=
  let limit := match limit with Some l => l | None => 20 end in
  config <- resolveConfig ;;
  let authHeaders := getAuthHeaders config in
  let params := [(js "limit", String_of_Z limit)] in
  let params :=
    match externalUserId with
    | Some (c :: id) => params ++ [(js "externalUserId", c :: id)]
    | _ => params
    end in
  response <- fetch (getApiUrl config (js "/api/halap/conversations?"
                                         ++ URLSearchParams_toString params))
                    (GET authHeaders) ;;
  _ <- (if negb (ok response)
        then handleErrorResponse unit response (js "Failed to fetch conversations")
        else ret tt) ;;
  txt <- lift (text response) ;;
  if match txt with [] => true | _ :: _ => jsstring_eqb (String_trim txt) [] end
  then ret (NoConversations Date_toISOString)
  else
    match JSON_parse txt with
    | inr v => ret (ParsedConversations v)
    | inl parseError =>
        _ <- perform (ConsoleError (js "Failed to parse conversations response:")
                                   (String_substring0 200 txt)) ;;
        throw _ (Error (js "Invalid JSON response from API: " ++ parseError))
    end.

Definition getConversation (conversationId : jsstring) : M JSValue :=
  config <- resolveConfig ;;
  let authHeaders := getAuthHeaders config in
  response <- fetch (getApiUrl config (js "/api/halap/conversations/" ++ conversationId))
                    (GET authHeaders) ;;
  _ <- (if negb (ok response)
        then handleErrorResponse unit response (js "Failed to fetch conversation")
        else ret tt) ;;
  txt <- lift (text response) ;;
  match JSON_parse txt with
  | inr v => ret v
  | inl parseError =>
      _ <- perform (ConsoleError (js "Failed to parse conversation response:")
                                 (String_substring0 200 txt)) ;;
      throw _ (Error (js "Invalid JSON response from API: " ++ parseError))
  end.

Definition getBookArtifacts (messageId : jsstring) : M JSValue :=
  config <- resolveConfig ;;
  let authHeaders := getAuthHeaders config in
  response <- fetch (getApiUrl config (js "/api/halap/artifacts/books/" ++ messageId))
                    (GET authHeaders) ;;
  _ <- (if negb (ok response)
        then handleErrorResponse unit response (js "Failed to fetch book artifacts")
        else ret tt) ;;
  lift (Response_json response).

Definition getMusicArtifacts (messageId : jsstring) : M JSValue :=
  config <- resolveConfig ;;
  let authHeaders := getAuthHeaders config in
  response <- fetch (getApiUrl config (js "/api/halap/artifacts/music/" ++ messageId))
                    (GET authHeaders) ;;
  _ <- (if negb (ok response)
        then handleErrorResponse unit response (js "Failed to fetch music artifacts")
        else ret tt) ;;
  lift (Response_json response).

(** [getBookPresentations(isbn13s)]; [None] is a [null] or [undefined]
    argument, which [!isbn13s] catches. *)
Definition getBookPresentations (isbn13s : option (list jsstring)) : M JSValue :=
  _ <- (if match isbn13s with
           | None => true
           | Some l => Nat.eqb (List.length l) 0
           end
        then throw unit (HalapiError (js "At least one ISBN-13 is required") None)
        else ret tt) ;;
  let isbn13s := match isbn13s with Some l => l | None => [] end in
  _ <- (if Nat.ltb 100 (List.length isbn13s)
        then throw unit (HalapiError (js "Maximum 100 ISBN-13s allowed per request") None)
        else ret tt) ;;
  config <- resolveConfig ;;
  let authHeaders := getAuthHeaders config in
  response <- fetch (getApiUrl config (js "/api/halap/books/presentations"))
    {| init_method := Some (js "POST");
       init_headers := authHeaders ++ [(js "Content-Type", js "application/json")];
       init_body := Some (IsbnBody isbn13s);
       init_signal := None |} ;;
  _ <- (if negb (ok response)
        then handleErrorResponse unit response (js "Failed to fetch book presentations")
        else ret tt) ;;
  lift (Response_json response).

(** A request went out when the log holds a [Fetch]. *)
Definition is_Fetch (e : Effect) : bool :=
  match e with
  | Fetch _ _ => true
  | _ => false
  end.

Definition is_ReleaseLock (e : Effect) : bool :=
  match e with
  | ReleaseLock => true
  | _ => false
  end.

Definition is_GetReader (e : Effect) : bool :=
  match e with
  | GetReader => true
  | _ => false
  end.

Definition count (p : Effect -> bool) (log : list Effect) : nat :=
  List.length (filter p log).

(** *** The stream seen as a whole *)

(** The text a decoder makes of a sequence of chunks, each decoded with
    [{ stream: true }]. *)
Fixpoint decode_chunks (decoder : TextDecoder) (chunks : list bytes) : jsstring :=
  match chunks with
  | [] => []
  | value :: chunks' =>
      let (decoder', decoded) := TextDecoder_decode decoder value in
      decoded ++ decode_chunks decoder' chunks'
  end.

(** What one line contributes: its event when it is a [data: ] line that
    parses, nothing otherwise. *)
Definition event_of_line (line : jsstring) : list SSEEvent :=
  if String_startsWith line DATA_PREFIX then
    match JSON_parse (String_slice 6 line) with
    | inr event => [event]
    | inl _ => []
    end
  else [].

(** The events of a text: those of its lines that a newline ends. *)
Definition events_of_text (t : jsstring) : list SSEEvent :=
  flat_map event_of_line (removelast (String_split LF t)).

(** A record on the wire: [data: ], the JSON text, a newline. *)
Definition record (json : jsstring) : jsstring := DATA_PREFIX ++ json ++ [LF].

(** A JSON text fit for a record: well-formed UTF-16 on one line. *)
Definition single_line (json : jsstring) : Prop :=
  Utf8.well_formed json = true /\ ~ In LF json.

(** A response whose body delivers the given chunks and then ends. *)
Definition streaming_response (headers : list (jsstring * jsstring))
                              (chunks : list bytes) : Response :=
  {| ok := true; status := 200; headers := headers;
     body := Some (map ReadValue chunks); text := inr [] |}.

(** The events the reader still holds for a generator that reads on with
    the given decoder and buffer: chunk after chunk, those of the lines each
    chunk completes.  A rejected read ends them. *)
Fixpoint pending_stream (source : list ReadResult) (decoder : TextDecoder)
                        (buffer : jsstring) : list SSEEvent :=
  match source with
  | [] => []
  | ReadRejects _ :: _ => []
  | ReadValue value :: source' =>
      let (decoder', decoded) := TextDecoder_decode decoder value in
      let lines := String_split LF (buffer ++ decoded) in
      flat_map event_of_line (removelast lines)
      ++ pending_stream source' decoder' (last lines [])
  end.

(** How the reader ends for a consumer that never leaves. *)
Fixpoint outcome (result : ChatStreamResult) (source : list ReadResult) : Completion :=
  match source with
  | [] => Finished (Some result)
  | ReadRejects e :: _ => Failed e
  | ReadValue _ :: source' => outcome result source'
  end.

(** The generator at the head of its [try] block. *)
Definition entering (result : ChatStreamResult) (source : list ReadResult) : Frame :=
  SuspendedYield result source new_TextDecoder [] [].

(** The events a generator has still to yield, and how it ends after them. *)
Definition pending (g : Frame) : list SSEEvent :=
  match g with
  | SuspendedStart options =>
      match chatStream_request options with
      | (_, inr (result, source)) => pending_stream source new_TextDecoder []
      | (_, inl _) => []
      end
  | SuspendedYield _ source decoder buffer lines =>
      flat_map event_of_line lines ++ pending_stream source decoder buffer
  | Completed => []
  end.

Definition ending (g : Frame) : Completion :=
  match g with
  | SuspendedStart options =>
      match chatStream_request options with
      | (_, inr (result, source)) => outcome result source
      | (_, inl e) => Failed e
      end
  | SuspendedYield result source _ _ _ => outcome result source
  | Completed => Finished None
  end.

(** The event of a payload, if it parses. *)
Definition parsed (payload : jsstring) : list SSEEvent :=
  match JSON_parse payload with
  | inr event => [event]
  | inl _ => []
  end.

(** The identifiers [chatStream] reads from the headers of a response. *)
Definition identifiers (headers : list (jsstring * jsstring)) : ChatStreamResult :=
  {| result_conversationId := Headers_get headers (js "X-Conversation-Id");
     result_messageId := Headers_get headers (js "X-Message-Id") |}.

(** The [externalUserId] of the body of a chat request. *)
Definition body_externalUserId (init : RequestInit) : option jsstring :=
  match init_body init with
  | Some (ChatBody _ _ id _) => Some id
  | _ => None
  end.

(** An error that the environment raised and the client let through: the
    configuration provider, the transport, the reading of a body as text or
    as JSON, or a read of the stream rejected with it. *)
Definition from_environment (e : JsError) : Prop :=
  getConfig = inl e
  \/ (exists url init, fetchFn url init = inl e)
  \/ (exists url init response,
        fetchFn url init = inr response
        /\ (text response = inl e
            \/ Response_json response = inl e
            \/ exists source, body response = Some source /\ In (ReadRejects e) source)).

(** The body of a response a request was answered with does not parse. *)
Definition unparseable_body : Prop :=
  exists url init response txt message,
    fetchFn url init = inr response /\ text response = inr txt
    /\ JSON_parse txt = inl message.

(** The probes of the log that are counted: they do not count the warnings
    and the reads. *)
Definition probe (p : Effect -> bool) : Prop :=
  (forall line, p (ConsoleWarn line) = false) /\ p Read = false.

(** The environment answers every request with the given response, for a
    configuration that carries a token. *)
Definition serves (response : Response) : Prop :=
  (exists config, getConfig = inr config /\ isConfigValid config = true)
  /\ forall url init, fetchFn url init = inr response.

(** A Unicode scalar value. *)
Definition scalar (c : Z) : Prop :=
  0 <= c < 0x110000 /\ ~ (0xD800 <= c <= 0xDFFF).

(** *** What the log holds *)

Definition is_Read (e : Effect) : bool :=
  match e with
  | Read => true
  | _ => false
  end.

Definition is_ConsoleWarn (e : Effect) : bool :=
  match e with
  | ConsoleWarn _ => true
  | _ => false
  end.

(** The warnings of a log, in order. *)
Definition warnings (log : list Effect) : list Effect := filter is_ConsoleWarn log.

(** [JSON.parse] accepts the payload. *)
Definition parses (payload : jsstring) : bool :=
  match JSON_parse payload with
  | inr _ => true
  | inl _ => false
  end.

(** The lines the [for] loop warns about: those that start with [data: ]
    and whose payload does not parse. *)
Definition warned (line : jsstring) : bool :=
  String_startsWith line DATA_PREFIX && negb (parses (String_slice 6 line)).

Definition warning_of_line (line : jsstring) : list Effect :=
  if warned line then [ConsoleWarn line] else [].

(** The warnings a generator that reads on has still to log, as
    [pending_stream] has its events. *)
Fixpoint pending_stream_warnings (source : list ReadResult) (decoder : TextDecoder)
                                 (buffer : jsstring) : list Effect :=
  match source with
  | [] => []
  | ReadRejects _ :: _ => []
  | ReadValue value :: source' =>
      let (decoder', decoded) := TextDecoder_decode decoder value in
      let lines := String_split LF (buffer ++ decoded) in
      flat_map warning_of_line (removelast lines)
      ++ pending_stream_warnings source' decoder' (last lines [])
  end.

Definition pending_warnings (g : Frame) : list Effect :=
  match g with
  | SuspendedYield _ source decoder buffer lines =>
      flat_map warning_of_line lines ++ pending_stream_warnings source decoder buffer
  | _ => []
  end.

(** The reads a reader answers: one for each chunk up to the first
    rejection, and the one that rejects or says that the body is done. *)
Fixpoint reads (source : list ReadResult) : nat :=
  match source with
  | [] => 1
  | ReadRejects _ :: _ => 1
  | ReadValue _ :: source' => S (reads source')
  end.

(** The chunks a reader delivers: those before its first rejection. *)
Fixpoint delivered (source : list ReadResult) : list bytes :=
  match source with
  | ReadValue value :: source' => value :: delivered source'
  | _ => []
  end.

(** What the loop over the body does to the world besides releasing the
    lock: it reads and it warns. *)
Definition is_loop_effect (e : Effect) : bool := is_Read e || is_ConsoleWarn e.

(** The reads a generator can still make. *)
Definition pending_reads (g : Frame) : nat :=
  match g with
  | SuspendedYield _ source _ _ _ => reads source
  | _ => 0
  end.

(** A request that goes to the configured base URL with the configured
    token as its bearer. *)
Definition authorized (url : jsstring) (init : RequestInit) : Prop :=
  exists config path,
    getConfig = inr config /\ isConfigValid config = true
    /\ url = apiUrl config ++ path
    /\ In (js "Authorization", js "Bearer " ++ apiToken config) (init_headers init).

(** What [handleErrorResponse] puts after the context in its message:
    [error.message] of the body where the body parses and has one, the
    status otherwise. *)
Definition error_detail (response : Response) : jsstring :=
  match Response_json response with
  | inr errorData =>
      match error_message errorData with
      | Some m => m
      | None => js "HTTP " ++ String_of_Z (status response)
      end
  | inl _ => js "HTTP " ++ String_of_Z (status response)
  end.

(** The error of a response that is not ok, for an operation of the given
    context. *)
Definition status_error (response : Response) (context : jsstring) : JsError :=
  HalapiError (context ++ js ": " ++ error_detail response) (Some (status response)).

(** A line on the wire, with the newline that ends it. *)
Definition terminated (line : jsstring) : jsstring := line ++ [LF].

(** A list of ISBNs that passes the validation of [getBookPresentations]. *)
Definition accepted (isbn13s : list jsstring) : Prop :=
  (1 <= List.length isbn13s <= 100)%nat.

(** Every operation of the client fails with the given error, [chatStream]
    at its first [next()] and without an event, [getBookPresentations]
    for a list that passes its validation. *)
Definition every_operation_fails (e : JsError) : Prop :=
  (forall options n,
     yielded (for_await (S n) (chatStream options)) = []
     /\ completion (for_await (S n) (chatStream options)) = Failed e)
  /\ (forall externalUserId limit, snd (getConversations externalUserId limit) = inl e)
  /\ (forall conversationId, snd (getConversation conversationId) = inl e)
  /\ (forall messageId, snd (getBookArtifacts messageId) = inl e)
  /\ (forall messageId, snd (getMusicArtifacts messageId) = inl e)
  /\ (forall isbn13s, accepted isbn13s ->
        snd (getBookPresentations (Some isbn13s)) = inl e).

(** ** Lines *)

Unset Implicit Arguments.

(** Drops from the context what a lemma does not speak of. *)
Ltac pure :=
  try clear fetchFn; try clear getConfig; try clear Date_toISOString;
  try clear URLSearchParams_toString; try clear error_message;
  try clear JSON_stringify; try clear JSON_parse; try clear JSValue.

Lemma String_split_nonempty sep s : String_split sep s <> [].
Proof.
  destruct s as [| c s]; simpl; [discriminate |].
  destruct (c =? sep); [discriminate |].
  destruct (String_split sep s); discriminate.
Qed.

Lemma Array_pop_last (A : Type) (l : list A) (d : A) :
  l <> [] -> Array_pop l = (Some (last l d), removelast l).
Proof.
  intros Hl. destruct (exists_last Hl) as (l' & x & ->).
  unfold Array_pop. rewrite rev_app_distr. simpl.
  rewrite rev_involutive, last_last, removelast_last. reflexivity.
Qed.

(** Splitting a text that continues: the lines that the first part
    completes stay, its last segment is continued by the second part. *)
Lemma String_split_app sep a b :
  String_split sep (a ++ b) =
  removelast (String_split sep a) ++ String_split sep (last (String_split sep a) [] ++ b).
Proof.
  induction a as [| c a IH]; simpl; [reflexivity |].
  pose proof (String_split_nonempty sep a) as Hne.
  destruct (c =? sep) eqn:Hc; rewrite IH;
    destruct (String_split sep a) as [| l ls] eqn:E; try contradiction.
  - reflexivity.
  - destruct ls as [| l' ls'].
    + simpl. rewrite Hc. reflexivity.
    + change (removelast (l :: l' :: ls')) with (l :: removelast (l' :: ls')).
      change (removelast ((c :: l) :: l' :: ls')) with ((c :: l) :: removelast (l' :: ls')).
      change (last ((c :: l) :: l' :: ls') []) with (last (l' :: ls') ([] : jsstring)).
      change (last (l :: l' :: ls') []) with (last (l' :: ls') ([] : jsstring)).
      reflexivity.
Qed.

(** A line without separator, ended by one, is the first element. *)
Lemma String_split_line sep line rest :
  ~ In sep line ->
  String_split sep (line ++ sep :: rest) = line :: String_split sep rest.
Proof.
  induction line as [| c line IH]; intros Hnot; simpl.
  - rewrite Z.eqb_refl. reflexivity.
  - destruct (Z.eqb_spec c sep) as [-> | Hne].
    + exfalso. apply Hnot. left. reflexivity.
    + rewrite IH; [reflexivity |]. intros Hin. apply Hnot. right. exact Hin.
Qed.

Lemma String_split_no_separator sep s :
  ~ In sep s -> String_split sep s = [s].
Proof.
  induction s as [| c s IH]; intros Hnot; simpl; [reflexivity |].
  destruct (Z.eqb_spec c sep) as [-> | Hne].
  - exfalso. apply Hnot. left. reflexivity.
  - rewrite IH; [reflexivity |]. intros Hin. apply Hnot. right. exact Hin.
Qed.

Lemma startsWith_DATA_PREFIX payload :
  String_startsWith (DATA_PREFIX ++ payload) DATA_PREFIX = true.
Proof. reflexivity. Qed.

Lemma slice_DATA_PREFIX payload :
  String_slice 6 (DATA_PREFIX ++ payload) = payload.
Proof. reflexivity. Qed.

(** ** UTF-8: bits as arithmetic *)

Lemma land_shifted_low a b n :
  0 <= n -> 0 <= b < 2 ^ n -> Z.land (a * 2 ^ n) b = 0.
Proof.
  intros Hn Hb. apply Z.bits_inj'. intros i Hi.
  rewrite Z.land_spec, Z.bits_0.
  destruct (Z.lt_ge_cases i n) as [Hlt | Hge].
  - rewrite Z.mul_pow2_bits_low by lia. reflexivity.
  - replace b with (b mod 2 ^ n) by (apply Z.mod_small; lia).
    rewrite Z.mod_pow2_bits_high by lia. apply andb_false_r.
Qed.

Lemma lor_shifted_low a b n :
  0 <= n -> 0 <= b < 2 ^ n -> Z.lor (a * 2 ^ n) b = a * 2 ^ n + b.
Proof.
  intros Hn Hb. rewrite <- Z.add_lor_land, land_shifted_low by assumption. lia.
Qed.

Lemma land_low a n : 0 <= n -> Z.land a (2 ^ n - 1) = a mod 2 ^ n.
Proof.
  intros Hn. rewrite <- Z.land_ones by assumption. f_equal.
  rewrite Z.ones_equiv. lia.
Qed.

Lemma land_lead n k m :
  0 <= n -> 0 <= k < 2 ^ n -> Z.land (m * 2 ^ n + k) (2 ^ n - 1) = k.
Proof.
  intros. rewrite land_low by lia. rewrite Z.add_comm, Z.mod_add by lia.
  apply Z.mod_small. lia.
Qed.

Lemma continuation_byte c : Z.lor 0x80 (Z.land c 0x3F) = 0x80 + c mod 64.
Proof.
  change 0x3F with (2 ^ 6 - 1). rewrite land_low by lia.
  change 0x80 with (2 * 2 ^ 6). rewrite lor_shifted_low; [reflexivity | lia |].
  apply Z.mod_pos_bound. lia.
Qed.

Lemma lead_byte2 x : 0 <= x < 32 -> Z.lor 0xC0 x = 0xC0 + x.
Proof. intros. change 0xC0 with (6 * 2 ^ 5). apply lor_shifted_low; lia. Qed.

Lemma lead_byte3 x : 0 <= x < 16 -> Z.lor 0xE0 x = 0xE0 + x.
Proof. intros. change 0xE0 with (14 * 2 ^ 4). apply lor_shifted_low; lia. Qed.

Lemma lead_byte4 x : 0 <= x < 8 -> Z.lor 0xF0 x = 0xF0 + x.
Proof. intros. change 0xF0 with (30 * 2 ^ 3). apply lor_shifted_low; lia. Qed.

Lemma payload2 q : 0 <= q < 32 -> Z.land (0xC0 + q) 0x1F = q.
Proof.
  intros. change 0x1F with (2 ^ 5 - 1). change 0xC0 with (6 * 2 ^ 5).
  apply land_lead; lia.
Qed.

Lemma payload3 q : 0 <= q < 16 -> Z.land (0xE0 + q) 0xF = q.
Proof.
  intros. change 0xF with (2 ^ 4 - 1). change 0xE0 with (14 * 2 ^ 4).
  apply land_lead; lia.
Qed.

Lemma payload4 q : 0 <= q < 8 -> Z.land (0xF0 + q) 0x7 = q.
Proof.
  intros. change 0x7 with (2 ^ 3 - 1). change 0xF0 with (30 * 2 ^ 3).
  apply land_lead; lia.
Qed.

Lemma accumulate cp k :
  0 <= k < 64 -> Z.lor (Z.shiftl cp 6) (Z.land (0x80 + k) 0x3F) = cp * 64 + k.
Proof.
  pure.
  intros Hk. change 0x3F with (2 ^ 6 - 1). rewrite land_low by lia.
  rewrite Z.shiftl_mul_pow2 by lia.
  replace ((0x80 + k) mod 2 ^ 6) with k.
  - rewrite lor_shifted_low; lia.
  - change (2 ^ 6) with 64. Z.div_mod_to_equations. lia.
Qed.

Ltac decide_test :=
  match goal with
  | |- context [(?a <=? ?b) && (?c <=? ?d)] =>
      first
        [ replace ((a <=? b) && (c <=? d)) with true
            by (symmetry; apply andb_true_intro; split; apply Z.leb_le; lia)
        | replace ((a <=? b) && (c <=? d)) with false
            by (symmetry; apply andb_false_iff;
                first [left; apply Z.leb_gt; lia | right; apply Z.leb_gt; lia]) ]
  | |- context [?a =? ?b] =>
      first
        [ replace (a =? b) with true by (symmetry; apply Z.eqb_eq; lia)
        | replace (a =? b) with false by (symmetry; apply Z.eqb_neq; lia) ]
  end.

Ltac decide_tests := repeat decide_test; cbn [negb].

Ltac split_tests :=
  repeat match goal with
  | |- context [?a =? ?b] => destruct (Z.eqb_spec a b)
  end; cbv beta iota.

Ltac decoder_fields :=
  cbn [Utf8.bytes_needed Utf8.lower_boundary Utf8.upper_boundary
       Utf8.bytes_seen Utf8.code_point].

Lemma handler_lead d b : Utf8.bytes_needed d = 0 -> Utf8.handler d b = Utf8.lead b.
Proof. intros H. unfold Utf8.handler. rewrite H. reflexivity. Qed.

Lemma handler_continuation d k :
  Utf8.bytes_needed d <> 0 ->
  0 <= k < 64 ->
  Utf8.lower_boundary d <= 0x80 + k <= Utf8.upper_boundary d ->
  Utf8.handler d (0x80 + k) =
    if Utf8.bytes_seen d + 1 =? Utf8.bytes_needed d
    then (Utf8.initial, [Utf8.code_point d * 64 + k])
    else ({| Utf8.code_point := Utf8.code_point d * 64 + k;
             Utf8.bytes_seen := Utf8.bytes_seen d + 1;
             Utf8.bytes_needed := Utf8.bytes_needed d;
             Utf8.lower_boundary := 0x80; Utf8.upper_boundary := 0xBF |}, []).
Proof.
  intros Hn Hk Hb. unfold Utf8.handler.
  replace (Utf8.bytes_needed d =? 0) with false by (symmetry; apply Z.eqb_neq; lia).
  replace ((Utf8.lower_boundary d <=? 128 + k) && (128 + k <=? Utf8.upper_boundary d))
    with true by (symmetry; apply andb_true_intro; split; apply Z.leb_le; lia).
  cbn [negb]. rewrite accumulate by lia. reflexivity.
Qed.

Lemma lead_ascii b : 0 <= b <= 0x7F -> Utf8.lead b = (Utf8.initial, [b]).
Proof. intros. unfold Utf8.lead. decide_tests. reflexivity. Qed.

(** The decoder reads back what the encoder wrote for one scalar value,
    and ends in its initial state. *)
Lemma run_encode_code_point c :
  scalar c -> Utf8.run Utf8.initial (Utf8.encode_code_point c) = (Utf8.initial, [c]).
Proof.
  pure.
  intros [Hr Hs]. unfold Utf8.encode_code_point.
  destruct (Z.leb_spec c 0x7F).
  { cbn [Utf8.run]. rewrite handler_lead, lead_ascii by (reflexivity || lia).
    reflexivity. }
  destruct (Z.leb_spec c 0x7FF).
  { rewrite continuation_byte. rewrite Z.shiftr_div_pow2 by lia. change (2 ^ 6) with 64.
    assert (Hq : 2 <= c / 64 < 32) by (Z.div_mod_to_equations; lia).
    assert (Hm : 0 <= c mod 64 < 64) by (apply Z.mod_pos_bound; lia).
    rewrite lead_byte2 by lia.
    cbn [Utf8.run]. rewrite handler_lead by reflexivity.
    unfold Utf8.lead. decide_tests. rewrite payload2 by lia.
    rewrite handler_continuation; decoder_fields; try lia.
    cbn. repeat f_equal. Z.div_mod_to_equations; lia. }
  destruct (Z.leb_spec c 0xFFFF).
  { rewrite !continuation_byte. rewrite !Z.shiftr_div_pow2 by lia.
    change (2 ^ 6) with 64. change (2 ^ 12) with 4096.
    assert (Hq : 0 <= c / 4096 < 16) by (Z.div_mod_to_equations; lia).
    assert (Hm : 0 <= c mod 64 < 64) by (apply Z.mod_pos_bound; lia).
    assert (Hm2 : 0 <= (c / 64) mod 64 < 64) by (apply Z.mod_pos_bound; lia).
    rewrite lead_byte3 by lia.
    cbn [Utf8.run]. rewrite handler_lead by reflexivity.
    unfold Utf8.lead. decide_tests. rewrite payload3 by lia.
    rewrite handler_continuation; decoder_fields; try lia.
    2:{ split_tests; Z.div_mod_to_equations; lia. }
    decide_tests.
    rewrite handler_continuation; decoder_fields; try lia.
    cbn. repeat f_equal. Z.div_mod_to_equations; lia. }
  rewrite !continuation_byte. rewrite !Z.shiftr_div_pow2 by lia.
  change (2 ^ 6) with 64. change (2 ^ 12) with 4096. change (2 ^ 18) with 262144.
  assert (Hq : 0 <= c / 262144 < 5) by (Z.div_mod_to_equations; lia).
  assert (Hm : 0 <= c mod 64 < 64) by (apply Z.mod_pos_bound; lia).
  assert (Hm2 : 0 <= (c / 64) mod 64 < 64) by (apply Z.mod_pos_bound; lia).
  assert (Hm3 : 0 <= (c / 4096) mod 64 < 64) by (apply Z.mod_pos_bound; lia).
  rewrite lead_byte4 by lia.
  cbn [Utf8.run]. rewrite handler_lead by reflexivity.
  unfold Utf8.lead. decide_tests. rewrite payload4 by lia.
  rewrite handler_continuation; decoder_fields; try lia.
  2:{ split_tests; Z.div_mod_to_equations; lia. }
  decide_tests.
  rewrite handler_continuation; decoder_fields; try lia.
  decide_tests.
  rewrite handler_continuation; decoder_fields; try lia.
  cbn. repeat f_equal. Z.div_mod_to_equations; lia.
Qed.

(** ** UTF-8: chunks and strings *)

Lemma run_app d a b :
  Utf8.run d (a ++ b) =
  let (d1, out1) := Utf8.run d a in
  let (d2, out2) := Utf8.run d1 b in (d2, out1 ++ out2).
Proof.
  revert d. induction a as [| x a IH]; intros d; simpl.
  - destruct (Utf8.run d b). reflexivity.
  - destruct (Utf8.handler d x) as [d1 o1]. rewrite IH.
    destruct (Utf8.run d1 a) as [d2 o2]. destruct (Utf8.run d2 b) as [d3 o3].
    rewrite app_assoc. reflexivity.
Qed.

Lemma serialize_app seen x y :
  Utf8.serialize seen (x ++ y) =
  let (seen1, s1) := Utf8.serialize seen x in
  let (seen2, s2) := Utf8.serialize seen1 y in (seen2, s1 ++ s2).
Proof.
  revert seen. induction x as [| c x IH]; intros seen; simpl.
  - destruct (Utf8.serialize seen y). reflexivity.
  - destruct (negb seen && (c =? 65279)).
    + apply IH.
    + rewrite IH. destruct (Utf8.serialize true x) as [b1 s1].
      destruct (Utf8.serialize b1 y) as [b2 s2]. rewrite app_assoc. reflexivity.
Qed.

(** Decoding with [{ stream: true }] does not depend on where the chunks
    are cut. *)
Lemma TextDecoder_decode_app decoder a b :
  TextDecoder_decode decoder (a ++ b) =
  let (decoder1, t1) := TextDecoder_decode decoder a in
  let (decoder2, t2) := TextDecoder_decode decoder1 b in (decoder2, t1 ++ t2).
Proof.
  unfold TextDecoder_decode. rewrite run_app.
  destruct (Utf8.run (utf8 decoder) a) as [d1 o1].
  destruct (Utf8.serialize (BOM_seen decoder) o1) as [b1 s1] eqn:E1.
  cbn [utf8 BOM_seen].
  destruct (Utf8.run d1 b) as [d2 o2]. rewrite serialize_app, E1.
  destruct (Utf8.serialize b1 o2) as [b2 s2]. reflexivity.
Qed.

Lemma decode_chunks_concat decoder chunks :
  decode_chunks decoder chunks = snd (TextDecoder_decode decoder (List.concat chunks)).
Proof.
  revert decoder. induction chunks as [| value chunks IH]; intros decoder.
  - destruct decoder as [d seen]. reflexivity.
  - cbn [decode_chunks List.concat]. rewrite TextDecoder_decode_app.
    destruct (TextDecoder_decode decoder value) as [decoder1 t1]. rewrite IH.
    destruct (TextDecoder_decode decoder1 (List.concat chunks)). reflexivity.
Qed.

Lemma run_encode cps :
  Forall scalar cps ->
  Utf8.run Utf8.initial (flat_map Utf8.encode_code_point cps) = (Utf8.initial, cps).
Proof.
  induction 1 as [| c cps Hc _ IH]; [reflexivity |].
  cbn [flat_map]. rewrite run_app, run_encode_code_point by assumption.
  rewrite IH. reflexivity.
Qed.

Lemma serialize_seen cps :
  Utf8.serialize true cps = (true, flat_map Utf8.utf16_of_code_point cps).
Proof.
  induction cps as [| c cps IH]; [reflexivity |].
  cbn [Utf8.serialize negb andb flat_map]. rewrite IH. reflexivity.
Qed.

Lemma serialize_no_BOM seen cps :
  hd 0 cps <> 0xFEFF ->
  snd (Utf8.serialize seen cps) = flat_map Utf8.utf16_of_code_point cps.
Proof.
  destruct cps as [| c cps]; [reflexivity |]. cbn [hd]. intros Hc.
  cbn [Utf8.serialize flat_map].
  replace (c =? 65279) with false by (symmetry; apply Z.eqb_neq; exact Hc).
  rewrite andb_false_r, serialize_seen. reflexivity.
Qed.

(** Induction on strings two code units at a time. *)
Lemma jsstring_pair_ind (P : jsstring -> Prop) :
  P [] ->
  (forall u s, P s -> (forall v s', s = v :: s' -> P s') -> P (u :: s)) ->
  forall s, P s.
Proof.
  intros Hnil Hcons.
  assert (H : forall s, P s /\ (forall v s', s = v :: s' -> P s')).
  { induction s as [| u s [IH1 IH2]].
    - split; [exact Hnil | discriminate].
    - split.
      + apply Hcons; assumption.
      + intros v s' E. injection E as _ <-. exact IH1. }
  intros s. apply H.
Qed.

Ltac surrogate_tests :=
  unfold Utf8.is_lead_surrogate, Utf8.is_trail_surrogate in *;
  repeat match goal with
  | H : _ && _ = true |- _ => apply andb_true_iff in H; destruct H
  | H : _ && _ = false |- _ => apply andb_false_iff in H
  | H : negb _ = true |- _ => apply negb_true_iff in H
  | H : (_ <=? _) = true |- _ => apply Z.leb_le in H
  | H : (_ <=? _) = false |- _ => apply Z.leb_gt in H
  end.

Lemma surrogate_pair u v :
  Utf8.is_lead_surrogate u = true -> Utf8.is_trail_surrogate v = true ->
  let c := 0x10000 + Z.shiftl (u - 0xD800) 10 + (v - 0xDC00) in
  scalar c /\ Utf8.utf16_of_code_point c = [u; v] /\ c <> 0xFEFF.
Proof.
  pure.
  intros Hu Hv c. surrogate_tests. subst c.
  rewrite Z.shiftl_mul_pow2 by lia. change (2 ^ 10) with 1024.
  split; [| split].
  - unfold scalar. lia.
  - unfold Utf8.utf16_of_code_point.
    destruct (Z.ltb_spec (65536 + (u - 55296) * 1024 + (v - 56320)) 65536); [lia |].
    rewrite Z.shiftr_div_pow2 by lia. change (2 ^ 10) with 1024.
    change 0x3FF with (2 ^ 10 - 1). rewrite land_low by lia. change (2 ^ 10) with 1024.
    f_equal; [| f_equal]; Z.div_mod_to_equations; lia.
  - lia.
Qed.

Lemma code_points_well_formed s :
  Utf8.well_formed s = true ->
  Forall scalar (Utf8.code_points s)
  /\ flat_map Utf8.utf16_of_code_point (Utf8.code_points s) = s
  /\ (hd 0 s <> 0xFEFF -> hd 0 (Utf8.code_points s) <> 0xFEFF).
Proof.
  induction s as [| u s IH1 IH2] using jsstring_pair_ind; intros Hwf.
  - repeat split; [constructor | intros H; exact H].
  - cbn [Utf8.well_formed Utf8.code_points] in *.
    destruct (Utf8.is_lead_surrogate u) eqn:Hu.
    + destruct s as [| v s']; [discriminate |].
      apply andb_true_iff in Hwf. destruct Hwf as [Hv Hwf]. rewrite Hv.
      destruct (IH2 v s' eq_refl Hwf) as (Hs & Hrt & _).
      destruct (surrogate_pair u v Hu Hv) as (Hc & H16 & Hbom).
      split; [constructor; assumption |]. split.
      * cbn [flat_map]. rewrite H16, Hrt. reflexivity.
      * intros _. exact Hbom.
    + apply andb_true_iff in Hwf. destruct Hwf as [Hwf Hs].
      apply andb_true_iff in Hwf. destruct Hwf as [Hr Ht].
      apply negb_true_iff in Ht. rewrite Ht.
      destruct (IH1 Hs) as (Hsc & Hrt & _).
      split; [| split].
      * constructor; [| exact Hsc]. surrogate_tests. unfold scalar. lia.
      * cbn [flat_map]. rewrite Hrt. unfold Utf8.utf16_of_code_point.
        surrogate_tests.
        destruct (Z.ltb_spec u 65536); [reflexivity | lia].
      * intros H. exact H.
Qed.

(** [TextDecoder] reads back what [TextEncoder] wrote, for a well-formed
    string that does not begin with a byte order mark. *)
Lemma decode_encode s :
  Utf8.well_formed s = true -> hd 0 s <> 0xFEFF ->
  snd (TextDecoder_decode new_TextDecoder (TextEncoder_encode s)) = s.
Proof.
  intros Hwf Hbom. destruct (code_points_well_formed s Hwf) as (Hsc & Hrt & Hhd).
  unfold TextDecoder_decode, TextEncoder_encode, new_TextDecoder. cbn [utf8 BOM_seen].
  rewrite run_encode by assumption.
  pose proof (serialize_no_BOM false (Utf8.code_points s) (Hhd Hbom)) as Hser.
  destruct (Utf8.serialize false (Utf8.code_points s)) as [seen t].
  cbn [snd] in *. rewrite Hser. exact Hrt.
Qed.

Lemma well_formed_app a b :
  Utf8.well_formed a = true -> Utf8.well_formed b = true ->
  Utf8.well_formed (a ++ b) = true.
Proof.
  intros Ha Hb. induction a as [| u a IH1 IH2] using jsstring_pair_ind; [exact Hb |].
  cbn [Utf8.well_formed app] in *.
  destruct (Utf8.is_lead_surrogate u).
  - destruct a as [| v a']; [discriminate |]. cbn [app].
    apply andb_true_iff in Ha. destruct Ha as [Hv Ha]. rewrite Hv.
    apply (IH2 v a' eq_refl Ha).
  - apply andb_true_iff in Ha. destruct Ha as [Hu Ha]. rewrite Hu.
    apply (IH1 Ha).
Qed.

(** ** The generator *)

Lemma count_app p (a b : list Effect) : count p (a ++ b) = (count p a + count p b)%nat.
Proof. unfold count. rewrite filter_app, length_app. reflexivity. Qed.

Lemma count_cons p e (log : list Effect) :
  count p (e :: log) = ((if p e then 1 else 0) + count p log)%nat.
Proof. unfold count. simpl. destruct (p e); reflexivity. Qed.

(** The [for] loop yields the first event of its lines and keeps the rest;
    all it does besides is warn. *)
Lemma for_lines_spec lines :
  match for_lines lines with
  | (log, Some (event, rest)) =>
      flat_map event_of_line lines = event :: flat_map event_of_line rest
  | (log, None) => flat_map event_of_line lines = []
  end
  /\ Forall (fun e => exists line, e = ConsoleWarn line) (fst (for_lines lines)).
Proof.
  induction lines as [| line rest [IH1 IH2]]; [split; [reflexivity | constructor] |].
  unfold event_of_line in *. cbn [for_lines flat_map].
  destruct (String_startsWith line DATA_PREFIX).
  - destruct (JSON_parse (String_slice 6 line)) as [m | event].
    + destruct (for_lines rest) as [log [[event rest'] |]]; cbn [fst app] in *;
        (split; [exact IH1 | constructor; [eexists; reflexivity | exact IH2]]).
    + split; [reflexivity | constructor].
  - destruct (for_lines rest) as [log [[event rest'] |]]; cbn [fst app] in *;
      (split; [exact IH1 | exact IH2]).
Qed.

Lemma count_warnings p (log : list Effect) :
  (forall line, p (ConsoleWarn line) = false) ->
  Forall (fun e => exists line, e = ConsoleWarn line) log -> count p log = 0%nat.
Proof.
  intros Hp. induction 1 as [| e log [line ->] _ IH]; [reflexivity |].
  rewrite count_cons, Hp, IH. reflexivity.
Qed.

Lemma probe_ReleaseLock : probe is_ReleaseLock.
Proof. split; reflexivity. Qed.

Lemma probe_GetReader : probe is_GetReader.
Proof. split; reflexivity. Qed.

Lemma probe_Fetch : probe is_Fetch.
Proof. split; reflexivity. Qed.

(** One turn of the [while] loop up to a [yield] or to the end. *)
Lemma while_read_spec result source decoder buffer :
  match while_read result source decoder buffer with
  | (log, Yielded event, frame) =>
      pending_stream source decoder buffer = event :: pending frame
      /\ ending frame = outcome result source
      /\ (exists source' decoder' buffer' rest,
            frame = SuspendedYield result source' decoder' buffer' rest)
      /\ forall p, probe p -> count p log = 0%nat
  | (log, Returned value, frame) =>
      pending_stream source decoder buffer = []
      /\ outcome result source = Finished value
      /\ value = Some result
      /\ frame = Completed
      /\ forall p, probe p -> count p log = if p ReleaseLock then 1%nat else 0%nat
  | (log, Thrown e, frame) =>
      pending_stream source decoder buffer = []
      /\ outcome result source = Failed e
      /\ frame = Completed
      /\ forall p, probe p -> count p log = if p ReleaseLock then 1%nat else 0%nat
  end.
Proof.
  revert decoder buffer.
  induction source as [| [value | e] source IH]; intros decoder buffer.
  - cbn [while_read pending_stream outcome]. repeat split.
    intros p [_ Hr]. rewrite !count_cons, Hr. destruct (p ReleaseLock); reflexivity.
  - cbn [while_read pending_stream outcome].
    destruct (TextDecoder_decode decoder value) as [decoder' decoded].
    rewrite (Array_pop_last jsstring _ ([] : jsstring)) by apply String_split_nonempty.
    set (lines := String_split LF (buffer ++ decoded)).
    destruct (for_lines_spec (removelast lines)) as [Hev Hlog].
    pose proof (fun p (Hp : probe p) => count_warnings p _ (proj1 Hp) Hlog) as Hquiet.
    destruct (for_lines (removelast lines)) as [log [[event rest] |]]; cbn [fst] in *.
    + rewrite Hev. cbn [pending ending]. repeat split.
      * do 4 eexists. reflexivity.
      * intros p Hp. rewrite count_cons, (Hquiet p Hp), (proj2 Hp). reflexivity.
    + rewrite Hev. cbn [app]. specialize (IH decoder' (last lines [])).
      destruct (while_read result source decoder' (last lines [])) as [[log' r] frame].
      destruct r as [event | value' | e]; cbn [pending ending] in *.
      * destruct IH as (H1 & H2 & H3 & H4). repeat split; try assumption.
        intros p Hp. rewrite count_cons, count_app, (Hquiet p Hp), (H4 p Hp), (proj2 Hp).
        reflexivity.
      * destruct IH as (H1 & H2 & H3 & H4 & H5). repeat split; try assumption.
        intros p Hp. rewrite count_cons, count_app, (Hquiet p Hp), (H5 p Hp), (proj2 Hp).
        reflexivity.
      * destruct IH as (H1 & H2 & H3 & H4). repeat split; try assumption.
        intros p Hp. rewrite count_cons, count_app, (Hquiet p Hp), (H4 p Hp), (proj2 Hp).
        reflexivity.
  - cbn [while_read pending_stream outcome]. repeat split.
    intros p [_ Hr]. rewrite !count_cons, Hr. destruct (p ReleaseLock); reflexivity.
Qed.

(** A consumer that leaves after [n] events gets the first [n] of those
    pending; the lock is released once, whichever way the loop ends. *)
Lemma for_await_suspended n :
  forall result source decoder buffer lines,
  let g := SuspendedYield result source decoder buffer lines in
  let r := for_await n g in
  yielded r = firstn n (pending g)
  /\ completion r = (if (n <=? List.length (pending g))%nat then Abandoned else ending g)
  /\ final r = Completed
  /\ forall p, probe p -> count p (effects r) = if p ReleaseLock then 1%nat else 0%nat.
Proof.
  induction n as [| n IH]; intros result source decoder buffer lines; cbv zeta.
  - cbn [for_await Generator_return yielded completion final effects firstn].
    repeat split. intros p _. rewrite count_cons. destruct (p ReleaseLock); reflexivity.
  - cbn [for_await Generator_next].
    destruct (for_lines_spec lines) as [Hev Hlog].
    pose proof (fun p (Hp : probe p) => count_warnings p _ (proj1 Hp) Hlog) as Hquiet.
    destruct (for_lines lines) as [log [[event rest] |]]; cbn [fst] in *.
    + specialize (IH result source decoder buffer rest). cbv zeta in IH.
      destruct IH as (H1 & H2 & H3 & H4).
      cbn [yielded completion final effects pending ending] in *.
      rewrite Hev. cbn [app firstn List.length Nat.leb]. rewrite H1, H2.
      repeat split; try assumption.
      intros p Hpr. rewrite count_app, (Hquiet p Hpr), (H4 p Hpr). reflexivity.
    + pose proof (while_read_spec result source decoder buffer) as Hw.
      destruct (while_read result source decoder buffer) as [[log' res] frame].
      destruct res as [event | value | e].
      * destruct Hw as (Hw1 & Hw2 & (source' & decoder' & buffer' & rest & ->) & Hw4).
        specialize (IH result source' decoder' buffer' rest). cbv zeta in IH.
        destruct IH as (H1 & H2 & H3 & H4).
        cbn [yielded completion final effects pending ending] in *.
        rewrite Hev, Hw1. cbn [app firstn List.length Nat.leb]. rewrite H1, H2, Hw2.
        repeat split; try assumption.
        intros p Hpr.
        rewrite !count_app, (Hquiet p Hpr), (Hw4 p Hpr), (H4 p Hpr). reflexivity.
      * destruct Hw as (Hw1 & Hw2 & Hw3 & -> & Hw5).
        cbn [yielded completion final effects pending ending].
        rewrite Hev, Hw1. cbn [app firstn List.length Nat.leb].
        rewrite Hw2. repeat split.
        intros p Hpr. rewrite count_app, (Hquiet p Hpr), (Hw5 p Hpr). reflexivity.
      * destruct Hw as (Hw1 & Hw2 & -> & Hw4).
        cbn [yielded completion final effects pending ending].
        rewrite Hev, Hw1. cbn [app firstn List.length Nat.leb].
        rewrite Hw2. repeat split.
        intros p Hpr. rewrite count_app, (Hquiet p Hpr), (Hw4 p Hpr). reflexivity.
Qed.

(** The first [next()] of a call whose request succeeded runs the loop from
    the head of the [try] block. *)
Lemma Generator_next_start options log result source :
  chatStream_request options = (log, inr (result, source)) ->
  Generator_next (chatStream options) =
  let '(log', r, frame) := Generator_next (entering result source) in
  (log ++ log', r, frame).
Proof.
  intros Hreq. unfold chatStream, entering. cbn [Generator_next for_lines].
  rewrite Hreq. destruct (while_read result source new_TextDecoder []) as [[log' r] frame].
  reflexivity.
Qed.

Lemma for_await_start n options log result source :
  chatStream_request options = (log, inr (result, source)) ->
  let r := for_await (S n) (chatStream options) in
  let r' := for_await (S n) (entering result source) in
  yielded r = yielded r' /\ completion r = completion r' /\ final r = final r'
  /\ effects r = log ++ effects r'.
Proof.
  intros Hreq. cbn [for_await]. rewrite (Generator_next_start _ _ _ _ Hreq).
  destruct (Generator_next (entering result source)) as [[log' res] frame].
  destruct res; cbn [yielded completion final effects]; repeat split.
  rewrite app_assoc. reflexivity.
Qed.

Lemma for_await_failed n options log e :
  chatStream_request options = (log, inl e) ->
  for_await (S n) (chatStream options) =
  {| yielded := []; effects := log; completion := Failed e; final := Completed |}.
Proof.
  intros Hreq. unfold chatStream. cbn [for_await Generator_next]. rewrite Hreq.
  reflexivity.
Qed.

(** The statements before the [try]: the effects they perform and the
    ways they end. *)
Lemma chatStream_request_cases options :
  (exists e, chatStream_request options = ([GetConfig], inl e)
             /\ (getConfig = inl e
                 \/ exists config, getConfig = inr config
                      /\ isConfigValid config = false
                      /\ e = HalapiError (js "API token not configured") None))
  \/ (exists config url init, getConfig = inr config /\ isConfigValid config = true
      /\ url = getApiUrl config (js "/api/halap/chat/stream")
      /\ init_body init =
           Some (ChatBody (query options) (conversationId options)
                   (match externalUserId options with
                    | Some id => id
                    | None => js "sdk-user"
                    end) (metadata options))
      /\ ((exists e, fetchFn url init = inl e
                     /\ chatStream_request options = ([GetConfig; Fetch url init], inl e))
          \/ (exists response, fetchFn url init = inr response
              /\ ((ok response = false
                   /\ exists message,
                        chatStream_request options =
                        ([GetConfig; Fetch url init],
                         inl (HalapiError message (Some (status response)))))
                  \/ (ok response = true /\ body response = None
                      /\ chatStream_request options =
                         ([GetConfig; Fetch url init],
                          inl (HalapiError (js "Response body is not readable") None)))
                  \/ (exists source, ok response = true /\ body response = Some source
                      /\ chatStream_request options =
                         ([GetConfig; Fetch url init; GetReader],
                          inr (identifiers (headers response), source))))))).
Proof.
  unfold chatStream_request, resolveConfig, fetch, handleErrorResponse, await, perform,
    throw, ret, bind.
  destruct getConfig as [e | config] eqn:Hc.
  { left. exists e. split; [reflexivity | left; reflexivity]. }
  destruct (isConfigValid config) eqn:Hv; cbn [negb].
  2:{ left. eexists. split; [reflexivity | right]. exists config. repeat split. exact Hv. }
  right. exists config, (getApiUrl config (js "/api/halap/chat/stream")).
  match goal with
  | |- context [fetchFn ?u ?i] =>
      exists i; destruct (fetchFn u i) as [e | response] eqn:Hf
  end; (split; [reflexivity |]); (split; [exact Hv |]); (split; [reflexivity |]);
    (split; [reflexivity |]).
  { left. exists e. split; reflexivity. }
  right. exists response. split; [reflexivity |].
  destruct (ok response) eqn:Hok; cbn [negb].
  - destruct (body response) as [source |] eqn:Hb.
    + right. right. exists source. repeat split.
    + right. left. repeat split.
  - left. split; [reflexivity |]. eexists. reflexivity.
Qed.

(** ** The stream as a text *)

Lemma last_split_no_separator sep s : ~ In sep (last (String_split sep s) []).
Proof.
  induction s as [| c s IH]; [intros [] |].
  cbn [String_split]. pose proof (String_split_nonempty sep s) as Hne.
  destruct (Z.eqb_spec c sep) as [-> | Hc].
  - destruct (String_split sep s) as [| l ls]; [contradiction |]. exact IH.
  - destruct (String_split sep s) as [| l ls]; [contradiction |].
    destruct ls as [| l' ls'].
    + cbn [last] in *. intros [H | H]; [congruence | exact (IH H)].
    + exact IH.
Qed.

(** The events of a body that delivers chunks are those of the text the
    chunks decode to: where the chunks are cut does not matter. *)
Lemma pending_stream_text chunks :
  forall decoder buffer,
  ~ In LF buffer ->
  pending_stream (map ReadValue chunks) decoder buffer =
  events_of_text (buffer ++ decode_chunks decoder chunks).
Proof.
  unfold events_of_text.
  induction chunks as [| value chunks IH]; intros decoder buffer Hbuf.
  - cbn [map pending_stream decode_chunks]. rewrite app_nil_r.
    rewrite String_split_no_separator by exact Hbuf. reflexivity.
  - cbn [map pending_stream decode_chunks].
    destruct (TextDecoder_decode decoder value) as [decoder' decoded].
    rewrite IH by apply last_split_no_separator.
    rewrite app_assoc, (String_split_app LF (buffer ++ decoded)).
    rewrite removelast_app by apply String_split_nonempty.
    rewrite flat_map_app. reflexivity.
Qed.

Lemma outcome_chunks result chunks :
  outcome result (map ReadValue chunks) = Finished (Some result).
Proof. induction chunks as [| value chunks IH]; [reflexivity | exact IH]. Qed.

Lemma not_In_app (x : Z) a b : ~ In x a -> ~ In x b -> ~ In x (a ++ b).
Proof. pure. intros Ha Hb H. apply in_app_or in H. tauto. Qed.

Lemma LF_not_in_DATA_PREFIX : ~ In LF DATA_PREFIX.
Proof. unfold LF, DATA_PREFIX. cbn [In]. lia. Qed.

(** The complete lines of a sequence of records, whatever unfinished line
    follows them, are the records without their newlines. *)
Lemma split_records payloads tail :
  Forall single_line payloads -> ~ In LF tail ->
  removelast (String_split LF (flat_map record payloads ++ tail)) =
  map (app DATA_PREFIX) payloads.
Proof.
  intros Hp Htail. induction Hp as [| payload payloads [_ Hline] _ IH].
  - cbn [flat_map map app]. rewrite String_split_no_separator by exact Htail. reflexivity.
  - cbn [flat_map map]. unfold record at 1.
    replace (((DATA_PREFIX ++ payload ++ [LF]) ++ flat_map record payloads) ++ tail)
      with ((DATA_PREFIX ++ payload) ++ LF :: (flat_map record payloads ++ tail))
      by (rewrite <- !app_assoc; reflexivity).
    rewrite String_split_line
      by (apply not_In_app; [apply LF_not_in_DATA_PREFIX | exact Hline]).
    pose proof (String_split_nonempty LF (flat_map record payloads ++ tail)) as Hne.
    destruct (String_split LF (flat_map record payloads ++ tail)) as [| l ls] eqn:E;
      [contradiction |].
    change (removelast ((DATA_PREFIX ++ payload) :: l :: ls))
      with ((DATA_PREFIX ++ payload) :: removelast (l :: ls)).
    rewrite IH. reflexivity.
Qed.

Lemma events_of_records payloads tail :
  Forall single_line payloads -> ~ In LF tail ->
  events_of_text (flat_map record payloads ++ tail) = flat_map parsed payloads.
Proof.
  intros Hp Htail. unfold events_of_text. rewrite split_records by assumption.
  clear. induction payloads as [| payload payloads IH]; [reflexivity |].
  cbn [map flat_map]. rewrite IH. reflexivity.
Qed.

Lemma well_formed_records payloads tail :
  Forall single_line payloads -> Utf8.well_formed tail = true ->
  Utf8.well_formed (flat_map record payloads ++ tail) = true.
Proof.
  intros Hp Htail. induction Hp as [| payload payloads [Hwf _] _ IH]; [exact Htail |].
  cbn [flat_map]. unfold record at 1. rewrite <- !app_assoc.
  apply well_formed_app; [reflexivity |].
  apply well_formed_app; [exact Hwf |].
  apply well_formed_app; [reflexivity | exact IH].
Qed.

(** A text of records, with or without an unfinished record after them,
    does not begin with a byte order mark. *)
Lemma records_no_BOM payloads tail :
  (tail = [] \/ exists t, tail = DATA_PREFIX ++ t) ->
  hd 0 (flat_map record payloads ++ tail) <> 0xFEFF.
Proof.
  intros Htail. destruct payloads as [| payload payloads].
  - destruct Htail as [-> | [t ->]]; cbn; lia.
  - cbn. lia.
Qed.

Lemma chatStream_request_serves options response source :
  serves response -> ok response = true -> body response = Some source ->
  exists url init,
    chatStream_request options =
    ([GetConfig; Fetch url init; GetReader], inr (identifiers (headers response), source)).
Proof.
  intros [(config & Hc & Hv) Hf] Hok Hb.
  destruct (chatStream_request_cases options)
    as [(e & _ & [He | (c & Hc' & Hv' & _)]) |
        (config' & url & init & Hc' & _ & _ & _ & Hcases)].
  - congruence.
  - congruence.
  - exists url, init. destruct Hcases as [(e & He & _) | (response' & Hr & Hcs)].
    + rewrite Hf in He. discriminate.
    + rewrite Hf in Hr. injection Hr as <-.
      destruct Hcs as [(Hok' & _) | [(_ & Hb' & _) | (source' & _ & Hb' & Hreq)]].
      * congruence.
      * congruence.
      * rewrite Hb in Hb'. injection Hb' as <-. exact Hreq.
Qed.

(** A body that delivers, in any chunks, the UTF-8 bytes of a text: the
    consumer gets the events of the text in order, the first [n] of them if
    it leaves after [n]. *)
Lemma entering_text result chunks text n :
  Utf8.well_formed text = true -> hd 0 text <> 0xFEFF ->
  List.concat chunks = TextEncoder_encode text ->
  let r := for_await n (entering result (map ReadValue chunks)) in
  yielded r = firstn n (events_of_text text)
  /\ completion r =
       (if (n <=? List.length (events_of_text text))%nat
        then Abandoned else Finished (Some result))
  /\ final r = Completed
  /\ forall p, probe p -> count p (effects r) = if p ReleaseLock then 1%nat else 0%nat.
Proof.
  intros Hwf Hbom Hchunks.
  pose proof (for_await_suspended n result (map ReadValue chunks) new_TextDecoder [] [])
    as H.
  cbv zeta in H. fold (entering result (map ReadValue chunks)) in H.
  assert (Hp : pending (entering result (map ReadValue chunks)) = events_of_text text).
  { unfold entering. cbn [pending flat_map app].
    rewrite pending_stream_text by (intros []).
    cbn [app]. rewrite decode_chunks_concat, Hchunks, decode_encode by assumption.
    reflexivity. }
  assert (He : ending (entering result (map ReadValue chunks)) = Finished (Some result)).
  { unfold entering. cbn [ending]. apply outcome_chunks. }
  rewrite Hp, He in H. exact H.
Qed.

Lemma chatStream_text options hs chunks text n :
  Utf8.well_formed text = true -> hd 0 text <> 0xFEFF ->
  List.concat chunks = TextEncoder_encode text ->
  serves (streaming_response hs chunks) ->
  let r := for_await n (chatStream options) in
  yielded r = firstn n (events_of_text text)
  /\ completion r =
       (if (n <=? List.length (events_of_text text))%nat
        then Abandoned else Finished (Some (identifiers hs)))
  /\ final r = Completed.
Proof.
  intros Hwf Hbom Hchunks Hserves. destruct n as [| n]; [repeat split |].
  destruct (chatStream_request_serves options _ _ Hserves eq_refl eq_refl)
    as (url & init & Hreq).
  cbn [streaming_response headers] in Hreq.
  destruct (for_await_start n options _ _ _ Hreq) as (H1 & H2 & H3 & _).
  destruct (entering_text (identifiers hs) chunks text (S n) Hwf Hbom Hchunks)
    as (E1 & E2 & E3 & _).
  cbv zeta. rewrite H1, H2, H3. repeat split; assumption.
Qed.

(** The same for a text of records, whether or not an unfinished record
    follows them. *)
Lemma chatStream_records options hs chunks payloads tail n :
  Forall single_line payloads ->
  Utf8.well_formed tail = true -> ~ In LF tail ->
  (tail = [] \/ exists t, tail = DATA_PREFIX ++ t) ->
  List.concat chunks = TextEncoder_encode (flat_map record payloads ++ tail) ->
  serves (streaming_response hs chunks) ->
  let r := for_await n (chatStream options) in
  yielded r = firstn n (flat_map parsed payloads)
  /\ completion r =
       (if (n <=? List.length (flat_map parsed payloads))%nat
        then Abandoned else Finished (Some (identifiers hs)))
  /\ final r = Completed.
Proof.
  intros Hp Hwf Hlf Htail Hchunks Hserves.
  pose proof (chatStream_text options hs chunks _ n
                (well_formed_records _ _ Hp Hwf) (records_no_BOM payloads _ Htail)
                Hchunks Hserves) as H.
  rewrite events_of_records in H by assumption. exact H.
Qed.

Lemma parsed_records (records : list (jsstring * SSEEvent)) :
  (forall json event, In (json, event) records -> JSON_parse json = inr event) ->
  flat_map parsed (map fst records) = map snd records.
Proof.
  induction records as [| [json event] records IH]; intros H; [reflexivity |].
  cbn [map flat_map fst snd]. unfold parsed at 1.
  rewrite (H json event) by (left; reflexivity). cbn [app].
  rewrite IH; [reflexivity |]. intros j e Hin. apply H. right. exact Hin.
Qed.

Lemma flat_map_record_fst (records : list (jsstring * SSEEvent)) :
  flat_map (fun r => record (fst r)) records = flat_map record (map fst records).
Proof. rewrite flat_map_concat_map, flat_map_concat_map, map_map. reflexivity. Qed.

Lemma single_line_records (records : list (jsstring * SSEEvent)) :
  (forall json event, In (json, event) records -> single_line json) ->
  Forall single_line (map fst records).
Proof.
  intros H. apply Forall_forall. intros json Hin.
  apply in_map_iff in Hin. destruct Hin as ([j e] & <- & Hin). exact (H j e Hin).
Qed.

Lemma leb_false_lt n m : (m < n)%nat -> (n <=? m)%nat = false.
Proof. intros H. apply Nat.leb_gt. exact H. Qed.

(** ** The claims on the decoder *)

(** C1.  A body made only of well-formed records [data: {json}\n], in
    whatever chunks it arrives, gives exactly one event per record, in the
    order of the records: a consumer that leaves after [n] events has the
    first [n], one that stays has them all and the stream ends normally. *)
Theorem C1_one_event_per_record
  (records : list (jsstring * SSEEvent)) (chunks : list bytes)
  (hs : list (jsstring * jsstring)) (options : ChatStreamOptions) (n : nat) :
  (forall json event, In (json, event) records ->
     single_line json /\ JSON_parse json = inr event) ->
  List.concat chunks = TextEncoder_encode (flat_map (fun r => record (fst r)) records) ->
  serves (streaming_response hs chunks) ->
  yielded (for_await n (chatStream options)) = firstn n (map snd records)
  /\ ((List.length records < n)%nat ->
      yielded (for_await n (chatStream options)) = map snd records
      /\ completion (for_await n (chatStream options)) = Finished (Some (identifiers hs))).
Proof.
  intros Hrec Hchunks Hserves.
  rewrite flat_map_record_fst, <- (app_nil_r (flat_map record _)) in Hchunks.
  destruct (chatStream_records options hs chunks (map fst records) [] n)
    as (H1 & H2 & _); try assumption.
  - apply single_line_records. intros j e Hin. apply (Hrec j e Hin).
  - reflexivity.
  - intros [].
  - left. reflexivity.
  - rewrite parsed_records in H1, H2 by (intros j e Hin; apply (Hrec j e Hin)).
    split; [exact H1 |]. intros Hn. rewrite H1, H2.
    rewrite firstn_all2 by (rewrite length_map; lia).
    rewrite leb_false_lt by (rewrite length_map; exact Hn). split; reflexivity.
Qed.

(** C3.  A well-formed record cut anywhere into two chunks, in the middle
    of the line or of a UTF-8 sequence, gives the one event that the record
    gives when it arrives whole. *)
Theorem C3_record_split_in_two_chunks
  (json : jsstring) (event : SSEEvent) (chunk1 chunk2 : bytes)
  (result : ChatStreamResult) (n : nat) :
  single_line json -> JSON_parse json = inr event ->
  chunk1 ++ chunk2 = TextEncoder_encode (record json) ->
  (1 <= n)%nat ->
  yielded (for_await n (entering result [ReadValue chunk1; ReadValue chunk2])) = [event]
  /\ yielded (for_await n (entering result [ReadValue (chunk1 ++ chunk2)])) = [event].
Proof.
  intros Hline Hparse Hsplit Hn.
  assert (Hrec : record json = flat_map record [json] ++ [])
    by (cbn [flat_map]; rewrite !app_nil_r; reflexivity).
  assert (Hwf : Utf8.well_formed (record json) = true).
  { rewrite Hrec.
    apply (well_formed_records [json] []); [constructor; [exact Hline | constructor] |].
    reflexivity. }
  assert (Hbom : hd 0 (record json) <> 0xFEFF) by (cbn; lia).
  assert (Hev : events_of_text (record json) = [event]).
  { rewrite Hrec.
    rewrite (events_of_records [json] []);
      [| constructor; [exact Hline | constructor] | intros []].
    cbn [flat_map]. unfold parsed. rewrite Hparse. reflexivity. }
  assert (Hfirst : firstn n [event] = [event]) by (apply firstn_all2; simpl; lia).
  split.
  - destruct (entering_text result [chunk1; chunk2] (record json) n Hwf Hbom) as (H & _).
    + cbn [List.concat]. rewrite app_nil_r. exact Hsplit.
    + cbn [map] in H. rewrite H, Hev. exact Hfirst.
  - destruct (entering_text result [chunk1 ++ chunk2] (record json) n Hwf Hbom) as (H & _).
    + cbn [List.concat]. rewrite app_nil_r. exact Hsplit.
    + cbn [map] in H. rewrite H, Hev. exact Hfirst.
Qed.

(** C4.  When the body ends on a record that has no newline after it, that
    record is never yielded: the events are those of the records before it,
    as if it were not there, the generator is completed after them, and the
    stream ends normally. *)
Theorem C4_unterminated_final_record_dropped
  (payloads : list jsstring) (final_json : jsstring) (chunks : list bytes)
  (hs : list (jsstring * jsstring)) (options : ChatStreamOptions) (n : nat) :
  Forall single_line payloads -> single_line final_json ->
  List.concat chunks =
    TextEncoder_encode (flat_map record payloads ++ DATA_PREFIX ++ final_json) ->
  serves (streaming_response hs chunks) ->
  let events := flat_map parsed payloads in
  yielded (for_await n (chatStream options)) = firstn n events
  /\ final (for_await n (chatStream options)) = Completed
  /\ ((List.length events < n)%nat ->
      yielded (for_await n (chatStream options)) = events
      /\ completion (for_await n (chatStream options)) = Finished (Some (identifiers hs))).
Proof.
  intros Hp [Hwf Hlf] Hchunks Hserves events.
  destruct (chatStream_records options hs chunks payloads (DATA_PREFIX ++ final_json) n)
    as (H1 & H2 & H3); try assumption.
  - apply not_In_app; [apply LF_not_in_DATA_PREFIX | exact Hlf].
  - right. exists final_json. reflexivity.
  - fold events in H1, H2. split; [exact H1 |]. split; [exact H3 |].
    intros Hn. rewrite H1, H2.
    rewrite firstn_all2 by lia. rewrite leb_false_lt by exact Hn. split; reflexivity.
Qed.

Lemma outcome_Finished result source value :
  outcome result source = Finished value -> value = Some result.
Proof.
  induction source as [| [chunk | e] source IH]; cbn [outcome]; intros H.
  - injection H as <-. reflexivity.
  - exact (IH H).
  - discriminate.
Qed.

Lemma Headers_get_absent hs name :
  (forall k v, In (k, v) hs ->
     jsstring_eqb (map ascii_lower k) (map ascii_lower name) = false) ->
  Headers_get hs name = None.
Proof.
  intros H. unfold Headers_get.
  replace (filter _ hs) with ([] : list (jsstring * jsstring)); [reflexivity |].
  symmetry. induction hs as [| [k v] hs IH]; [reflexivity |].
  cbn [filter fst]. rewrite (H k v) by (left; reflexivity).
  apply IH. intros k' v' Hin. apply (H k' v'). right. exact Hin.
Qed.

(** C5.  A call that ends normally resolves to the two identifiers read
    from the headers of the response it was given, [null] for a header that
    is absent; with the headers [X-Conversation-Id: c9], [X-Message-Id: m9]
    and an empty body the result is [c9], [m9] and no event is yielded. *)
Theorem C5_result_from_headers (options : ChatStreamOptions) (n : nat) :
  (forall value, completion (for_await n (chatStream options)) = Finished value ->
     exists url init response,
       In (Fetch url init) (effects (for_await n (chatStream options)))
       /\ fetchFn url init = inr response
       /\ value = Some {| result_conversationId :=
                            Headers_get (headers response) (js "X-Conversation-Id");
                          result_messageId :=
                            Headers_get (headers response) (js "X-Message-Id") |})
  /\ (forall hs name,
        (forall k v, In (k, v) hs ->
           jsstring_eqb (map ascii_lower k) (map ascii_lower name) = false) ->
        Headers_get hs name = None)
  /\ (serves (streaming_response [(js "X-Conversation-Id", js "c9");
                                  (js "X-Message-Id", js "m9")] []) ->
      (1 <= n)%nat ->
      yielded (for_await n (chatStream options)) = []
      /\ completion (for_await n (chatStream options)) =
         Finished (Some {| result_conversationId := Some (js "c9");
                           result_messageId := Some (js "m9") |})).
Proof.
  split; [| split].
  - intros value Hfin. destruct n as [| n]; [discriminate |].
    destruct (chatStream_request_cases options)
      as [(e & Hreq & _) |
          (config & url & init & _ & _ & _ & _ &
           [(e & _ & Hreq) |
            (response & Hf &
             [(_ & message & Hreq) | [(_ & _ & Hreq) | (source & _ & _ & Hreq)]])])];
      try (rewrite (for_await_failed n options _ _ Hreq) in Hfin; discriminate).
    destruct (for_await_start n options _ _ _ Hreq) as (_ & H2 & _ & H4).
    exists url, init, response. split; [| split].
    + rewrite H4. apply in_or_app. left. right. left. reflexivity.
    + exact Hf.
    + rewrite H2 in Hfin.
      destruct (for_await_suspended (S n) (identifiers (headers response)) source
                  new_TextDecoder [] []) as (_ & Hc & _).
      fold (entering (identifiers (headers response)) source) in Hc.
      rewrite Hc in Hfin. destruct (_ <=? _)%nat; [discriminate |].
      cbn [entering ending] in Hfin. apply outcome_Finished in Hfin. exact Hfin.
  - apply Headers_get_absent.
  - intros Hserves Hn.
    destruct (chatStream_text options
                [(js "X-Conversation-Id", js "c9"); (js "X-Message-Id", js "m9")]
                [] [] n eq_refl) as (H1 & H2 & _);
      [cbn; lia | reflexivity | exact Hserves |].
    rewrite H1, H2. cbn [events_of_text String_split removelast flat_map List.length].
    rewrite firstn_nil. rewrite leb_false_lt by exact Hn. split; reflexivity.
Qed.

(** C6, as the code has it.  An event written as the line [data: ], its
    JSON text and a newline, and sent as the UTF-8 bytes of that line, comes
    back as what [JSON.parse] makes of the text that [JSON.stringify] wrote:
    as that one event when [JSON.parse] reads the text back as the event,
    and only then.  The text is, as [JSON.stringify] writes it, well formed
    and on one line. *)
Theorem C6_decode_after_encode
  (event : SSEEvent) (hs : list (jsstring * jsstring))
  (options : ChatStreamOptions) (n : nat) :
  single_line (JSON_stringify event) ->
  serves (streaming_response hs
            [TextEncoder_encode (DATA_PREFIX ++ JSON_stringify event ++ [LF])]) ->
  (1 <= n)%nat ->
  yielded (for_await n (chatStream options)) = parsed (JSON_stringify event)
  /\ (JSON_parse (JSON_stringify event) = inr event ->
      yielded (for_await n (chatStream options)) = [event])
  /\ (yielded (for_await n (chatStream options)) = [event] ->
      JSON_parse (JSON_stringify event) = inr event).
Proof.
  intros Hline Hserves Hn.
  assert (H : yielded (for_await n (chatStream options)) = parsed (JSON_stringify event)).
  { destruct (chatStream_records options hs
                [TextEncoder_encode (DATA_PREFIX ++ JSON_stringify event ++ [LF])]
                [JSON_stringify event] [] n)
      as (H1 & _); try assumption.
    - constructor; [exact Hline | constructor].
    - reflexivity.
    - intros [].
    - left. reflexivity.
    - cbn [List.concat flat_map]. rewrite !app_nil_r. reflexivity.
    - rewrite H1. cbn [flat_map]. rewrite app_nil_r. apply firstn_all2.
      unfold parsed. destruct (JSON_parse (JSON_stringify event)); simpl; lia. }
  split; [exact H |]. rewrite H. unfold parsed. split.
  - intros Hparse. rewrite Hparse. reflexivity.
  - destruct (JSON_parse (JSON_stringify event)) as [m | event'].
    + discriminate.
    + intros Hev. injection Hev as ->. reflexivity.
Qed.

(** ** The reader lock *)

Lemma firstn_length_le (A : Type) (n : nat) (l : list A) :
  (List.length (firstn n l) <= n)%nat.
Proof. rewrite length_firstn. lia. Qed.

Lemma count_zero_not_In p (log : list Effect) e :
  count p log = 0%nat -> p e = true -> ~ In e log.
Proof.
  intros Hc Hp Hin. induction log as [| x log IH]; [exact Hin |].
  rewrite count_cons in Hc. destruct Hin as [-> | Hin].
  - rewrite Hp in Hc. discriminate.
  - apply IH; [lia | exact Hin].
Qed.

(** C9.  Once the reader is taken, the lock is released exactly once
    however the loop over the stream ends: at the end of the body, on a read
    that rejects, or when the consumer leaves after [n] events.  A call
    that fails before it has a reader releases nothing.  After any of
    these the generator is completed: a further [next()] gives no event and
    a further [return()] releases nothing. *)
Theorem C9_reader_lock_released_once (options : ChatStreamOptions) (n : nat) :
  (forall result source,
     let r := for_await n (entering result source) in
     count is_ReleaseLock (effects r) = 1%nat
     /\ completion r =
          (if (n <=? List.length (pending (entering result source)))%nat
           then Abandoned else outcome result source)
     /\ yielded r = firstn n (pending (entering result source))
     /\ final r = Completed)
  /\ (let r := for_await n (chatStream options) in
      count is_ReleaseLock (effects r) = count is_GetReader (effects r)
      /\ (count is_GetReader (effects r) <= 1)%nat
      /\ (List.length (yielded r) <= n)%nat
      /\ final r = Completed)
  /\ Generator_next Completed = ([], Returned None, Completed)
  /\ Generator_return Completed = ([], Completed).
Proof.
  split; [| split; [| split; reflexivity]].
  - intros result source.
    destruct (for_await_suspended n result source new_TextDecoder [] [])
      as (H1 & H2 & H3 & H4).
    fold (entering result source) in H1, H2, H3, H4. cbv zeta.
    repeat split; try assumption. apply (H4 is_ReleaseLock probe_ReleaseLock).
  - cbv zeta. destruct n as [| n]; [cbn; repeat split; lia |].
    destruct (chatStream_request_cases options)
      as [(e & Hreq & _) |
          (config & url & init & _ & _ & _ & _ &
           [(e & _ & Hreq) |
            (response & Hf &
             [(_ & message & Hreq) | [(_ & _ & Hreq) | (source & _ & _ & Hreq)]])])];
      try (rewrite (for_await_failed n options _ _ Hreq);
           cbn [effects yielded final List.length]; repeat split; cbn; lia).
    destruct (for_await_start n options _ _ _ Hreq) as (H1 & _ & H3 & H4).
    destruct (for_await_suspended (S n) (identifiers (headers response)) source
                new_TextDecoder [] []) as (E1 & _ & E3 & E4).
    fold (entering (identifiers (headers response)) source) in E1, E3, E4.
    rewrite H1, H3, H4, E1, E3, !count_app.
    rewrite (E4 is_ReleaseLock probe_ReleaseLock), (E4 is_GetReader probe_GetReader).
    repeat split; try (cbn; lia). apply firstn_length_le.
Qed.

(** ** The request *)

Lemma Fetch_of_request options n url init :
  In (Fetch url init) (effects (for_await n (chatStream options))) ->
  In (Fetch url init) (fst (chatStream_request options)).
Proof.
  destruct n as [| n]; [intros [] |].
  destruct (chatStream_request options) as [log [e | [result source]]] eqn:Hreq.
  - rewrite (for_await_failed n options _ _ Hreq). intros H. exact H.
  - destruct (for_await_start n options _ _ _ Hreq) as (_ & _ & _ & H4).
    rewrite H4. intros Hin. apply in_app_or in Hin. destruct Hin as [Hin | Hin].
    + exact Hin.
    + exfalso. revert Hin. apply (count_zero_not_In is_Fetch); [| reflexivity].
      destruct (for_await_suspended (S n) result source new_TextDecoder [] [])
        as (_ & _ & _ & E4).
      apply (E4 is_Fetch probe_Fetch).
Qed.

Lemma Fetch_body options url init :
  In (Fetch url init) (fst (chatStream_request options)) ->
  body_externalUserId init =
  Some (match externalUserId options with Some id => id | None => js "sdk-user" end).
Proof.
  unfold body_externalUserId.
  destruct (chatStream_request_cases options)
    as [(e & Hreq & _) |
        (config & url' & init' & _ & _ & _ & Hbody &
         [(e & _ & Hreq) |
          (response & Hf &
           [(_ & message & Hreq) | [(_ & _ & Hreq) | (source & _ & _ & Hreq)]])])];
    rewrite Hreq; cbn [fst In]; intros Hin;
    repeat match goal with
    | H : _ \/ _ |- _ => destruct H
    | H : False |- _ => destruct H
    | H : _ = Fetch _ _ |- _ => inversion H; subst; clear H
    end; try discriminate; rewrite Hbody; reflexivity.
Qed.

(** C10.  Every request [chatStream] sends carries ['sdk-user'] as
    [externalUserId] when the option is omitted and the given value when it
    is provided; and the request is sent, by a call that is started with a
    configuration that has a token. *)
Theorem C10_default_externalUserId (options : ChatStreamOptions) (n : nat) :
  (forall url init,
     In (Fetch url init) (effects (for_await n (chatStream options))) ->
     (externalUserId options = None -> body_externalUserId init = Some (js "sdk-user"))
     /\ (forall id, externalUserId options = Some id ->
           body_externalUserId init = Some id))
  /\ ((exists config, getConfig = inr config /\ isConfigValid config = true) ->
      (1 <= n)%nat ->
      exists url init, In (Fetch url init) (effects (for_await n (chatStream options)))).
Proof.
  split.
  - intros url init Hin.
    pose proof (Fetch_body options url init (Fetch_of_request options n url init Hin)) as H.
    split.
    + intros Hnone. rewrite Hnone in H. exact H.
    + intros id Hsome. rewrite Hsome in H. exact H.
  - intros (config & Hc & Hv) Hn. destruct n as [| n]; [lia |].
    destruct (chatStream_request_cases options)
      as [(e & _ & [He | (c & Hc' & Hv' & _)]) |
          (config' & url & init & _ & _ & _ & _ &
           [(e & _ & Hreq) |
            (response & Hf &
             [(_ & message & Hreq) | [(_ & _ & Hreq) | (source & _ & _ & Hreq)]])])];
      try congruence; exists url, init;
      try (rewrite (for_await_failed n options _ _ Hreq); right; left; reflexivity).
    destruct (for_await_start n options _ _ _ Hreq) as (_ & _ & _ & H4).
    rewrite H4. right. left. reflexivity.
Qed.

(** ** The accessors and the errors *)

(** C7.  [getBookPresentations] fails with a [HalapiError] before it does
    anything else, so without a request, for an empty list and for a list
    of more than 100; for a list of 1 to 100 the validation passes, the
    call goes on to resolve the configuration, and with a configuration
    that has a token it sends the request with the list as its body. *)
Theorem C7_isbn_list_bounds (isbn13s : list jsstring) :
  ((List.length isbn13s = 0 \/ 100 < List.length isbn13s)%nat ->
     exists message,
       getBookPresentations (Some isbn13s) = ([], inl (HalapiError message None)))
  /\ ((1 <= List.length isbn13s <= 100)%nat ->
      (exists log outcome,
         getBookPresentations (Some isbn13s) = (GetConfig :: log, outcome))
      /\ (forall config, getConfig = inr config -> isConfigValid config = true ->
            exists outcome,
              getBookPresentations (Some isbn13s) =
              ([GetConfig;
                Fetch (getApiUrl config (js "/api/halap/books/presentations"))
                  {| init_method := Some (js "POST");
                     init_headers := getAuthHeaders config
                                     ++ [(js "Content-Type", js "application/json")];
                     init_body := Some (IsbnBody isbn13s);
                     init_signal := None |}],
               outcome))).
Proof.
  unfold getBookPresentations, resolveConfig, fetch, handleErrorResponse, lift, await,
    perform, throw, ret, bind.
  split.
  - intros [H0 | H100].
    + rewrite H0. cbn [Nat.eqb]. eexists. reflexivity.
    + destruct (Nat.eqb_spec (List.length isbn13s) 0) as [E | E]; [lia |].
      replace (100 <? List.length isbn13s)%nat with true
        by (symmetry; apply Nat.ltb_lt; exact H100).
      eexists. reflexivity.
  - intros [H1 H100].
    destruct (Nat.eqb_spec (List.length isbn13s) 0) as [E | E]; [lia |].
    replace (100 <? List.length isbn13s)%nat with false
      by (symmetry; apply Nat.ltb_ge; exact H100).
    split.
    + destruct getConfig as [e | config]; [do 2 eexists; reflexivity |].
      destruct (isConfigValid config); cbn [negb]; [| do 2 eexists; reflexivity].
      match goal with
      | |- context [fetchFn ?u ?i] => destruct (fetchFn u i) as [e | response]
      end; [do 2 eexists; reflexivity |].
      destruct (ok response); cbn [negb]; [| do 2 eexists; reflexivity].
      destruct (Response_json response); do 2 eexists; reflexivity.
    + intros config Hc Hv. rewrite Hc, Hv. cbn [negb].
      match goal with
      | |- context [fetchFn ?u ?i] => destruct (fetchFn u i) as [e | response]
      end; [eexists; reflexivity |].
      destruct (ok response); cbn [negb]; [| eexists; reflexivity].
      destruct (Response_json response); eexists; reflexivity.
Qed.

Lemma outcome_Failed result source e :
  outcome result source = Failed e -> In (ReadRejects e) source.
Proof.
  induction source as [| [chunk | e'] source IH]; cbn [outcome]; intros H.
  - discriminate.
  - right. exact (IH H).
  - injection H as ->. left. reflexivity.
Qed.

Ltac run_accessor H :=
  unfold getConversations, getConversation, getBookArtifacts, getMusicArtifacts,
    getBookPresentations, resolveConfig, fetch, handleErrorResponse, lift, await,
    perform, throw, ret, bind in H;
  cbv beta iota in H; cbn [snd negb] in H;
  repeat (match type of H with
          | context [match ?x with _ => _ end] =>
              lazymatch x with
              | context [match _ with _ => _ end] => fail
              | _ => destruct x eqn:?
              end
          end; cbv beta iota in H; cbn [snd negb] in H);
  try discriminate; try (injection H as <-).

Ltac blame_environment :=
  first
    [ left; first [assumption | reflexivity]
    | right; left; do 2 eexists; eassumption
    | right; right; do 3 eexists; split; [eassumption |]; left; assumption
    | right; right; do 3 eexists; split; [eassumption |]; right; left; assumption ].

Lemma accessor_errors :
  (forall isbn13s e, snd (getBookPresentations isbn13s) = inl e ->
     instanceof_HalapiError e = true \/ from_environment e)
  /\ (forall messageId e, snd (getBookArtifacts messageId) = inl e ->
        instanceof_HalapiError e = true \/ from_environment e)
  /\ (forall messageId e, snd (getMusicArtifacts messageId) = inl e ->
        instanceof_HalapiError e = true \/ from_environment e).
Proof.
  unfold from_environment. repeat split; intros x e H; run_accessor H;
    first [left; reflexivity | right; blame_environment].
Qed.

Lemma conversations_errors :
  (forall externalUserId limit e,
     snd (getConversations externalUserId limit) = inl e ->
     instanceof_HalapiError e = true \/ from_environment e \/ unparseable_body)
  /\ (forall conversationId e, snd (getConversation conversationId) = inl e ->
        instanceof_HalapiError e = true \/ from_environment e \/ unparseable_body).
Proof.
  unfold from_environment, unparseable_body.
  split; [intros x y e H | intros x e H]; run_accessor H;
    first [ left; reflexivity
          | right; left; blame_environment
          | right; right; do 5 eexists; repeat split; eassumption ].
Qed.

Lemma chatStream_errors options n e :
  completion (for_await n (chatStream options)) = Failed e ->
  instanceof_HalapiError e = true \/ from_environment e.
Proof.
  intros Hfail. destruct n as [| n]; [discriminate |]. unfold from_environment.
  destruct (chatStream_request_cases options)
    as [(e' & Hreq & [He | (c & _ & _ & He)]) |
        (config & url & init & _ & _ & _ & _ &
         [(e' & Hf & Hreq) |
          (response & Hf &
           [(_ & message & Hreq) | [(_ & _ & Hreq) | (source & _ & Hb & Hreq)]])])];
    try (rewrite (for_await_failed n options _ _ Hreq) in Hfail;
         injection Hfail as <-).
  - right. left. exact He.
  - left. rewrite He. reflexivity.
  - right. right. left. exists url, init. exact Hf.
  - left. reflexivity.
  - left. reflexivity.
  - destruct (for_await_start n options _ _ _ Hreq) as (_ & H2 & _).
    rewrite H2 in Hfail.
    destruct (for_await_suspended (S n) (identifiers (headers response)) source
                new_TextDecoder [] []) as (_ & Hc & _).
    fold (entering (identifiers (headers response)) source) in Hc.
    rewrite Hc in Hfail. destruct (_ <=? _)%nat; [discriminate |].
    cbn [entering ending] in Hfail. apply outcome_Failed in Hfail.
    right. right. right. exists url, init, response. split; [exact Hf |].
    right. right. exists source. split; assumption.
Qed.

(** ** The configuration and the requests *)

Ltac unfold_client :=
  unfold getConversations, getConversation, getBookArtifacts, getMusicArtifacts,
    getBookPresentations, chatStream_request, resolveConfig, fetch, handleErrorResponse,
    lift, await, perform, throw, ret, bind.

Ltac run_cases :=
  cbv beta iota; cbn [fst snd negb];
  repeat (match goal with
          | |- context [match ?x with _ => _ end] =>
              lazymatch x with
              | context [match _ with _ => _ end] => fail
              | _ => destruct x eqn:?
              end
          end; cbv beta iota; cbn [fst snd negb]).

Ltac run_cases_in H :=
  cbv beta iota in H; cbn [fst snd negb] in H;
  repeat (match type of H with
          | context [match ?x with _ => _ end] =>
              lazymatch x with
              | context [match _ with _ => _ end] => fail
              | _ => destruct x eqn:?
              end
          end; cbv beta iota in H; cbn [fst snd negb] in H).

Lemma accepted_checks isbn13s :
  accepted isbn13s ->
  Nat.eqb (List.length isbn13s) 0 = false /\ Nat.ltb 100 (List.length isbn13s) = false.
Proof.
  pure. intros [H1 H100]. split; [apply Nat.eqb_neq; lia | apply Nat.ltb_ge; exact H100].
Qed.

(** X1.  With a configuration whose token is empty every operation of the
    client fails with the [HalapiError] "API token not configured", without
    a status code, after it has asked for the configuration and done
    nothing else: no request is sent, and [chatStream] yields no event. *)
Theorem X1_missing_token_sends_nothing (config : HalapiConfig) :
  getConfig = inr config -> isConfigValid config = false ->
  let e := HalapiError (js "API token not configured") None in
  (forall options n,
     for_await (S n) (chatStream options) =
     {| yielded := []; effects := [GetConfig]; completion := Failed e;
        final := Completed |})
  /\ (forall externalUserId limit,
        getConversations externalUserId limit = ([GetConfig], inl e))
  /\ (forall conversationId, getConversation conversationId = ([GetConfig], inl e))
  /\ (forall messageId, getBookArtifacts messageId = ([GetConfig], inl e))
  /\ (forall messageId, getMusicArtifacts messageId = ([GetConfig], inl e))
  /\ (forall isbn13s, accepted isbn13s ->
        getBookPresentations (Some isbn13s) = ([GetConfig], inl e)).
Proof.
  intros Hc Hv e. repeat split.
  - intros options n. unfold chatStream. cbn [for_await Generator_next].
    unfold_client. rewrite Hc. cbv beta iota. rewrite Hv. reflexivity.
  - intros u l. unfold_client. rewrite Hc. cbv beta iota. rewrite Hv. reflexivity.
  - intros id. unfold_client. rewrite Hc. cbv beta iota. rewrite Hv. reflexivity.
  - intros id. unfold_client. rewrite Hc. cbv beta iota. rewrite Hv. reflexivity.
  - intros id. unfold_client. rewrite Hc. cbv beta iota. rewrite Hv. reflexivity.
  - intros l Hl. destruct (accepted_checks l Hl) as [H0 H100].
    unfold_client. rewrite H0, H100, Hc. cbv beta iota. rewrite Hv. reflexivity.
Qed.

(** The requests of a run of [chatStream] are those of the statements
    before its [try] block: the loop sends none. *)
Lemma chatStream_fetches options n :
  (count is_Fetch (effects (for_await n (chatStream options))) <=
   count is_Fetch (fst (chatStream_request options)))%nat.
Proof.
  destruct n as [| n]; [cbn; lia |].
  destruct (chatStream_request options) as [log [e | [result source]]] eqn:Hreq.
  - rewrite (for_await_failed n options _ _ Hreq). cbn [effects fst]. lia.
  - destruct (for_await_start n options _ _ _ Hreq) as (_ & _ & _ & H4).
    rewrite H4, count_app.
    destruct (for_await_suspended (S n) result source new_TextDecoder [] [])
      as (_ & _ & _ & E4).
    fold (entering result source) in E4.
    rewrite (E4 is_Fetch probe_Fetch). cbn [fst is_Fetch]. lia.
Qed.

(** X2.  No operation sends more than one request, however it ends: there
    is no retry, and the loop of [chatStream] over the body sends none. *)
Theorem X2_at_most_one_request :
  (forall options n,
     (count is_Fetch (effects (for_await n (chatStream options))) <= 1)%nat)
  /\ (forall externalUserId limit,
        (count is_Fetch (fst (getConversations externalUserId limit)) <= 1)%nat)
  /\ (forall conversationId,
        (count is_Fetch (fst (getConversation conversationId)) <= 1)%nat)
  /\ (forall messageId, (count is_Fetch (fst (getBookArtifacts messageId)) <= 1)%nat)
  /\ (forall messageId, (count is_Fetch (fst (getMusicArtifacts messageId)) <= 1)%nat)
  /\ (forall isbn13s, (count is_Fetch (fst (getBookPresentations isbn13s)) <= 1)%nat).
Proof.
  split.
  { intros options n. etransitivity; [apply chatStream_fetches |].
    unfold_client. run_cases; cbn; lia. }
  repeat split; intros; unfold_client; run_cases; cbn; lia.
Qed.

Ltac request_sent H :=
  cbn [In app] in H;
  repeat match type of H with
         | _ \/ _ => destruct H as [H | H]
         end;
  try discriminate H; try contradiction;
  injection H as <- <-.

Ltac show_authorized :=
  unfold authorized, getApiUrl, getAuthHeaders, GET;
  do 2 eexists; split; [eassumption |];
  split; [first [eassumption | apply negb_false_iff; eassumption] |];
  split; [reflexivity |]; cbn [init_headers app In]; left; reflexivity.

(** X3.  Every request that an operation sends goes to a URL that begins
    with the [apiUrl] of the configuration and carries the header
    [Authorization: Bearer <apiToken>], for a configuration whose token is
    not empty: nothing is sent without the token. *)
Theorem X3_every_request_authorized (url : jsstring) (init : RequestInit) :
  (forall options n,
     In (Fetch url init) (effects (for_await n (chatStream options))) ->
     authorized url init)
  /\ (forall externalUserId limit,
        In (Fetch url init) (fst (getConversations externalUserId limit)) ->
        authorized url init)
  /\ (forall conversationId,
        In (Fetch url init) (fst (getConversation conversationId)) -> authorized url init)
  /\ (forall messageId,
        In (Fetch url init) (fst (getBookArtifacts messageId)) -> authorized url init)
  /\ (forall messageId,
        In (Fetch url init) (fst (getMusicArtifacts messageId)) -> authorized url init)
  /\ (forall isbn13s,
        In (Fetch url init) (fst (getBookPresentations isbn13s)) -> authorized url init).
Proof.
  split.
  { intros options n Hin. apply Fetch_of_request in Hin. revert Hin.
    unfold_client. intros Hin. run_cases_in Hin; request_sent Hin; show_authorized. }
  repeat split; intros *; unfold_client; intros Hin;
    run_cases_in Hin; request_sent Hin; show_authorized.
Qed.

(** ** Responses that are not the expected one *)

Lemma handleErrorResponse_detail (A : Type) response context :
  handleErrorResponse A response context =
  ([], inl (HalapiError (context ++ js ": " ++ error_detail response)
                        (Some (status response)))).
Proof.
  unfold handleErrorResponse, error_detail, throw.
  destruct (Response_json response) as [e | errorData]; [reflexivity |].
  destruct (error_message errorData); reflexivity.
Qed.

Ltac served Hserves :=
  let config := fresh "config" in
  let Hc := fresh "Hc" in
  let Hv := fresh "Hv" in
  let Hf := fresh "Hf" in
  destruct Hserves as [(config & Hc & Hv) Hf];
  unfold getConversations, getConversation, getBookArtifacts, getMusicArtifacts,
    getBookPresentations, chatStream_request, resolveConfig, fetch, lift, await,
    perform, ret, bind;
  rewrite Hc; cbv beta iota; rewrite Hv; cbn [negb]; rewrite Hf; cbv beta iota.

(** X4.  A response whose [ok] is false makes every operation fail with a
    [HalapiError] that carries the status of the response and whose message
    is the context of the operation, a colon, and the [error.message] of the
    body where the body is JSON that has one, ["HTTP <status>"] otherwise.
    [chatStream] then yields no event and neither takes a reader nor reads. *)
Theorem X4_http_error_status (response : Response) :
  serves response -> ok response = false ->
  let failure context :=
    HalapiError (context ++ js ": " ++ error_detail response) (Some (status response)) in
  (forall options n,
     let r := for_await (S n) (chatStream options) in
     yielded r = [] /\ completion r = Failed (failure (js "Chat stream failed"))
     /\ count is_GetReader (effects r) = 0%nat /\ count is_Read (effects r) = 0%nat)
  /\ (forall externalUserId limit,
        snd (getConversations externalUserId limit) =
        inl (failure (js "Failed to fetch conversations")))
  /\ (forall conversationId,
        snd (getConversation conversationId) =
        inl (failure (js "Failed to fetch conversation")))
  /\ (forall messageId,
        snd (getBookArtifacts messageId) =
        inl (failure (js "Failed to fetch book artifacts")))
  /\ (forall messageId,
        snd (getMusicArtifacts messageId) =
        inl (failure (js "Failed to fetch music artifacts")))
  /\ (forall isbn13s, accepted isbn13s ->
        snd (getBookPresentations (Some isbn13s)) =
        inl (failure (js "Failed to fetch book presentations")))
  /\ ((forall errorData, Response_json response = inr errorData ->
         error_message errorData = None) ->
      error_detail response = js "HTTP " ++ String_of_Z (status response))
  /\ (forall errorData m, Response_json response = inr errorData ->
        error_message errorData = Some m -> error_detail response = m).
Proof.
  intros Hserves Hok failure. split; [| split; [| split; [| split; [| split; [| split]]]]].
  - intros options n.
    assert (Hreq : exists url init,
               chatStream_request options =
               ([GetConfig; Fetch url init], inl (failure (js "Chat stream failed")))).
    { served Hserves. rewrite Hok. cbn [negb]. rewrite handleErrorResponse_detail.
      do 2 eexists. reflexivity. }
    destruct Hreq as (url & init & Hreq). cbv zeta.
    rewrite (for_await_failed n options _ _ Hreq). repeat split.
  - intros u l. served Hserves. rewrite Hok. cbn [negb].
    rewrite handleErrorResponse_detail. reflexivity.
  - intros id. served Hserves. rewrite Hok. cbn [negb].
    rewrite handleErrorResponse_detail. reflexivity.
  - intros id. served Hserves. rewrite Hok. cbn [negb].
    rewrite handleErrorResponse_detail. reflexivity.
  - intros id. served Hserves. rewrite Hok. cbn [negb].
    rewrite handleErrorResponse_detail. reflexivity.
  - intros l Hl. destruct (accepted_checks l Hl) as [H0 H100].
    unfold getBookPresentations, throw, ret, bind. rewrite H0, H100. cbv beta iota.
    served Hserves. rewrite Hok. cbn [negb].
    rewrite handleErrorResponse_detail. reflexivity.
  - split.
    + intros Hnone. unfold error_detail.
      destruct (Response_json response) as [e | errorData]; [reflexivity |].
      rewrite (Hnone errorData eq_refl). reflexivity.
    + intros errorData m Hjson Hm. unfold error_detail. rewrite Hjson, Hm. reflexivity.
Qed.

(** X5.  A successful response that has no body makes [chatStream] fail
    with the [HalapiError] "Response body is not readable", without a status
    code: no event is yielded, and no reader is taken, read or released. *)
Theorem X5_body_not_readable (response : Response) :
  serves response -> ok response = true -> body response = None ->
  forall options n,
    let r := for_await (S n) (chatStream options) in
    yielded r = []
    /\ completion r = Failed (HalapiError (js "Response body is not readable") None)
    /\ (exists url init, effects r = [GetConfig; Fetch url init])
    /\ final r = Completed.
Proof.
  intros Hserves Hok Hbody options n.
  assert (Hreq : exists url init,
             chatStream_request options =
             ([GetConfig; Fetch url init],
              inl (HalapiError (js "Response body is not readable") None))).
  { served Hserves. rewrite Hok, Hbody. cbn [negb]. do 2 eexists. reflexivity. }
  destruct Hreq as (url & init & Hreq). cbv zeta.
  rewrite (for_await_failed n options _ _ Hreq). repeat split.
  exists url, init. reflexivity.
Qed.

Lemma trim_start_white s : forallb is_white_space s = true -> trim_start s = [].
Proof.
  pure. induction s as [| c s IH]; [reflexivity |].
  cbn [forallb trim_start]. intros H. apply andb_true_iff in H. destruct H as [Hc Hs].
  rewrite Hc. exact (IH Hs).
Qed.

Lemma String_trim_white s : forallb is_white_space s = true -> String_trim s = [].
Proof.
  pure. intros H. unfold String_trim. rewrite (trim_start_white s H). reflexivity.
Qed.

Lemma trim_start_black s :
  existsb (fun c => negb (is_white_space c)) s = true -> trim_start s <> [].
Proof.
  pure. induction s as [| c s IH]; [discriminate |].
  cbn [existsb trim_start]. destruct (is_white_space c); cbn [negb orb].
  - exact IH.
  - intros _. discriminate.
Qed.

Lemma trim_start_suffix s : exists blank, s = blank ++ trim_start s.
Proof.
  pure. induction s as [| c s [blank IH]]; [exists []; reflexivity |].
  cbn [trim_start]. destruct (is_white_space c).
  - exists (c :: blank). cbn [app]. rewrite <- IH. reflexivity.
  - exists []. reflexivity.
Qed.

Lemma trim_start_head s : forall c t, trim_start s = c :: t -> is_white_space c = false.
Proof.
  pure. induction s as [| d s IH]; intros c t; [discriminate |].
  cbn [trim_start]. destruct (is_white_space d) eqn:E.
  - apply IH.
  - intros H. injection H as <- _. exact E.
Qed.

Lemma String_trim_black s :
  existsb (fun c => negb (is_white_space c)) s = true -> String_trim s <> [].
Proof.
  pure. intros H. unfold String_trim.
  pose proof (trim_start_black s H) as Hne.
  destruct (trim_start s) as [| c t] eqn:E; [contradiction |].
  pose proof (trim_start_head s c t E) as Hc.
  intros Hnil. apply (f_equal (@rev Z)) in Hnil. rewrite rev_involutive in Hnil.
  change (rev []) with (@nil Z) in Hnil. revert Hnil. apply trim_start_black.
  apply existsb_exists. exists c. split.
  - apply -> in_rev. left. reflexivity.
  - rewrite Hc. reflexivity.
Qed.

Lemma jsstring_eqb_nil s : jsstring_eqb s [] = true <-> s = [].
Proof.
  pure. destruct s as [| c s]; split; intros H; try reflexivity; discriminate.
Qed.

(** X6.  For a successful response [getConversations] resolves to the empty
    list it builds itself, stamped with the current time, when the body is
    empty or holds white space only, and [JSON.parse] is not asked; any
    other body is handed to [JSON.parse] whole, and gives its value, or a
    plain [Error] whose message ends with that of the parser. *)
Theorem X6_getConversations_blank_body
  (response : Response) (txt : jsstring)
  (externalUserId : option jsstring) (limit : option Z) :
  serves response -> ok response = true -> text response = inr txt ->
  (forallb is_white_space txt = true ->
     exists url init,
       getConversations externalUserId limit =
       ([GetConfig; Fetch url init], inr (NoConversations Date_toISOString)))
  /\ (existsb (fun c => negb (is_white_space c)) txt = true ->
      snd (getConversations externalUserId limit) =
      match JSON_parse txt with
      | inr v => inr (ParsedConversations v)
      | inl m => inl (Error (js "Invalid JSON response from API: " ++ m))
      end).
Proof.
  intros Hserves Hok Htxt. split.
  - intros Hblank. served Hserves. rewrite Hok, Htxt. cbn [negb]. cbv beta iota.
    replace (match txt with [] => true | _ :: _ => jsstring_eqb (String_trim txt) [] end)
      with true.
    + do 2 eexists. reflexivity.
    + destruct txt; [reflexivity |]. rewrite (String_trim_white _ Hblank). reflexivity.
  - intros Hblack. served Hserves. rewrite Hok, Htxt. cbn [negb]. cbv beta iota.
    replace (match txt with [] => true | _ :: _ => jsstring_eqb (String_trim txt) [] end)
      with false.
    + destruct (JSON_parse txt); reflexivity.
    + destruct txt as [| c t]; [discriminate |]. symmetry.
      pose proof (String_trim_black _ Hblack) as Hne.
      destruct (jsstring_eqb (String_trim (c :: t)) []) eqn:E; [| reflexivity].
      apply jsstring_eqb_nil in E. contradiction.
Qed.

(** X7.  A successful response whose body is not JSON: [getConversation]
    logs the first 200 code units of the body, at most, on the console and
    throws a plain [Error], even for an empty body; the three operations
    that read the body with [response.json()] let the [SyntaxError] of the
    platform through and log nothing. *)
Theorem X7_unparseable_body
  (response : Response) (txt message : jsstring) :
  serves response -> ok response = true -> text response = inr txt ->
  JSON_parse txt = inl message ->
  (forall conversationId,
     exists url init excerpt,
       getConversation conversationId =
       ([GetConfig; Fetch url init;
         ConsoleError (js "Failed to parse conversation response:") excerpt],
        inl (Error (js "Invalid JSON response from API: " ++ message)))
       /\ excerpt = firstn 200 txt /\ (List.length excerpt <= 200)%nat)
  /\ (forall messageId,
        exists url init,
          getBookArtifacts messageId =
          ([GetConfig; Fetch url init], inl (Exception (js "SyntaxError"))))
  /\ (forall messageId,
        exists url init,
          getMusicArtifacts messageId =
          ([GetConfig; Fetch url init], inl (Exception (js "SyntaxError"))))
  /\ (forall isbn13s, accepted isbn13s ->
        exists url init,
          getBookPresentations (Some isbn13s) =
          ([GetConfig; Fetch url init], inl (Exception (js "SyntaxError")))).
Proof.
  intros Hserves Hok Htxt Hparse. repeat split.
  - intros id. served Hserves. rewrite Hok, Htxt. cbn [negb]. cbv beta iota.
    rewrite Hparse. do 3 eexists. split; [reflexivity |]. split; [reflexivity |].
    apply firstn_length_le.
  - intros id. served Hserves. rewrite Hok. cbn [negb]. cbv beta iota.
    unfold Response_json. rewrite Htxt, Hparse. do 2 eexists. reflexivity.
  - intros id. served Hserves. rewrite Hok. cbn [negb]. cbv beta iota.
    unfold Response_json. rewrite Htxt, Hparse. do 2 eexists. reflexivity.
  - intros l Hl. destruct (accepted_checks l Hl) as [H0 H100].
    unfold getBookPresentations, throw, ret, bind. rewrite H0, H100. cbv beta iota.
    served Hserves. rewrite Hok. cbn [negb]. cbv beta iota.
    unfold Response_json. rewrite Htxt, Hparse. do 2 eexists. reflexivity.
Qed.

(** ** The reader *)

Lemma pending_stream_delivered source :
  forall decoder buffer,
  ~ In LF buffer ->
  pending_stream source decoder buffer =
  events_of_text (buffer ++ decode_chunks decoder (delivered source)).
Proof.
  unfold events_of_text.
  induction source as [| [value | e] source IH]; intros decoder buffer Hbuf.
  - cbn [delivered pending_stream decode_chunks]. rewrite app_nil_r.
    rewrite String_split_no_separator by exact Hbuf. reflexivity.
  - cbn [delivered pending_stream decode_chunks].
    destruct (TextDecoder_decode decoder value) as [decoder' decoded].
    rewrite IH by apply last_split_no_separator.
    rewrite app_assoc, (String_split_app LF (buffer ++ decoded)).
    rewrite removelast_app by apply String_split_nonempty.
    rewrite flat_map_app. reflexivity.
  - cbn [delivered pending_stream decode_chunks]. rewrite app_nil_r.
    rewrite String_split_no_separator by exact Hbuf. reflexivity.
Qed.

(** The events of a reader are those of the text that the chunks it
    delivers decode to, taken together. *)
Lemma pending_entering result source :
  pending (entering result source) =
  events_of_text
    (snd (TextDecoder_decode new_TextDecoder (List.concat (delivered source)))).
Proof.
  unfold entering. cbn [pending flat_map app].
  rewrite pending_stream_delivered by (intros []).
  cbn [app]. rewrite decode_chunks_concat. reflexivity.
Qed.

Lemma delivered_chunks chunks tail :
  (tail = [] \/ exists e rest, tail = ReadRejects e :: rest) ->
  delivered (map ReadValue chunks ++ tail) = chunks.
Proof.
  pure. intros Htail. induction chunks as [| value chunks IH].
  - destruct Htail as [-> | (e & rest & ->)]; reflexivity.
  - cbn [map app delivered]. rewrite IH. reflexivity.
Qed.

Lemma delivered_all chunks : delivered (map ReadValue chunks) = chunks.
Proof.
  rewrite <- (app_nil_r (map ReadValue chunks)). apply delivered_chunks. left. reflexivity.
Qed.

Lemma outcome_rejected result chunks e rest :
  outcome result (map ReadValue chunks ++ ReadRejects e :: rest) = Failed e.
Proof. induction chunks as [| value chunks IH]; [reflexivity | exact IH]. Qed.

Lemma reads_delivered source : reads source = S (List.length (delivered source)).
Proof.
  pure. induction source as [| [value | e] source IH]; [reflexivity | | reflexivity].
  cbn [reads delivered List.length]. rewrite IH. reflexivity.
Qed.

(** A run of [chatStream] on a response that has a body is the request,
    then the run of the loop over the body. *)
Lemma chatStream_entering options response source n :
  serves response -> ok response = true -> body response = Some source ->
  let r := for_await (S n) (chatStream options) in
  let r' := for_await (S n) (entering (identifiers (headers response)) source) in
  yielded r = yielded r' /\ completion r = completion r' /\ final r = final r'
  /\ exists url init, effects r = [GetConfig; Fetch url init; GetReader] ++ effects r'.
Proof.
  intros Hserves Hok Hbody.
  destruct (chatStream_request_serves options _ _ Hserves Hok Hbody)
    as (url & init & Hreq).
  destruct (for_await_start n options _ _ _ Hreq) as (H1 & H2 & H3 & H4).
  cbv zeta. repeat split; try assumption. exists url, init. exact H4.
Qed.

(** The run of the loop over a reader: the events of the text that the
    chunks it delivers decode to, and the end the reader has. *)
Lemma entering_delivered result source n :
  let events :=
    events_of_text
      (snd (TextDecoder_decode new_TextDecoder (List.concat (delivered source)))) in
  yielded (for_await n (entering result source)) = firstn n events
  /\ completion (for_await n (entering result source)) =
     (if (n <=? List.length events)%nat then Abandoned else outcome result source).
Proof.
  destruct (for_await_suspended n result source new_TextDecoder [] []) as (H1 & H2 & _).
  fold (entering result source) in H1, H2. rewrite pending_entering in H1, H2.
  cbv zeta. split; [exact H1 | exact H2].
Qed.

(** X9.  When a read of the body rejects, the consumer has had the events
    of the lines that the chunks before it completed, in order, and then
    gets the rejection itself as the error of the stream; what the reader
    would have answered after the rejection plays no part. *)
Theorem X9_rejected_read_ends_stream
  (response : Response) (chunks : list bytes) (e : JsError) (rest : list ReadResult)
  (options : ChatStreamOptions) (n : nat) :
  serves response -> ok response = true ->
  body response = Some (map ReadValue chunks ++ ReadRejects e :: rest) ->
  let events :=
    events_of_text (snd (TextDecoder_decode new_TextDecoder (List.concat chunks))) in
  yielded (for_await n (chatStream options)) = firstn n events
  /\ ((List.length events < n)%nat ->
      completion (for_await n (chatStream options)) = Failed e
      /\ final (for_await n (chatStream options)) = Completed).
Proof.
  intros Hserves Hok Hbody events. destruct n as [| n]; [split; [reflexivity | lia] |].
  destruct (chatStream_entering options response _ n Hserves Hok Hbody)
    as (H1 & H2 & H3 & _).
  destruct (for_await_suspended (S n) (identifiers (headers response))
              (map ReadValue chunks ++ ReadRejects e :: rest) new_TextDecoder [] [])
    as (E1 & E2 & E3 & _).
  fold (entering (identifiers (headers response))
          (map ReadValue chunks ++ ReadRejects e :: rest)) in E1, E2, E3.
  rewrite pending_entering, delivered_chunks in E1, E2 by (right; do 2 eexists; reflexivity).
  fold events in E1, E2.
  rewrite H1, H2, H3, E1, E2, E3. split; [reflexivity |].
  intros Hn. rewrite leb_false_lt by exact Hn.
  unfold entering. cbn [ending]. rewrite outcome_rejected. split; reflexivity.
Qed.

Lemma is_Read_warnings (log : list Effect) :
  Forall (fun e => exists line, e = ConsoleWarn line) log -> count is_Read log = 0%nat.
Proof. apply count_warnings. reflexivity. Qed.

(** The reads of one turn of the loop and those that remain are those the
    reader had to answer. *)
Lemma while_read_reads result source :
  forall decoder buffer,
  let '(log, r, frame) := while_read result source decoder buffer in
  (count is_Read log + pending_reads frame)%nat = reads source.
Proof.
  induction source as [| [value | e] source IH]; intros decoder buffer.
  - reflexivity.
  - cbn [while_read reads].
    destruct (TextDecoder_decode decoder value) as [decoder' decoded].
    destruct (Array_pop (String_split LF (buffer ++ decoded))) as [popped lines].
    destruct (for_lines_spec lines) as [_ Hlog]. apply is_Read_warnings in Hlog.
    destruct (for_lines lines) as [log [[event rest'] |]]; cbn [fst] in Hlog.
    + rewrite count_cons, Hlog. reflexivity.
    + match goal with
      | |- context [while_read result source decoder' ?b] =>
          specialize (IH decoder' b); destruct (while_read result source decoder' b)
            as [[log' r] frame]
      end.
      rewrite count_cons, count_app, Hlog. cbn [is_Read]. rewrite <- IH. reflexivity.
  - reflexivity.
Qed.

(** A consumer makes no more reads than the reader has to answer, and all
    of them when it stays to the end. *)
Lemma for_await_reads n :
  forall result source decoder buffer lines,
  let g := SuspendedYield result source decoder buffer lines in
  (count is_Read (effects (for_await n g)) <= reads source)%nat
  /\ ((List.length (pending g) < n)%nat ->
      count is_Read (effects (for_await n g)) = reads source).
Proof.
  induction n as [| n IH]; intros result source decoder buffer lines; cbv zeta.
  - cbn [for_await Generator_return effects]. split; [cbn; lia | lia].
  - cbn [for_await Generator_next].
    destruct (for_lines_spec lines) as [Hev Hlog].
    pose proof (is_Read_warnings _ Hlog) as Hquiet.
    destruct (for_lines lines) as [log [[event rest] |]]; cbn [fst] in *.
    + destruct (IH result source decoder buffer rest) as [H1 H2].
      cbn [effects pending] in *. rewrite count_app, Hquiet, Hev.
      split; [exact H1 |]. intros Hn. apply H2. cbn [app List.length] in Hn. lia.
    + pose proof (while_read_spec result source decoder buffer) as Hw.
      pose proof (while_read_reads result source decoder buffer) as Hr.
      destruct (while_read result source decoder buffer) as [[log' res] frame].
      destruct res as [event | value | e].
      * destruct Hw as (Hw1 & _ & (source' & decoder' & buffer' & rest & ->) & _).
        destruct (IH result source' decoder' buffer' rest) as [H1 H2].
        cbn [effects pending pending_reads] in *.
        rewrite !count_app, Hquiet, Hev, Hw1. split; [lia |].
        intros Hn. cbn [app List.length] in Hn. rewrite H2 by lia. lia.
      * destruct Hw as (_ & _ & _ & -> & _). cbn [effects pending_reads] in *.
        rewrite count_app, Hquiet. split; [lia |]. intros _. lia.
      * destruct Hw as (_ & _ & -> & _). cbn [effects pending_reads] in *.
        rewrite count_app, Hquiet. split; [lia |]. intros _. lia.
Qed.

(** While the lines at hand hold the events the consumer takes, nothing is
    read. *)
Lemma for_await_no_read n :
  forall result source decoder buffer lines,
  (n <= List.length (flat_map event_of_line lines))%nat ->
  count is_Read
    (effects (for_await n (SuspendedYield result source decoder buffer lines))) = 0%nat.
Proof.
  induction n as [| n IH]; intros result source decoder buffer lines Hn.
  - reflexivity.
  - cbn [for_await Generator_next].
    destruct (for_lines_spec lines) as [Hev Hlog].
    pose proof (is_Read_warnings _ Hlog) as Hquiet.
    destruct (for_lines lines) as [log [[event rest] |]]; cbn [fst] in *.
    + cbn [effects]. rewrite count_app, Hquiet. apply IH.
      rewrite Hev in Hn. cbn [List.length] in Hn. lia.
    + rewrite Hev in Hn. cbn [List.length] in Hn. lia.
Qed.

Lemma count_request p url init :
  p GetConfig = false -> p (Fetch url init) = false -> p GetReader = false ->
  forall log, count p ([GetConfig; Fetch url init; GetReader] ++ log) = count p log.
Proof.
  intros H1 H2 H3 log. cbn [app]. rewrite !count_cons, H1, H2, H3. reflexivity.
Qed.

(** X10.  [chatStream] never reads more often than the reader has to
    answer, one read for each chunk up to the first rejection and the read
    that rejects or says that the body is done: it reads nothing after
    that, and a consumer that stays to the end makes all these reads. *)
Theorem X10_reads_bounded
  (response : Response) (source : list ReadResult)
  (options : ChatStreamOptions) (n : nat) :
  serves response -> ok response = true -> body response = Some source ->
  let r := for_await n (chatStream options) in
  (count is_Read (effects r) <= reads source)%nat
  /\ reads source = S (List.length (delivered source))
  /\ ((List.length (yielded r) < n)%nat -> count is_Read (effects r) = reads source).
Proof.
  intros Hserves Hok Hbody. cbv zeta.
  split; [| split; [apply reads_delivered |]];
    (destruct n as [| n]; [cbn; lia |]);
    destruct (chatStream_entering options response _ n Hserves Hok Hbody)
      as (H1 & _ & _ & url & init & H4);
    destruct (for_await_reads (S n) (identifiers (headers response)) source
                new_TextDecoder [] []) as [R1 R2];
    fold (entering (identifiers (headers response)) source) in R1, R2;
    rewrite H4, count_request by reflexivity.
  - exact R1.
  - intros Hn. apply R2. rewrite H1 in Hn.
    destruct (for_await_suspended (S n) (identifiers (headers response)) source
                new_TextDecoder [] []) as (E1 & _).
    fold (entering (identifiers (headers response)) source) in E1.
    rewrite E1, length_firstn in Hn. lia.
Qed.

(** X11.  The body is read on demand: when the first chunk alone completes
    the lines of the [n] events after which the consumer leaves, that chunk
    is the only one read, whatever the reader holds after it. *)
Theorem X11_reads_on_demand
  (response : Response) (value : bytes) (source : list ReadResult)
  (options : ChatStreamOptions) (n : nat) :
  serves response -> ok response = true ->
  body response = Some (ReadValue value :: source) ->
  (1 <= n <= List.length
              (events_of_text (snd (TextDecoder_decode new_TextDecoder value))))%nat ->
  count is_Read (effects (for_await n (chatStream options))) = 1%nat
  /\ completion (for_await n (chatStream options)) = Abandoned.
Proof.
  intros Hserves Hok Hbody [H1n Hn]. destruct n as [| n]; [lia |].
  destruct (chatStream_entering options response _ n Hserves Hok Hbody)
    as (_ & H2 & _ & url & init & H4).
  rewrite H2, H4, count_request by reflexivity. split.
  - unfold entering, events_of_text in *. cbn [for_await Generator_next for_lines while_read].
    destruct (TextDecoder_decode new_TextDecoder value) as [decoder' decoded].
    cbn [snd app] in *.
    rewrite (Array_pop_last jsstring _ ([] : jsstring)) by apply String_split_nonempty.
    destruct (for_lines_spec (removelast (String_split LF decoded))) as [Hev Hlog].
    apply is_Read_warnings in Hlog.
    destruct (for_lines (removelast (String_split LF decoded)))
      as [log [[event rest] |]]; cbn [fst] in *.
    + cbn [effects app]. rewrite count_cons, count_app, Hlog.
      rewrite for_await_no_read; [reflexivity |].
      rewrite Hev in Hn. cbn [List.length] in Hn. lia.
    + rewrite Hev in Hn. cbn [List.length] in Hn. lia.
  - destruct (for_await_suspended (S n) (identifiers (headers response))
                (ReadValue value :: source) new_TextDecoder [] []) as (_ & E2 & _).
    fold (entering (identifiers (headers response)) (ReadValue value :: source)) in E2.
    rewrite E2. replace (S n <=? _)%nat with true; [reflexivity |].
    symmetry. apply Nat.leb_le. etransitivity; [exact Hn |].
    unfold entering. cbn [pending flat_map app pending_stream].
    unfold events_of_text.
    destruct (TextDecoder_decode new_TextDecoder value) as [decoder' decoded].
    cbn [snd app]. rewrite length_app. lia.
Qed.

(** ** The warnings *)

Lemma warnings_app a b : warnings (a ++ b) = warnings a ++ warnings b.
Proof. apply filter_app. Qed.

Lemma warnings_only (log : list Effect) :
  Forall (fun e => exists line, e = ConsoleWarn line) log -> warnings log = log.
Proof.
  induction 1 as [| e log [line ->] _ IH]; [reflexivity |].
  unfold warnings in *. cbn [filter is_ConsoleWarn]. rewrite IH. reflexivity.
Qed.

(** The [for] loop warns about the lines it passes that are to be warned
    about, and about no other. *)
Lemma for_lines_warnings lines :
  match for_lines lines with
  | (log, Some (event, rest)) =>
      flat_map warning_of_line lines = log ++ flat_map warning_of_line rest
  | (log, None) => flat_map warning_of_line lines = log
  end.
Proof.
  induction lines as [| line rest IH]; [reflexivity |].
  unfold warning_of_line, warned, parses in *. cbn [for_lines flat_map].
  destruct (String_startsWith line DATA_PREFIX); cbn [andb].
  - destruct (JSON_parse (String_slice 6 line)) as [m | event]; cbn [negb app].
    + destruct (for_lines rest) as [log [[event rest'] |]]; cbn [app];
        rewrite IH; reflexivity.
    + reflexivity.
  - exact IH.
Qed.

Lemma while_read_warnings result source :
  forall decoder buffer,
  let '(log, r, frame) := while_read result source decoder buffer in
  warnings log ++ pending_warnings frame = pending_stream_warnings source decoder buffer.
Proof.
  induction source as [| [value | e] source IH]; intros decoder buffer.
  - reflexivity.
  - cbn [while_read pending_stream_warnings].
    destruct (TextDecoder_decode decoder value) as [decoder' decoded].
    rewrite (Array_pop_last jsstring _ ([] : jsstring)) by apply String_split_nonempty.
    set (lines := String_split LF (buffer ++ decoded)).
    destruct (for_lines_spec (removelast lines)) as [_ Hlog].
    apply warnings_only in Hlog.
    pose proof (for_lines_warnings (removelast lines)) as Hw.
    destruct (for_lines (removelast lines)) as [log [[event rest] |]]; cbn [fst] in *.
    + cbn [pending_warnings]. change (Read :: log) with ([Read] ++ log).
      rewrite warnings_app, Hlog, Hw. cbn [warnings filter is_ConsoleWarn app].
      rewrite <- app_assoc. reflexivity.
    + specialize (IH decoder' (last lines [])).
      destruct (while_read result source decoder' (last lines [])) as [[log' r] frame].
      change (Read :: log ++ log') with ([Read] ++ log ++ log').
      rewrite !warnings_app, Hlog, Hw, <- IH. cbn [warnings filter is_ConsoleWarn app].
      rewrite <- app_assoc. reflexivity.
  - reflexivity.
Qed.

(** A consumer that stays to the end has had all the warnings logged. *)
Lemma for_await_warnings n :
  forall result source decoder buffer lines,
  let g := SuspendedYield result source decoder buffer lines in
  (List.length (pending g) < n)%nat ->
  warnings (effects (for_await n g)) = pending_warnings g.
Proof.
  induction n as [| n IH]; intros result source decoder buffer lines; cbv zeta;
    [intros H; lia |].
  cbn [for_await Generator_next].
  destruct (for_lines_spec lines) as [Hev Hlog]. apply warnings_only in Hlog.
  pose proof (for_lines_warnings lines) as Hwl.
  destruct (for_lines lines) as [log [[event rest] |]]; cbn [fst] in *.
  - cbn [effects pending pending_warnings]. rewrite Hev. intros Hn.
    rewrite warnings_app, Hlog, Hwl, <- app_assoc. f_equal.
    apply (IH result source decoder buffer rest). cbn [pending].
    cbn [app List.length] in Hn. lia.
  - pose proof (while_read_spec result source decoder buffer) as Hw.
    pose proof (while_read_warnings result source decoder buffer) as Hww.
    destruct (while_read result source decoder buffer) as [[log' res] frame].
    cbn [pending pending_warnings]. rewrite Hev, Hwl. cbn [app].
    destruct res as [event | value | e].
    + destruct Hw as (Hw1 & _ & (source' & decoder' & buffer' & rest & ->) & _).
      cbn [effects]. intros Hn. rewrite Hw1 in Hn. cbn [List.length] in Hn.
      rewrite !warnings_app, Hlog, <- Hww, <- app_assoc. do 2 f_equal.
      apply (IH result source' decoder' buffer' rest). lia.
    + destruct Hw as (_ & _ & _ & -> & _). cbn [effects]. intros _.
      rewrite warnings_app, Hlog, <- Hww. cbn [pending_warnings].
      rewrite app_nil_r. reflexivity.
    + destruct Hw as (_ & _ & -> & _). cbn [effects]. intros _.
      rewrite warnings_app, Hlog, <- Hww. cbn [pending_warnings].
      rewrite app_nil_r. reflexivity.
Qed.

Lemma pending_stream_warnings_delivered source :
  forall decoder buffer,
  ~ In LF buffer ->
  pending_stream_warnings source decoder buffer =
  flat_map warning_of_line
    (removelast (String_split LF (buffer ++ decode_chunks decoder (delivered source)))).
Proof.
  induction source as [| [value | e] source IH]; intros decoder buffer Hbuf.
  - cbn [delivered pending_stream_warnings decode_chunks]. rewrite app_nil_r.
    rewrite String_split_no_separator by exact Hbuf. reflexivity.
  - cbn [delivered pending_stream_warnings decode_chunks].
    destruct (TextDecoder_decode decoder value) as [decoder' decoded].
    rewrite IH by apply last_split_no_separator.
    rewrite app_assoc, (String_split_app LF (buffer ++ decoded)).
    rewrite removelast_app by apply String_split_nonempty.
    rewrite flat_map_app. reflexivity.
  - cbn [delivered pending_stream_warnings decode_chunks]. rewrite app_nil_r.
    rewrite String_split_no_separator by exact Hbuf. reflexivity.
Qed.

(** The complete lines of a text of terminated lines are these lines. *)
Lemma split_terminated lines :
  Forall single_line lines ->
  removelast (String_split LF (flat_map terminated lines)) = lines.
Proof.
  intros Hl. induction Hl as [| line lines [_ Hline] _ IH]; [reflexivity |].
  cbn [flat_map]. unfold terminated at 1. rewrite <- app_assoc. cbn [app].
  rewrite String_split_line by exact Hline.
  pose proof (String_split_nonempty LF (flat_map terminated lines)) as Hne.
  destruct (String_split LF (flat_map terminated lines)) as [| l ls] eqn:E;
    [contradiction |].
  change (removelast (line :: l :: ls)) with (line :: removelast (l :: ls)).
  rewrite IH. reflexivity.
Qed.

Lemma well_formed_terminated lines :
  Forall single_line lines -> Utf8.well_formed (flat_map terminated lines) = true.
Proof.
  intros Hl. induction Hl as [| line lines [Hwf _] _ IH]; [reflexivity |].
  cbn [flat_map]. unfold terminated at 1. rewrite <- app_assoc.
  apply well_formed_app; [exact Hwf |]. apply well_formed_app; [reflexivity | exact IH].
Qed.

Lemma events_of_lines lines :
  flat_map event_of_line lines =
  flat_map (fun line => parsed (String_slice 6 line))
           (filter (fun line => String_startsWith line DATA_PREFIX) lines).
Proof.
  induction lines as [| line lines IH]; [reflexivity |].
  cbn [flat_map filter]. unfold event_of_line at 1.
  destruct (String_startsWith line DATA_PREFIX).
  - cbn [flat_map]. rewrite IH. reflexivity.
  - exact IH.
Qed.

Lemma warnings_of_lines lines :
  flat_map warning_of_line lines =
  map ConsoleWarn
      (filter (fun line => negb (parses (String_slice 6 line)))
              (filter (fun line => String_startsWith line DATA_PREFIX) lines)).
Proof.
  induction lines as [| line lines IH]; [reflexivity |].
  cbn [flat_map filter]. unfold warning_of_line at 1, warned.
  destruct (String_startsWith line DATA_PREFIX); cbn [andb].
  - cbn [filter]. destruct (negb (parses (String_slice 6 line))); cbn [map app];
      rewrite IH; reflexivity.
  - exact IH.
Qed.

(** X12.  Of the lines of a stream, each ended by a newline, only those
    that start with [data: ] count: they give their events in order when
    their payload parses and one warning each when it does not, and every
    other line (a comment, another field, an empty line, [data:] without
    the space) gives neither an event nor a warning. *)
Theorem X12_lines_events_and_warnings
  (lines : list jsstring) (chunks : list bytes)
  (hs : list (jsstring * jsstring)) (options : ChatStreamOptions) (n : nat) :
  Forall single_line lines -> hd 0 (flat_map terminated lines) <> 0xFEFF ->
  List.concat chunks = TextEncoder_encode (flat_map terminated lines) ->
  serves (streaming_response hs chunks) ->
  let data := filter (fun line => String_startsWith line DATA_PREFIX) lines in
  let events := flat_map (fun line => parsed (String_slice 6 line)) data in
  yielded (for_await n (chatStream options)) = firstn n events
  /\ ((List.length events < n)%nat ->
      warnings (effects (for_await n (chatStream options))) =
      map ConsoleWarn (filter (fun line => negb (parses (String_slice 6 line))) data)).
Proof.
  intros Hl Hbom Hchunks Hserves data events.
  assert (Htext : snd (TextDecoder_decode new_TextDecoder (List.concat chunks))
                  = flat_map terminated lines).
  { rewrite Hchunks. apply decode_encode; [apply well_formed_terminated |]; assumption. }
  destruct n as [| n]; [split; [reflexivity | lia] |].
  destruct (chatStream_entering options _ _ n Hserves eq_refl eq_refl)
    as (H1 & _ & _ & url & init & H4).
  cbn [streaming_response headers] in H1, H4.
  destruct (for_await_suspended (S n) (identifiers hs) (map ReadValue chunks)
              new_TextDecoder [] []) as (E1 & _).
  pose proof (for_await_warnings (S n) (identifiers hs) (map ReadValue chunks)
                new_TextDecoder [] []) as W.
  cbv zeta in W. fold (entering (identifiers hs) (map ReadValue chunks)) in E1, W.
  rewrite pending_entering, delivered_all, Htext in E1, W.
  unfold events_of_text in E1, W. rewrite split_terminated, events_of_lines in E1, W
    by exact Hl.
  fold data in E1, W. fold events in E1, W.
  split; [rewrite H1; exact E1 |].
  intros Hn. rewrite H4, warnings_app. cbn [warnings filter is_ConsoleWarn app].
  fold (warnings (effects (for_await (S n) (entering (identifiers hs)
                                              (map ReadValue chunks))))).
  rewrite (W Hn). unfold entering. cbn [pending_warnings flat_map app].
  rewrite pending_stream_warnings_delivered by (intros []).
  rewrite delivered_all. cbn [app].
  rewrite decode_chunks_concat, Htext, split_terminated by exact Hl.
  apply warnings_of_lines.
Qed.

(** ** Marks and line ends *)

(** A byte order mark at the head of the stream is dropped by the decoder. *)
Lemma decode_BOM_encode s :
  Utf8.well_formed s = true ->
  snd (TextDecoder_decode new_TextDecoder ([0xEF; 0xBB; 0xBF] ++ TextEncoder_encode s)) = s.
Proof.
  intros Hwf. destruct (code_points_well_formed s Hwf) as (Hsc & Hrt & _).
  unfold TextDecoder_decode, TextEncoder_encode, new_TextDecoder. cbn [utf8 BOM_seen].
  change ([0xEF; 0xBB; 0xBF] ++ flat_map Utf8.encode_code_point (Utf8.code_points s))
    with (flat_map Utf8.encode_code_point (0xFEFF :: Utf8.code_points s)).
  rewrite run_encode by (constructor; [unfold scalar; lia | exact Hsc]).
  cbn [Utf8.serialize negb andb]. rewrite Z.eqb_refl, serialize_seen. exact Hrt.
Qed.

(** X13.  A UTF-8 byte order mark before the first record does not hide
    it: the decoder drops the mark, and the records give their events as
    they do without it. *)
Theorem X13_byte_order_mark_skipped
  (payloads : list jsstring) (chunks : list bytes)
  (hs : list (jsstring * jsstring)) (options : ChatStreamOptions) (n : nat) :
  Forall single_line payloads ->
  List.concat chunks =
    [0xEF; 0xBB; 0xBF] ++ TextEncoder_encode (flat_map record payloads) ->
  serves (streaming_response hs chunks) ->
  yielded (for_await n (chatStream options)) = firstn n (flat_map parsed payloads)
  /\ ((List.length (flat_map parsed payloads) < n)%nat ->
      completion (for_await n (chatStream options)) = Finished (Some (identifiers hs))).
Proof.
  intros Hp Hchunks Hserves. destruct n as [| n]; [split; [reflexivity | lia] |].
  destruct (chatStream_entering options _ _ n Hserves eq_refl eq_refl)
    as (H1 & H2 & _).
  cbn [streaming_response headers] in H1, H2.
  destruct (for_await_suspended (S n) (identifiers hs) (map ReadValue chunks)
              new_TextDecoder [] []) as (E1 & E2 & _).
  fold (entering (identifiers hs) (map ReadValue chunks)) in E1, E2.
  rewrite pending_entering, delivered_all, Hchunks in E1, E2.
  rewrite decode_BOM_encode in E1, E2.
  2, 3: rewrite <- (app_nil_r (flat_map record payloads));
        apply well_formed_records; [exact Hp | reflexivity].
  rewrite <- (app_nil_r (flat_map record payloads)) in E1, E2.
  rewrite events_of_records in E1, E2 by (try exact Hp; intros []).
  rewrite H1, H2, E1, E2. split; [reflexivity |].
  intros Hn. rewrite leb_false_lt by exact Hn.
  unfold entering. cbn [ending]. apply outcome_chunks.
Qed.

Lemma single_line_CR payload : single_line payload -> single_line (payload ++ [13]).
Proof.
  pure. intros [Hwf Hlf]. split.
  - apply well_formed_app; [exact Hwf | reflexivity].
  - apply not_In_app; [exact Hlf |]. unfold LF. cbn [In]. lia.
Qed.

(** X14.  The lines are cut at the newline only: of a record that ends
    with a carriage return and a newline the carriage return stays at the
    end of the payload, and it is [JSON.parse] that is given it. *)
Theorem X14_carriage_return_kept
  (payloads : list jsstring) (chunks : list bytes)
  (hs : list (jsstring * jsstring)) (options : ChatStreamOptions) (n : nat) :
  Forall single_line payloads ->
  List.concat chunks =
    TextEncoder_encode
      (flat_map (fun payload => DATA_PREFIX ++ payload ++ [13; LF]) payloads) ->
  serves (streaming_response hs chunks) ->
  yielded (for_await n (chatStream options)) =
  firstn n (flat_map (fun payload => parsed (payload ++ [13])) payloads).
Proof.
  intros Hp Hchunks Hserves.
  assert (Htext : flat_map (fun payload => DATA_PREFIX ++ payload ++ [13; LF]) payloads
                  = flat_map record (map (fun payload => payload ++ [13]) payloads) ++ []).
  { rewrite app_nil_r. clear. induction payloads as [| payload payloads IH]; [reflexivity |].
    cbn [flat_map map]. rewrite IH. unfold record. rewrite <- !app_assoc. reflexivity. }
  rewrite Htext in Hchunks.
  destruct (chatStream_records options hs chunks
              (map (fun payload => payload ++ [13]) payloads) [] n) as (H1 & _);
    try assumption.
  - clear - Hp. induction Hp as [| payload payloads H _ IH]; constructor;
      [apply single_line_CR; exact H | exact IH].
  - reflexivity.
  - intros [].
  - left. reflexivity.
  - rewrite H1. f_equal. rewrite flat_map_concat_map, map_map, <- flat_map_concat_map.
    reflexivity.
Qed.

(** X15.  A body whose reads all succeed never makes the stream fail,
    whatever bytes it holds, valid UTF-8 or not, records or not: the
    consumer that stays to the end gets the result with the identifiers of
    the headers. *)
Theorem X15_bytes_never_fail
  (chunks : list bytes) (hs : list (jsstring * jsstring))
  (options : ChatStreamOptions) (n : nat) :
  serves (streaming_response hs chunks) ->
  (forall e, completion (for_await n (chatStream options)) <> Failed e)
  /\ ((List.length (yielded (for_await n (chatStream options))) < n)%nat ->
      completion (for_await n (chatStream options)) = Finished (Some (identifiers hs))).
Proof.
  intros Hserves. destruct n as [| n]; [split; [discriminate | lia] |].
  destruct (chatStream_entering options _ _ n Hserves eq_refl eq_refl)
    as (H1 & H2 & _).
  cbn [streaming_response headers] in H1, H2.
  destruct (for_await_suspended (S n) (identifiers hs) (map ReadValue chunks)
              new_TextDecoder [] []) as (E1 & E2 & _).
  fold (entering (identifiers hs) (map ReadValue chunks)) in E1, E2.
  assert (Hend : ending (entering (identifiers hs) (map ReadValue chunks))
                 = Finished (Some (identifiers hs)))
    by (unfold entering; cbn [ending]; apply outcome_chunks).
  rewrite Hend in E2.
  rewrite H1, H2, E1, E2. split.
  - intros e. destruct (_ <=? _)%nat; discriminate.
  - rewrite length_firstn. intros Hn. rewrite leb_false_lt by lia. reflexivity.
Qed.

(** ** The order of the effects *)

Lemma loop_effects_warnings (log : list Effect) :
  Forall (fun e => exists line, e = ConsoleWarn line) log ->
  forallb is_loop_effect log = true.
Proof.
  induction 1 as [| e log [line ->] _ IH]; [reflexivity |].
  cbn [forallb]. rewrite IH. reflexivity.
Qed.

Lemma loop_effects_app (a b : list Effect) :
  forallb is_loop_effect a = true -> forallb is_loop_effect b = true ->
  forallb is_loop_effect (a ++ b) = true.
Proof. intros Ha Hb. rewrite forallb_app, Ha, Hb. reflexivity. Qed.

(** One turn of the loop reads and warns; it releases the lock when it
    ends the generator, as the last thing it does, and not otherwise. *)
Lemma while_read_order result source :
  forall decoder buffer,
  let '(log, r, frame) := while_read result source decoder buffer in
  exists before,
    forallb is_loop_effect before = true
    /\ log = before ++ match frame with Completed => [ReleaseLock] | _ => [] end.
Proof.
  induction source as [| [value | e] source IH]; intros decoder buffer.
  - exists [Read]. split; reflexivity.
  - cbn [while_read].
    destruct (TextDecoder_decode decoder value) as [decoder' decoded].
    destruct (Array_pop (String_split LF (buffer ++ decoded))) as [popped lines].
    destruct (for_lines_spec lines) as [_ Hlog]. apply loop_effects_warnings in Hlog.
    destruct (for_lines lines) as [log [[event rest'] |]]; cbn [fst] in Hlog.
    + exists (Read :: log). split; [exact Hlog | rewrite app_nil_r; reflexivity].
    + match goal with
      | |- context [while_read result source decoder' ?b] =>
          specialize (IH decoder' b); destruct (while_read result source decoder' b)
            as [[log' r] frame]
      end.
      destruct IH as (before & Hb & ->). exists (Read :: log ++ before). split.
      * cbn [forallb is_loop_effect is_Read orb]. apply loop_effects_app; assumption.
      * cbn [app]. rewrite <- app_assoc. reflexivity.
  - exists [Read]. split; reflexivity.
Qed.

Lemma for_await_order n :
  forall result source decoder buffer lines,
  exists before,
    forallb is_loop_effect before = true
    /\ effects (for_await n (SuspendedYield result source decoder buffer lines)) =
       before ++ [ReleaseLock].
Proof.
  induction n as [| n IH]; intros result source decoder buffer lines.
  - exists []. split; reflexivity.
  - cbn [for_await Generator_next].
    destruct (for_lines_spec lines) as [_ Hlog]. apply loop_effects_warnings in Hlog.
    destruct (for_lines lines) as [log [[event rest] |]]; cbn [fst] in *.
    + destruct (IH result source decoder buffer rest) as (before & Hb & He).
      cbn [effects]. rewrite He. exists (log ++ before). split.
      * apply loop_effects_app; assumption.
      * rewrite app_assoc. reflexivity.
    + pose proof (while_read_spec result source decoder buffer) as Hw.
      pose proof (while_read_order result source decoder buffer) as Ho.
      destruct (while_read result source decoder buffer) as [[log' res] frame].
      destruct Ho as (before & Hb & ->).
      destruct res as [event | value | e].
      * destruct Hw as (_ & _ & (source' & decoder' & buffer' & rest & ->) & _).
        destruct (IH result source' decoder' buffer' rest) as (before' & Hb' & He).
        cbn [effects]. rewrite He, app_nil_r. exists (log ++ before ++ before'). split.
        -- apply loop_effects_app; [assumption |]. apply loop_effects_app; assumption.
        -- rewrite <- !app_assoc. reflexivity.
      * destruct Hw as (_ & _ & _ & -> & _). cbn [effects].
        exists (log ++ before). split.
        -- apply loop_effects_app; assumption.
        -- rewrite app_assoc. reflexivity.
      * destruct Hw as (_ & _ & -> & _). cbn [effects].
        exists (log ++ before). split.
        -- apply loop_effects_app; assumption.
        -- rewrite app_assoc. reflexivity.
Qed.

(** X16.  On a response that has a body, a consumer that asks for an event
    sees [chatStream] act in one order: the configuration, the request, the
    reader, then reads and warnings only, and last of all the release of
    the lock.  Nothing is read, logged or sent once the lock is released. *)
Theorem X16_effects_in_order
  (response : Response) (source : list ReadResult)
  (options : ChatStreamOptions) (n : nat) :
  serves response -> ok response = true -> body response = Some source ->
  exists url init during,
    effects (for_await (S n) (chatStream options)) =
    [GetConfig; Fetch url init; GetReader] ++ during ++ [ReleaseLock]
    /\ forallb is_loop_effect during = true.
Proof.
  intros Hserves Hok Hbody.
  destruct (chatStream_entering options response _ n Hserves Hok Hbody)
    as (_ & _ & _ & url & init & H4).
  destruct (for_await_order (S n) (identifiers (headers response)) source
              new_TextDecoder [] []) as (during & Hd & He).
  fold (entering (identifiers (headers response)) source) in He.
  exists url, init, during. rewrite H4, He. split; [reflexivity | exact Hd].
Qed.

(** ** What is asked of the server *)

Ltac show_request :=
  unfold getApiUrl, getAuthHeaders, GET;
  eexists; split; [first [eassumption | reflexivity] |]; repeat split.

(** X19.  The request of [chatStream] is a [POST] to [/api/halap/chat/stream]
    under the [apiUrl] of the configuration, with the bearer token and a JSON
    content type as its only headers; its body holds the query, the
    conversation and the metadata as they were given; and the signal given
    in the options is the one handed to the transport. *)
Theorem X19_chat_request
  (options : ChatStreamOptions) (n : nat) (url : jsstring) (init : RequestInit) :
  In (Fetch url init) (effects (for_await n (chatStream options))) ->
  exists config,
    getConfig = inr config
    /\ url = apiUrl config ++ js "/api/halap/chat/stream"
    /\ init_method init = Some (js "POST")
    /\ init_headers init =
       [(js "Authorization", js "Bearer " ++ apiToken config);
        (js "Content-Type", js "application/json")]
    /\ init_body init =
       Some (ChatBody (query options) (conversationId options)
               (match externalUserId options with
                | Some id => id
                | None => js "sdk-user"
                end)
               (metadata options))
    /\ init_signal init = signal options.
Proof.
  intros Hin. apply Fetch_of_request in Hin. revert Hin.
  unfold_client. intros Hin. run_cases_in Hin; request_sent Hin; show_request.
Qed.

(** X20.  The four operations that read send a request without a method,
    a body or a signal, with the bearer token as its only header, to the
    path of the resource under the [apiUrl] of the configuration: the
    identifier they are given goes into the path as it is, the query of
    [getConversations] has the limit, a safe integer written with all its
    digits, 20 when none is given, and the [externalUserId] only when one
    that is not empty is given. *)
Theorem X20_read_requests (url : jsstring) (init : RequestInit) :
  let sent path :=
    exists config,
      getConfig = inr config
      /\ url = apiUrl config ++ path
      /\ init = {| init_method := None;
                   init_headers := [(js "Authorization", js "Bearer " ++ apiToken config)];
                   init_body := None; init_signal := None |} in
  (forall externalUserId limit,
     match limit with Some l => safe_integer l | None => True end ->
     In (Fetch url init) (fst (getConversations externalUserId limit)) ->
     sent (js "/api/halap/conversations?"
           ++ URLSearchParams_toString
                ((js "limit", String_of_Z (match limit with Some l => l | None => 20 end))
                 :: match externalUserId with
                    | Some (c :: id) => [(js "externalUserId", c :: id)]
                    | _ => []
                    end)))
  /\ (forall conversationId,
        In (Fetch url init) (fst (getConversation conversationId)) ->
        sent (js "/api/halap/conversations/" ++ conversationId))
  /\ (forall messageId,
        In (Fetch url init) (fst (getBookArtifacts messageId)) ->
        sent (js "/api/halap/artifacts/books/" ++ messageId))
  /\ (forall messageId,
        In (Fetch url init) (fst (getMusicArtifacts messageId)) ->
        sent (js "/api/halap/artifacts/music/" ++ messageId)).
Proof.
  cbv zeta. split; [intros externalUserId limit _ | repeat split; intros *];
    unfold_client; intros Hin; run_cases_in Hin; request_sent Hin; show_request.
Qed.

(** ** A record that does not parse, in any stream *)

(** A whole call on a response whose reads all succeed: the events are
    those of the text the bytes of the body decode to. *)
Lemma chatStream_decoded options hs chunks n :
  serves (streaming_response hs chunks) ->
  let events :=
    events_of_text (snd (TextDecoder_decode new_TextDecoder (List.concat chunks))) in
  let r := for_await n (chatStream options) in
  yielded r = firstn n events
  /\ completion r =
       (if (n <=? List.length events)%nat
        then Abandoned else Finished (Some (identifiers hs)))
  /\ final r = Completed.
Proof.
  intros Hserves. destruct n as [| n]; [repeat split |].
  destruct (chatStream_entering options _ _ n Hserves eq_refl eq_refl)
    as (H1 & H2 & H3 & _).
  cbn [streaming_response headers] in H1, H2, H3.
  destruct (entering_delivered (identifiers hs) (map ReadValue chunks) (S n)) as [E1 E2].
  destruct (for_await_suspended (S n) (identifiers hs) (map ReadValue chunks)
              new_TextDecoder [] []) as (_ & _ & E3 & _).
  fold (entering (identifiers hs) (map ReadValue chunks)) in E3.
  rewrite delivered_all in E1, E2. rewrite outcome_chunks in E2.
  cbv zeta. rewrite H1, H2, H3. repeat split; assumption.
Qed.

(** The complete lines of a text of terminated lines, whatever unfinished
    line follows them, are these lines. *)
Lemma split_lines lines tail :
  Forall (fun line => ~ In LF line) lines -> ~ In LF tail ->
  removelast (String_split LF (flat_map terminated lines ++ tail)) = lines.
Proof.
  pure. intros Hl Htail. induction Hl as [| line lines Hline _ IH].
  - cbn [flat_map app]. rewrite String_split_no_separator by exact Htail. reflexivity.
  - cbn [flat_map]. unfold terminated at 1. rewrite <- !app_assoc. cbn [app].
    rewrite String_split_line by exact Hline.
    pose proof (String_split_nonempty LF (flat_map terminated lines ++ tail)) as Hne.
    destruct (String_split LF (flat_map terminated lines ++ tail)) as [| l ls] eqn:E;
      [contradiction |].
    change (removelast (line :: l :: ls)) with (line :: removelast (l :: ls)).
    rewrite IH. reflexivity.
Qed.

(** C2.  In any stream, whatever its lines are (records, comments, empty
    lines, lines that are no records) and however it is cut into chunks, a
    record whose payload does not parse gives no event and ends nothing:
    the events are those of the lines before it followed by those of the
    lines after it, every record after it that parses is yielded, no error
    reaches the consumer, and the stream ends normally.  The stream is
    given by the text its bytes decode to: the lines before the record, the
    record, the lines after it, and what may follow the last newline. *)
Theorem C2_malformed_record_skipped
  (before after : list jsstring) (bad message tail : jsstring) (chunks : list bytes)
  (hs : list (jsstring * jsstring)) (options : ChatStreamOptions) (n : nat) :
  Forall (fun line => ~ In LF line) before -> ~ In LF bad ->
  Forall (fun line => ~ In LF line) after -> ~ In LF tail ->
  JSON_parse bad = inl message ->
  snd (TextDecoder_decode new_TextDecoder (List.concat chunks)) =
    flat_map terminated before ++ record bad ++ flat_map terminated after ++ tail ->
  serves (streaming_response hs chunks) ->
  let events_of lines :=
    flat_map (fun line => parsed (String_slice 6 line))
             (filter (fun line => String_startsWith line DATA_PREFIX) lines) in
  let events := events_of before ++ events_of after in
  let r := for_await n (chatStream options) in
  yielded r = firstn n events
  /\ (forall e, completion r <> Failed e)
  /\ ((List.length events < n)%nat ->
      yielded r = events
      /\ completion r = Finished (Some (identifiers hs))
      /\ forall json event,
           In (DATA_PREFIX ++ json) after -> JSON_parse json = inr event ->
           In event (yielded r)).
Proof.
  intros Hb Hbad Ha Htail Hparse Htext Hserves events_of events r.
  destruct (chatStream_decoded options hs chunks n Hserves) as (H1 & H2 & _).
  fold r in H1, H2. rewrite Htext in H1, H2.
  assert (Hev : events_of_text
                  (flat_map terminated before ++ record bad
                   ++ flat_map terminated after ++ tail) = events).
  { unfold events_of_text.
    replace (flat_map terminated before ++ record bad ++ flat_map terminated after ++ tail)
      with (flat_map terminated (before ++ (DATA_PREFIX ++ bad) :: after) ++ tail).
    - rewrite split_lines; [| | exact Htail].
      + rewrite flat_map_app. cbn [flat_map]. unfold event_of_line at 2.
        rewrite startsWith_DATA_PREFIX, slice_DATA_PREFIX, Hparse. cbn [app].
        rewrite !events_of_lines. reflexivity.
      + apply Forall_app. split; [exact Hb |]. constructor; [| exact Ha].
        apply not_In_app; [apply LF_not_in_DATA_PREFIX | exact Hbad].
    - rewrite flat_map_app. cbn [flat_map]. unfold terminated at 2, record.
      rewrite <- !app_assoc. reflexivity. }
  rewrite Hev in H1, H2. split; [exact H1 |]. split.
  - intros e. rewrite H2. destruct (_ <=? _)%nat; discriminate.
  - intros Hn. rewrite H1, H2, firstn_all2 by lia.
    rewrite leb_false_lt by exact Hn. split; [reflexivity |]. split; [reflexivity |].
    intros json event Hin Hjson. apply in_or_app. right. unfold events_of.
    apply in_flat_map. exists (DATA_PREFIX ++ json). split.
    + apply filter_In. split; [exact Hin | apply startsWith_DATA_PREFIX].
    + rewrite slice_DATA_PREFIX. unfold parsed. rewrite Hjson. left. reflexivity.
Qed.

(** ** The errors that reach the caller *)

Lemma token_missing_fails config :
  getConfig = inr config -> isConfigValid config = false ->
  every_operation_fails (HalapiError (js "API token not configured") None).
Proof.
  intros Hc Hv. unfold every_operation_fails. repeat split.
  - unfold chatStream. cbn [for_await Generator_next].
    unfold_client. rewrite Hc. cbv beta iota. rewrite Hv. reflexivity.
  - unfold chatStream. cbn [for_await Generator_next].
    unfold_client. rewrite Hc. cbv beta iota. rewrite Hv. reflexivity.
  - intros u l. unfold_client. rewrite Hc. cbv beta iota. rewrite Hv. reflexivity.
  - intros id. unfold_client. rewrite Hc. cbv beta iota. rewrite Hv. reflexivity.
  - intros id. unfold_client. rewrite Hc. cbv beta iota. rewrite Hv. reflexivity.
  - intros id. unfold_client. rewrite Hc. cbv beta iota. rewrite Hv. reflexivity.
  - intros l Hl. destruct (accepted_checks l Hl) as [H0 H100].
    unfold_client. rewrite H0, H100, Hc. cbv beta iota. rewrite Hv. reflexivity.
Qed.

Lemma provider_error_fails e : getConfig = inl e -> every_operation_fails e.
Proof.
  intros Hc. unfold every_operation_fails. repeat split.
  - unfold chatStream. cbn [for_await Generator_next].
    unfold_client. rewrite Hc. reflexivity.
  - unfold chatStream. cbn [for_await Generator_next].
    unfold_client. rewrite Hc. reflexivity.
  - intros u l. unfold_client. rewrite Hc. reflexivity.
  - intros id. unfold_client. rewrite Hc. reflexivity.
  - intros id. unfold_client. rewrite Hc. reflexivity.
  - intros id. unfold_client. rewrite Hc. reflexivity.
  - intros l Hl. destruct (accepted_checks l Hl) as [H0 H100].
    unfold_client. rewrite H0, H100, Hc. reflexivity.
Qed.

Lemma transport_error_fails config e :
  getConfig = inr config -> isConfigValid config = true ->
  (forall url init, fetchFn url init = inl e) ->
  every_operation_fails e.
Proof.
  intros Hc Hv Hf. unfold every_operation_fails. repeat split.
  - unfold chatStream. cbn [for_await Generator_next].
    unfold_client. rewrite Hc. cbv beta iota. rewrite Hv. cbn [negb]. rewrite Hf.
    reflexivity.
  - unfold chatStream. cbn [for_await Generator_next].
    unfold_client. rewrite Hc. cbv beta iota. rewrite Hv. cbn [negb]. rewrite Hf.
    reflexivity.
  - intros u l. unfold_client. rewrite Hc. cbv beta iota. rewrite Hv. cbn [negb].
    rewrite Hf. reflexivity.
  - intros id. unfold_client. rewrite Hc. cbv beta iota. rewrite Hv. cbn [negb].
    rewrite Hf. reflexivity.
  - intros id. unfold_client. rewrite Hc. cbv beta iota. rewrite Hv. cbn [negb].
    rewrite Hf. reflexivity.
  - intros id. unfold_client. rewrite Hc. cbv beta iota. rewrite Hv. cbn [negb].
    rewrite Hf. reflexivity.
  - intros l Hl. destruct (accepted_checks l Hl) as [H0 H100].
    unfold_client. rewrite H0, H100, Hc. cbv beta iota. rewrite Hv. cbn [negb].
    rewrite Hf. reflexivity.
Qed.

Lemma status_error_fails response :
  serves response -> ok response = false ->
  (forall options n,
     yielded (for_await (S n) (chatStream options)) = []
     /\ completion (for_await (S n) (chatStream options)) =
        Failed (status_error response (js "Chat stream failed")))
  /\ (forall externalUserId limit,
        snd (getConversations externalUserId limit) =
        inl (status_error response (js "Failed to fetch conversations")))
  /\ (forall conversationId,
        snd (getConversation conversationId) =
        inl (status_error response (js "Failed to fetch conversation")))
  /\ (forall messageId,
        snd (getBookArtifacts messageId) =
        inl (status_error response (js "Failed to fetch book artifacts")))
  /\ (forall messageId,
        snd (getMusicArtifacts messageId) =
        inl (status_error response (js "Failed to fetch music artifacts")))
  /\ (forall isbn13s, accepted isbn13s ->
        snd (getBookPresentations (Some isbn13s)) =
        inl (status_error response (js "Failed to fetch book presentations"))).
Proof.
  intros Hserves Hok. unfold status_error.
  split; [| split; [| split; [| split; [| split]]]].
  - intros options n.
    assert (Hreq : exists url init,
               chatStream_request options =
               ([GetConfig; Fetch url init],
                inl (HalapiError (js "Chat stream failed" ++ js ": " ++ error_detail response)
                                 (Some (status response))))).
    { served Hserves. rewrite Hok. cbn [negb]. rewrite handleErrorResponse_detail.
      do 2 eexists. reflexivity. }
    destruct Hreq as (url & init & Hreq).
    rewrite (for_await_failed n options _ _ Hreq). split; reflexivity.
  - intros u l. served Hserves. rewrite Hok. cbn [negb].
    rewrite handleErrorResponse_detail. reflexivity.
  - intros id. served Hserves. rewrite Hok. cbn [negb].
    rewrite handleErrorResponse_detail. reflexivity.
  - intros id. served Hserves. rewrite Hok. cbn [negb].
    rewrite handleErrorResponse_detail. reflexivity.
  - intros id. served Hserves. rewrite Hok. cbn [negb].
    rewrite handleErrorResponse_detail. reflexivity.
  - intros l Hl. destruct (accepted_checks l Hl) as [H0 H100].
    unfold getBookPresentations, throw, ret, bind. rewrite H0, H100. cbv beta iota.
    served Hserves. rewrite Hok. cbn [negb].
    rewrite handleErrorResponse_detail. reflexivity.
Qed.

Lemma body_missing_fails response :
  serves response -> ok response = true -> body response = None ->
  forall options n,
    yielded (for_await (S n) (chatStream options)) = []
    /\ completion (for_await (S n) (chatStream options)) =
       Failed (HalapiError (js "Response body is not readable") None).
Proof.
  intros Hserves Hok Hbody options n.
  assert (Hreq : exists url init,
             chatStream_request options =
             ([GetConfig; Fetch url init],
              inl (HalapiError (js "Response body is not readable") None))).
  { served Hserves. rewrite Hok, Hbody. cbn [negb]. do 2 eexists. reflexivity. }
  destruct Hreq as (url & init & Hreq).
  rewrite (for_await_failed n options _ _ Hreq). split; reflexivity.
Qed.

Lemma isbn_bounds_fail :
  snd (getBookPresentations None) =
    inl (HalapiError (js "At least one ISBN-13 is required") None)
  /\ (forall isbn13s, List.length isbn13s = 0%nat ->
        snd (getBookPresentations (Some isbn13s)) =
        inl (HalapiError (js "At least one ISBN-13 is required") None))
  /\ (forall isbn13s, (100 < List.length isbn13s)%nat ->
        snd (getBookPresentations (Some isbn13s)) =
        inl (HalapiError (js "Maximum 100 ISBN-13s allowed per request") None)).
Proof.
  unfold getBookPresentations, throw, ret, bind. split; [reflexivity | split].
  - intros l H0. rewrite H0. reflexivity.
  - intros l H100.
    destruct (Nat.eqb_spec (List.length l) 0) as [E | E]; [lia |].
    replace (100 <? List.length l)%nat with true
      by (symmetry; apply Nat.ltb_lt; exact H100).
    reflexivity.
Qed.

Lemma body_reading_fails response e :
  serves response -> ok response = true ->
  (text response = inl e ->
     (forall externalUserId limit, snd (getConversations externalUserId limit) = inl e)
     /\ (forall conversationId, snd (getConversation conversationId) = inl e))
  /\ (Response_json response = inl e ->
      (forall messageId, snd (getBookArtifacts messageId) = inl e)
      /\ (forall messageId, snd (getMusicArtifacts messageId) = inl e)
      /\ (forall isbn13s, accepted isbn13s ->
            snd (getBookPresentations (Some isbn13s)) = inl e)).
Proof.
  intros Hserves Hok. split.
  - intros Htext. split.
    + intros u l. served Hserves. rewrite Hok, Htext. reflexivity.
    + intros id. served Hserves. rewrite Hok, Htext. reflexivity.
  - intros Hjson. repeat split.
    + intros id. served Hserves. rewrite Hok, Hjson. reflexivity.
    + intros id. served Hserves. rewrite Hok, Hjson. reflexivity.
    + intros l Hl. destruct (accepted_checks l Hl) as [H0 H100].
      unfold getBookPresentations, throw, ret, bind. rewrite H0, H100. cbv beta iota.
      served Hserves. rewrite Hok, Hjson. reflexivity.
Qed.

Lemma rejected_read_fails response chunks e rest options n :
  serves response -> ok response = true ->
  body response = Some (map ReadValue chunks ++ ReadRejects e :: rest) ->
  (List.length (yielded (for_await n (chatStream options))) < n)%nat ->
  completion (for_await n (chatStream options)) = Failed e.
Proof.
  intros Hserves Hok Hbody. destruct n as [| n]; [intros H; lia |].
  destruct (chatStream_entering options response _ n Hserves Hok Hbody)
    as (H1 & H2 & _).
  destruct (entering_delivered (identifiers (headers response))
              (map ReadValue chunks ++ ReadRejects e :: rest) (S n)) as [E1 E2].
  rewrite H1, H2, E1, E2, outcome_rejected, length_firstn. intros Hn.
  rewrite leb_false_lt by lia. reflexivity.
Qed.

Lemma streaming_never_fails hs chunks options n e :
  serves (streaming_response hs chunks) ->
  completion (for_await n (chatStream options)) <> Failed e.
Proof.
  intros Hserves. destruct (chatStream_decoded options hs chunks n Hserves) as (_ & H2 & _).
  rewrite H2. destruct (_ <=? _)%nat; discriminate.
Qed.

(** C8, as the code has it.  The errors that the client raises itself are
    [HalapiError]s with a message: "API token not configured" for a
    configuration without a token, the context of the operation and the
    reason, with the status of the response as status code, for a response
    that is not ok, "Response body is not readable" for a response without
    a body, and the two messages of the bounds of the list of ISBNs.  The
    errors of the environment reach the caller as they are: what the
    configuration provider rejects with, what the transport rejects with,
    what the reading of the body of a successful response rejects with, and
    what a read of the stream rejects with.  Nothing else reaches the caller
    but for the bodies of [getConversations] and [getConversation] that do
    not parse, which are left aside; and a line of the stream that does not
    parse is warned about and nothing else, the loop going on with the next
    line: no stream whose reads succeed fails. *)
Theorem C8_client_errors_are_HalapiError :
  (forall options n e,
     completion (for_await n (chatStream options)) = Failed e ->
     instanceof_HalapiError e = true \/ from_environment e)
  /\ (forall isbn13s e, snd (getBookPresentations isbn13s) = inl e ->
        instanceof_HalapiError e = true \/ from_environment e)
  /\ (forall messageId e, snd (getBookArtifacts messageId) = inl e ->
        instanceof_HalapiError e = true \/ from_environment e)
  /\ (forall messageId e, snd (getMusicArtifacts messageId) = inl e ->
        instanceof_HalapiError e = true \/ from_environment e)
  /\ (forall externalUserId limit e,
        snd (getConversations externalUserId limit) = inl e ->
        instanceof_HalapiError e = true \/ from_environment e \/ unparseable_body)
  /\ (forall conversationId e, snd (getConversation conversationId) = inl e ->
        instanceof_HalapiError e = true \/ from_environment e \/ unparseable_body)
  /\ (forall (A : Type) response context,
        exists message,
          handleErrorResponse A response context =
          ([], inl (HalapiError message (Some (status response)))))
  /\ (forall lines,
        Forall (fun effect => exists line, effect = ConsoleWarn line)
               (fst (for_lines lines)))
  /\ (forall config, getConfig = inr config -> isConfigValid config = false ->
        every_operation_fails (HalapiError (js "API token not configured") None))
  /\ (forall response, serves response -> ok response = false ->
        (forall options n,
           yielded (for_await (S n) (chatStream options)) = []
           /\ completion (for_await (S n) (chatStream options)) =
              Failed (status_error response (js "Chat stream failed")))
        /\ (forall externalUserId limit,
              snd (getConversations externalUserId limit) =
              inl (status_error response (js "Failed to fetch conversations")))
        /\ (forall conversationId,
              snd (getConversation conversationId) =
              inl (status_error response (js "Failed to fetch conversation")))
        /\ (forall messageId,
              snd (getBookArtifacts messageId) =
              inl (status_error response (js "Failed to fetch book artifacts")))
        /\ (forall messageId,
              snd (getMusicArtifacts messageId) =
              inl (status_error response (js "Failed to fetch music artifacts")))
        /\ (forall isbn13s, accepted isbn13s ->
              snd (getBookPresentations (Some isbn13s)) =
              inl (status_error response (js "Failed to fetch book presentations"))))
  /\ (forall response, serves response -> ok response = true -> body response = None ->
        forall options n,
          yielded (for_await (S n) (chatStream options)) = []
          /\ completion (for_await (S n) (chatStream options)) =
             Failed (HalapiError (js "Response body is not readable") None))
  /\ (snd (getBookPresentations None) =
        inl (HalapiError (js "At least one ISBN-13 is required") None)
      /\ (forall isbn13s, List.length isbn13s = 0%nat ->
            snd (getBookPresentations (Some isbn13s)) =
            inl (HalapiError (js "At least one ISBN-13 is required") None))
      /\ (forall isbn13s, (100 < List.length isbn13s)%nat ->
            snd (getBookPresentations (Some isbn13s)) =
            inl (HalapiError (js "Maximum 100 ISBN-13s allowed per request") None)))
  /\ (forall e, getConfig = inl e -> every_operation_fails e)
  /\ (forall config e, getConfig = inr config -> isConfigValid config = true ->
        (forall url init, fetchFn url init = inl e) ->
        every_operation_fails e)
  /\ (forall response e, serves response -> ok response = true ->
        (text response = inl e ->
           (forall externalUserId limit,
              snd (getConversations externalUserId limit) = inl e)
           /\ (forall conversationId, snd (getConversation conversationId) = inl e))
        /\ (Response_json response = inl e ->
            (forall messageId, snd (getBookArtifacts messageId) = inl e)
            /\ (forall messageId, snd (getMusicArtifacts messageId) = inl e)
            /\ (forall isbn13s, accepted isbn13s ->
                  snd (getBookPresentations (Some isbn13s)) = inl e)))
  /\ (forall response chunks e rest options n,
        serves response -> ok response = true ->
        body response = Some (map ReadValue chunks ++ ReadRejects e :: rest) ->
        (List.length (yielded (for_await n (chatStream options))) < n)%nat ->
        completion (for_await n (chatStream options)) = Failed e)
  /\ (forall hs chunks options n e,
        serves (streaming_response hs chunks) ->
        completion (for_await n (chatStream options)) <> Failed e)
  /\ (forall line rest message,
        String_startsWith line DATA_PREFIX = true ->
        JSON_parse (String_slice 6 line) = inl message ->
        for_lines (line :: rest) =
        (ConsoleWarn line :: fst (for_lines rest), snd (for_lines rest))).
Proof.
  split; [exact chatStream_errors |].
  destruct accessor_errors as (H1 & H2 & H3).
  destruct conversations_errors as (H4 & H5).
  do 5 (split; [assumption |]).
  split; [intros A response context; unfold handleErrorResponse, throw;
          eexists; reflexivity |].
  split; [intros lines; apply for_lines_spec |].
  split; [exact token_missing_fails |].
  split; [exact status_error_fails |].
  split; [exact body_missing_fails |].
  split; [exact isbn_bounds_fail |].
  split; [exact provider_error_fails |].
  split; [exact transport_error_fails |].
  split; [exact body_reading_fails |].
  split; [exact rejected_read_fails |].
  split; [intros hs chunks options n e; apply streaming_never_fails |].
  intros line rest message Hdata Hparse. cbn [for_lines]. rewrite Hdata, Hparse.
  destruct (for_lines rest) as [log r]. reflexivity.
Qed.

End Client.

(** ** The client on concrete inputs

    The JSON instance for [JSON.parse], a configuration with a token, and a
    transport that answers every request with the same response. *)

Abbreviation serve response :=
  (fun (_ : jsstring) (_ : RequestInit Json.value) => @inr JsError Response response)
  (only parsing).

Abbreviation hello :=
  ({| query := js "Hello"; conversationId := None; externalUserId := None;
      metadata := None; signal := None |} : ChatStreamOptions Json.value)
  (only parsing).

Abbreviation stream headers chunks n :=
  (for_await Json.parse Json.error_message (inr Scenario.config)
     (serve (streaming_response headers chunks)) n (chatStream hello))
  (only parsing).

Lemma single_line_check json :
  Utf8.well_formed json && negb (existsb (Z.eqb LF) json) = true -> single_line json.
Proof.
  intros H. apply andb_true_iff in H. destruct H as [Hwf Hlf]. split; [exact Hwf |].
  apply negb_true_iff in Hlf. intros Hin.
  assert (Hex : existsb (Z.eqb LF) json = true).
  { apply existsb_exists. exists LF. split; [exact Hin | apply Z.eqb_refl]. }
  congruence.
Qed.

Lemma no_newline_check s : existsb (Z.eqb LF) s = false -> ~ In LF s.
Proof.
  intros H Hin. assert (E : existsb (Z.eqb LF) s = true); [| congruence].
  apply existsb_exists. exists LF. split; [exact Hin | apply Z.eqb_refl].
Qed.

Lemma serves_streaming headers chunks :
  serves (inr Scenario.config) (serve (streaming_response headers chunks))
         (streaming_response headers chunks).
Proof.
  split; [exists Scenario.config; split; reflexivity | intros url init; reflexivity].
Qed.

(** ** The JSON instance reads back what it writes *)

Lemma hex_value_digit n : 0 <= n < 16 -> Json.hex_value (Json.hex_digit n) = Some n.
Proof.
  intros Hn. unfold Json.hex_digit, Json.hex_value, Json.is_digit.
  destruct (Z.ltb_spec n 10).
  - replace ((48 <=? 48 + n) && (48 + n <=? 57)) with true
      by (symmetry; apply andb_true_intro; split; apply Z.leb_le; lia).
    f_equal. lia.
  - replace ((48 <=? 87 + n) && (87 + n <=? 57)) with false
      by (symmetry; apply andb_false_iff; right; apply Z.leb_gt; lia).
    replace ((97 <=? 87 + n) && (87 + n <=? 102)) with true
      by (symmetry; apply andb_true_intro; split; apply Z.leb_le; lia).
    f_equal. lia.
Qed.

Lemma parse_unicode_escape c s :
  Json.code_unit c ->
  Json.parse_chars (Json.unicode_escape c ++ s) =
  match Json.parse_chars s with
  | Some (t, r) => Some (c :: t, r)
  | None => None
  end.
Proof.
  intros Hc. unfold Json.code_unit in Hc. unfold Json.unicode_escape.
  cbn [app Json.parse_chars]. cbn [Z.eqb Pos.eqb].
  rewrite !hex_value_digit by (Z.div_mod_to_equations; lia).
  replace (c / 4096 * 4096 + (c / 256) mod 16 * 256 + (c / 16) mod 16 * 16 + c mod 16)
    with c by (Z.div_mod_to_equations; lia).
  reflexivity.
Qed.

Lemma parse_quote_unit c s :
  Json.code_unit c -> Utf8.is_trail_surrogate c = false ->
  Json.parse_chars (Json.quote_unit c ++ s) =
  match Json.parse_chars s with
  | Some (t, r) => Some (c :: t, r)
  | None => None
  end.
Proof.
  intros Hc _. unfold Json.quote_unit.
  destruct (Z.eqb_spec c 34) as [-> | H34]; [reflexivity |].
  destruct (Z.eqb_spec c 92) as [-> | H92]; [reflexivity |].
  destruct (Z.eqb_spec c 8) as [-> | H8]; [reflexivity |].
  destruct (Z.eqb_spec c 12) as [-> | H12]; [reflexivity |].
  destruct (Z.eqb_spec c 10) as [-> | H10]; [reflexivity |].
  destruct (Z.eqb_spec c 13) as [-> | H13]; [reflexivity |].
  destruct (Z.eqb_spec c 9) as [-> | H9]; [reflexivity |].
  destruct (Z.ltb_spec c 32) as [Hlt | Hge].
  - apply parse_unicode_escape. exact Hc.
  - cbn [app Json.parse_chars].
    replace (c =? 34) with false by (symmetry; apply Z.eqb_neq; exact H34).
    replace (c =? 92) with false by (symmetry; apply Z.eqb_neq; exact H92).
    replace (c <? 32) with false by (symmetry; apply Z.ltb_ge; exact Hge).
    reflexivity.
Qed.

Lemma parse_quote_chars (s : jsstring) rest :
  Forall Json.code_unit s ->
  Json.parse_chars (Json.quote_chars s ++ 34 :: rest) = Some (s, rest).
Proof.
  induction s as [| u s IH1 IH2] using jsstring_pair_ind; intros Hs; [reflexivity |].
  inversion Hs as [| ? ? Hu Hs']; subst.
  cbn [Json.quote_chars].
  destruct (Utf8.is_lead_surrogate u) eqn:Hlead.
  - destruct s as [| v s''].
    + rewrite parse_unicode_escape by exact Hu. reflexivity.
    + destruct (Utf8.is_trail_surrogate v) eqn:Htrail.
      * inversion Hs' as [| ? ? Hv Hs'']; subst.
        unfold Utf8.is_lead_surrogate, Utf8.is_trail_surrogate in *.
        apply andb_true_iff in Hlead, Htrail.
        destruct Hlead as [L1 L2], Htrail as [T1 T2].
        apply Z.leb_le in L1, L2, T1, T2.
        cbn [app Json.parse_chars].
        replace (u =? 34) with false by (symmetry; apply Z.eqb_neq; lia).
        replace (u =? 92) with false by (symmetry; apply Z.eqb_neq; lia).
        replace (u <? 32) with false by (symmetry; apply Z.ltb_ge; lia).
        replace (v =? 34) with false by (symmetry; apply Z.eqb_neq; lia).
        replace (v =? 92) with false by (symmetry; apply Z.eqb_neq; lia).
        replace (v <? 32) with false by (symmetry; apply Z.ltb_ge; lia).
        rewrite (IH2 v s'' eq_refl Hs''). reflexivity.
      * rewrite <- app_assoc, parse_unicode_escape by exact Hu.
        rewrite (IH1 Hs'). reflexivity.
  - destruct (Utf8.is_trail_surrogate u) eqn:Htrail.
    + rewrite <- app_assoc, parse_unicode_escape by exact Hu.
      rewrite (IH1 Hs'). reflexivity.
    + rewrite <- app_assoc, parse_quote_unit by assumption.
      rewrite (IH1 Hs'). reflexivity.
Qed.

Lemma delimited_not_digit c rest : Json.delimited (c :: rest) -> Json.is_digit c = false.
Proof. intros [-> | [-> | ->]]; reflexivity. Qed.

Lemma digits_app s rest :
  Json.delimited rest ->
  Json.digits (s ++ rest) =
  (fst (Json.digits s), snd (Json.digits s) ++ rest).
Proof.
  intros Hrest. induction s as [| c s IH]; cbn [app Json.digits].
  - destruct rest as [| c rest]; [reflexivity |]. cbn [Json.digits].
    rewrite (delimited_not_digit c rest Hrest). reflexivity.
  - destruct (Json.is_digit c); [| reflexivity].
    rewrite IH. destruct (Json.digits s). reflexivity.
Qed.

Lemma digits_split s : s = fst (Json.digits s) ++ snd (Json.digits s).
Proof.
  induction s as [| c s IH]; cbn [Json.digits]; [reflexivity |].
  destruct (Json.is_digit c); [| reflexivity].
  destruct (Json.digits s) as [d r]. cbn [fst snd app] in *. rewrite <- IH. reflexivity.
Qed.

Lemma parse_fraction_app s rest f r :
  Json.delimited rest -> Json.parse_fraction s = Some (f, r) ->
  Json.parse_fraction (s ++ rest) = Some (f, r ++ rest) /\ s = f ++ r.
Proof.
  intros Hrest. unfold Json.parse_fraction. destruct s as [| c s]; cbn [app].
  - intros H. injection H as <- <-. split; [| reflexivity].
    destruct rest as [| c rest]; [reflexivity |].
    destruct Hrest as [-> | [-> | ->]]; reflexivity.
  - destruct (c =? 46).
    + rewrite (digits_app s rest Hrest). pose proof (digits_split s) as Hsplit.
      destruct (Json.digits s) as [[| d ds] r']; cbn [fst snd] in *; [discriminate |].
      intros H. injection H as <- <-. split; [reflexivity |]. rewrite Hsplit at 1. reflexivity.
    + intros H. injection H as <- <-. split; reflexivity.
Qed.

Lemma parse_exponent_app s rest x r :
  Json.delimited rest -> Json.parse_exponent s = Some (x, r) ->
  Json.parse_exponent (s ++ rest) = Some (x, r ++ rest) /\ s = x ++ r.
Proof.
  intros Hrest. unfold Json.parse_exponent. destruct s as [| e s]; cbn [app].
  - intros H. injection H as <- <-. split; [| reflexivity].
    destruct rest as [| c rest]; [reflexivity |].
    destruct Hrest as [-> | [-> | ->]]; reflexivity.
  - destruct ((e =? 101) || (e =? 69)).
    + destruct s as [| c t]; cbn [app].
      * discriminate.
      * destruct ((c =? 43) || (c =? 45)).
        -- rewrite (digits_app t rest Hrest). pose proof (digits_split t) as Hsplit.
           destruct (Json.digits t) as [[| d ds] r']; cbn [fst snd] in *; [discriminate |].
           intros H. injection H as <- <-. split; [reflexivity |].
           cbn [app]. rewrite Hsplit at 1. reflexivity.
        -- change (c :: t ++ rest) with ((c :: t) ++ rest).
           rewrite (digits_app (c :: t) rest Hrest).
           pose proof (digits_split (c :: t)) as Hsplit.
           destruct (Json.digits (c :: t)) as [[| d ds] r']; cbn [fst snd] in *;
             [discriminate |].
           intros H. injection H as <- <-. split; [reflexivity |].
           cbn [app]. rewrite Hsplit at 1. reflexivity.
    + intros H. injection H as <- <-. split; reflexivity.
Qed.

Lemma parse_number_app s rest l r :
  Json.delimited rest -> Json.parse_number s = Some (l, r) ->
  Json.parse_number (s ++ rest) = Some (l, r ++ rest)
  /\ s = l ++ r
  /\ exists c t, s = c :: t /\ (c = 45 \/ Json.is_digit c = true).
Proof.
  intros Hrest. unfold Json.parse_number.
  assert (Hgen : forall sign s1,
            match Json.digits s1 with
            | ([], _) => None
            | (int, s2) =>
                if Json.leading_zero int then None
                else match Json.parse_fraction s2 with
                     | None => None
                     | Some (frac, s3) =>
                         match Json.parse_exponent s3 with
                         | None => None
                         | Some (ex, s4) => Some (sign ++ int ++ frac ++ ex, s4)
                         end
                     end
            end = Some (l, r) ->
            match Json.digits (s1 ++ rest) with
            | ([], _) => None
            | (int, s2) =>
                if Json.leading_zero int then None
                else match Json.parse_fraction s2 with
                     | None => None
                     | Some (frac, s3) =>
                         match Json.parse_exponent s3 with
                         | None => None
                         | Some (ex, s4) => Some (sign ++ int ++ frac ++ ex, s4)
                         end
                     end
            end = Some (l, r ++ rest)
            /\ sign ++ s1 = l ++ r
            /\ exists d t, s1 = d :: t /\ Json.is_digit d = true).
  { intros sign s1. rewrite (digits_app s1 rest Hrest).
    pose proof (digits_split s1) as Hsplit.
    assert (Hhead : forall d ds, fst (Json.digits s1) = d :: ds ->
                      exists t, s1 = d :: t /\ Json.is_digit d = true).
    { intros d ds. destruct s1 as [| c s1']; cbn [Json.digits]; [discriminate |].
      destruct (Json.is_digit c) eqn:Hc; [| discriminate].
      destruct (Json.digits s1'). cbn [fst]. intros E. injection E as -> _.
      exists s1'. split; [reflexivity | exact Hc]. }
    destruct (Json.digits s1) as [[| d ds] s2]; cbn [fst snd] in *; [discriminate |].
    destruct (Json.leading_zero (d :: ds)); [discriminate |].
    destruct (Json.parse_fraction s2) as [[frac s3] |] eqn:Hf; [| discriminate].
    destruct (parse_fraction_app s2 rest frac s3 Hrest Hf) as [Hf' Hs2].
    rewrite Hf'.
    destruct (Json.parse_exponent s3) as [[ex s4] |] eqn:He; [| discriminate].
    destruct (parse_exponent_app s3 rest ex s4 Hrest He) as [He' Hs3].
    rewrite He'. intros H. injection H as <- <-. split; [reflexivity |]. split.
    - rewrite Hsplit, Hs2, Hs3. repeat (rewrite <- app_assoc; cbn [app]). reflexivity.
    - destruct (Hhead d ds eq_refl) as (t & Ht & Hd). exists d, t. split; assumption. }
  destruct s as [| c t].
  - cbn [Json.digits]. discriminate.
  - cbn [app]. destruct (Z.eqb_spec c 45) as [-> | Hc].
    + intros H. destruct (Hgen [45] t H) as (H1 & H2 & _).
      split; [exact H1 |]. split; [exact H2 |]. exists 45, t. split; [reflexivity | left; reflexivity].
    + intros H. destruct (Hgen [] (c :: t) H) as (H1 & H2 & d & t' & E & Hd).
      split; [exact H1 |]. split; [exact H2 |]. exists d, t'. split; [exact E | right; exact Hd].
Qed.

Lemma stringify_Array items :
  Json.stringify (Json.Array items) = [91] ++ Json.elements_text items ++ [93].
Proof.
  reflexivity.
Qed.

Lemma stringify_Object members :
  Json.stringify (Json.Object members) = [123] ++ Json.members_text members ++ [125].
Proof.
  reflexivity.
Qed.

Lemma code_units_Forall s : Json.code_units s = true -> Forall Json.code_unit s.
Proof.
  unfold Json.code_units. intros H. apply Forall_forall. intros c Hin.
  rewrite forallb_forall in H. specialize (H c Hin).
  apply andb_true_iff in H. destruct H as [H1 H2]. apply Z.leb_le in H1, H2.
  split; assumption.
Qed.

Lemma number_literal_app lit rest :
  Json.number_literal lit = true -> Json.delimited rest ->
  Json.parse_number (lit ++ rest) = Some (lit, rest)
  /\ exists c t, lit = c :: t /\ (c = 45 \/ Json.is_digit c = true).
Proof.
  unfold Json.number_literal. intros H Hrest.
  destruct (Json.parse_number lit) as [[l [| c r]] |] eqn:Hp; try discriminate.
  destruct (parse_number_app lit rest l [] Hrest Hp) as (H1 & H2 & H3).
  rewrite app_nil_r in H2. subst l. split; [exact H1 | exact H3].
Qed.

Lemma stringify_head v :
  Json.valid v = true -> exists c t, Json.stringify v = c :: t /\ Json.opening c.
Proof.
  destruct v as [| [|] | lit | s | items | members]; intros Hv;
    try (do 2 eexists; split; [reflexivity | repeat split; discriminate]).
  - cbn [Json.valid] in Hv.
    destruct (number_literal_app lit [] Hv I) as (_ & c & t & -> & [-> | Hd]).
    + do 2 eexists. split; [reflexivity | repeat split; discriminate].
    + do 2 eexists. split; [reflexivity |].
      unfold Json.is_digit in Hd. apply andb_true_iff in Hd. destruct Hd as [H1 H2].
      apply Z.leb_le in H1, H2. unfold Json.opening, Json.is_ws.
      repeat split; lia.
Qed.

Lemma skip_ws_opening c t : Json.opening c -> Json.skip_ws (c :: t) = c :: t.
Proof. intros [H _]. cbn [Json.skip_ws]. rewrite H. reflexivity. Qed.

Lemma weight_positive v : (1 <= Json.weight v)%nat.
Proof. destruct v; cbn [Json.weight]; lia. Qed.

Lemma parse_stringify_fuel fuel :
  (forall v rest,
     Json.valid v = true -> (Json.weight v <= fuel)%nat -> Json.delimited rest ->
     Json.parse_value fuel (Json.stringify v ++ rest) = Some (v, rest))
  /\ (forall x l rest,
        Json.valid x = true -> forallb Json.valid l = true ->
        (list_sum (map (fun y => S (Json.weight y)) (x :: l)) <= fuel)%nat ->
        Json.parse_elements fuel (Json.elements_text (x :: l) ++ 93 :: rest)
        = Some (x :: l, rest))
  /\ (forall k x l rest,
        Json.code_units k = true -> Json.valid x = true ->
        forallb (fun kv => Json.code_units (fst kv) && Json.valid (snd kv)) l = true ->
        (list_sum (map (fun kv => S (Json.weight (snd kv))) ((k, x) :: l)) <= fuel)%nat ->
        Json.parse_members fuel (Json.members_text ((k, x) :: l) ++ 125 :: rest)
        = Some ((k, x) :: l, rest)).
Proof.
  induction fuel as [| fuel (IHv & IHe & IHm)].
  { split; [| split].
    - intros v rest _ Hw. pose proof (weight_positive v). lia.
    - intros x l rest _ _ Hw. cbn [map list_sum fold_right] in Hw. lia.
    - intros k x l rest _ _ _ Hw. cbn [map list_sum fold_right] in Hw. lia. }
  split; [| split].
  - intros v rest Hv Hw Hrest.
    destruct v as [| [|] | lit | s | [| x l] | [| [k x] l]]; try reflexivity.
    + cbn [Json.valid] in Hv.
      destruct (number_literal_app lit rest Hv Hrest) as (Hp & c & t & -> & Hc).
      cbn [Json.stringify] in *. cbn [app] in *.
      assert (Hopen : Json.opening c /\ c <> 34 /\ c <> 91 /\ c <> 123
                      /\ c <> 116 /\ c <> 102 /\ c <> 110).
      { destruct Hc as [-> | Hd]; [repeat split; discriminate |].
        unfold Json.is_digit in Hd. apply andb_true_iff in Hd. destruct Hd as [H1 H2].
        apply Z.leb_le in H1, H2. unfold Json.opening, Json.is_ws. repeat split; lia. }
      destruct Hopen as (Ho & N1 & N2 & N3 & N4 & N5 & N6).
      cbn [Json.parse_value]. rewrite (skip_ws_opening c _ Ho).
      repeat match goal with
      | |- context [c =? ?k] =>
          replace (c =? k) with false by (symmetry; apply Z.eqb_neq; assumption)
      end.
      rewrite Hp. reflexivity.
    + cbn [Json.valid] in Hv. cbn [Json.stringify Json.parse_value].
      unfold Json.quote. cbn [app Json.skip_ws Json.is_ws Z.eqb Pos.eqb orb].
      rewrite <- app_assoc. cbn [app].
      rewrite parse_quote_chars by (apply code_units_Forall; exact Hv). reflexivity.
    + cbn [Json.valid forallb] in Hv. apply andb_true_iff in Hv. destruct Hv as [Hx Hl].
      cbn [Json.weight] in Hw. rewrite stringify_Array, <- !app_assoc.
      destruct (stringify_head x Hx) as (c & t & Hhead & Hopen).
      remember (Json.elements_text (x :: l) ++ [93] ++ rest) as txt eqn:Etxt.
      assert (Hskip : Json.skip_ws txt = txt /\ exists t', txt = c :: t').
      { subst txt. cbn [Json.elements_text]. rewrite Hhead. cbn [app].
        split; [apply skip_ws_opening; exact Hopen | eexists; reflexivity]. }
      destruct Hskip as (Hskip & t' & Ht').
      cbn [app Json.parse_value Json.skip_ws Json.is_ws Z.eqb Pos.eqb orb].
      rewrite Hskip. rewrite Ht' at 1.
      replace (c =? 93) with false by (symmetry; apply Z.eqb_neq; apply Hopen).
      subst txt. cbn [app]. rewrite (IHe x l rest Hx Hl) by lia. reflexivity.
    + cbn [Json.valid forallb fst snd] in Hv. apply andb_true_iff in Hv. destruct Hv as [Hkx Hl].
      apply andb_true_iff in Hkx. destruct Hkx as [Hk Hx].
      cbn [Json.weight] in Hw. rewrite stringify_Object, <- !app_assoc.
      remember (Json.members_text ((k, x) :: l) ++ [125] ++ rest) as txt eqn:Etxt.
      assert (Hskip : Json.skip_ws txt = txt /\ exists t', txt = 34 :: t').
      { subst txt. cbn [Json.members_text]. unfold Json.quote. cbn [app].
        split; [reflexivity | eexists; reflexivity]. }
      destruct Hskip as (Hskip & t' & Ht').
      cbn [app Json.parse_value Json.skip_ws Json.is_ws Z.eqb Pos.eqb orb].
      rewrite Hskip. rewrite Ht' at 1. cbn [Z.eqb Pos.eqb].
      subst txt. cbn [app]. rewrite (IHm k x l rest Hk Hx Hl) by lia. reflexivity.
  - intros x l rest Hx Hl Hw. cbn [map list_sum fold_right] in Hw.
    cbn [Json.parse_elements Json.elements_text]. rewrite <- app_assoc.
    destruct l as [| y l'].
    + cbn [app]. rewrite (IHv x (93 :: rest) Hx) by (cbn; first [lia | tauto]).
      reflexivity.
    + cbn [app]. rewrite (IHv x _ Hx) by (cbn; first [lia | tauto]).
      cbn [Json.skip_ws Json.is_ws Z.eqb Pos.eqb orb].
      cbn [forallb] in Hl. apply andb_true_iff in Hl. destruct Hl as [Hy Hl'].
      rewrite (IHe y l' rest Hy Hl') by (cbn [map list_sum fold_right] in *; lia). reflexivity.
  - intros k x l rest Hk Hx Hl Hw. cbn [map list_sum fold_right snd] in Hw.
    cbn [Json.parse_members Json.members_text]. unfold Json.quote at 1.
    rewrite <- !app_assoc. cbn [app Json.skip_ws Json.is_ws Z.eqb Pos.eqb orb].
    rewrite parse_quote_chars by (apply code_units_Forall; exact Hk).
    cbn [Json.skip_ws Json.is_ws Z.eqb Pos.eqb orb].
    destruct l as [| [k' y] l'].
    + cbn [app]. rewrite (IHv x (125 :: rest) Hx) by (cbn; first [lia | tauto]).
      reflexivity.
    + cbn [app]. rewrite (IHv x _ Hx) by (cbn; first [lia | tauto]).
      cbn [Json.skip_ws Json.is_ws Z.eqb Pos.eqb orb].
      cbn [forallb fst snd] in Hl. apply andb_true_iff in Hl. destruct Hl as [Hky Hl'].
      apply andb_true_iff in Hky. destruct Hky as [Hk' Hy].
      rewrite (IHm k' y l' rest Hk' Hy Hl') by (cbn [map list_sum fold_right snd] in *; lia).
      reflexivity.
Qed.

(** Induction on values through the lists of arrays and objects. *)
Lemma value_nested_ind (P : Json.value -> Prop) :
  P Json.Null -> (forall b, P (Json.Bool b)) -> (forall n, P (Json.Number n)) ->
  (forall s, P (Json.Str s)) ->
  (forall items, Forall P items -> P (Json.Array items)) ->
  (forall members, Forall (fun kv => P (snd kv)) members -> P (Json.Object members)) ->
  forall v, P v.
Proof.
  intros HNull HBool HNumber HStr HArray HObject.
  fix IH 1. intros [| b | n | s | items | members].
  - exact HNull.
  - apply HBool.
  - apply HNumber.
  - apply HStr.
  - apply HArray. induction items as [| x items IHitems]; constructor.
    + apply IH.
    + exact IHitems.
  - apply HObject. induction members as [| [k x] members IHmembers]; constructor.
    + apply IH.
    + exact IHmembers.
Qed.

Lemma elements_weight items :
  Forall (fun x => Json.valid x = true ->
                   (Json.weight x <= 2 * List.length (Json.stringify x))%nat) items ->
  forallb Json.valid items = true ->
  (list_sum (map (fun x => S (Json.weight x)) items)
   <= 2 * List.length (Json.elements_text items) + 1)%nat.
Proof.
  induction 1 as [| x l Hx _ IH]; intros Hv; [cbn; lia |].
  cbn [forallb] in Hv. apply andb_true_iff in Hv. destruct Hv as [Hvx Hvl].
  specialize (Hx Hvx). specialize (IH Hvl).
  cbn [map list_sum fold_right Json.elements_text]. fold (list_sum (map (fun x => S (Json.weight x)) l)).
  rewrite length_app. destruct l as [| y l'].
  - cbn [map list_sum fold_right List.length]. lia.
  - cbn [List.length]. lia.
Qed.

Lemma members_weight members :
  Forall (fun kv => Json.valid (snd kv) = true ->
                    (Json.weight (snd kv) <= 2 * List.length (Json.stringify (snd kv)))%nat)
         members ->
  forallb (fun kv => Json.code_units (fst kv) && Json.valid (snd kv)) members = true ->
  (list_sum (map (fun kv => S (Json.weight (snd kv))) members)
   <= 2 * List.length (Json.members_text members) + 1)%nat.
Proof.
  induction 1 as [| [k x] l Hx _ IH]; intros Hv; [cbn; lia |].
  cbn [forallb fst snd] in *. apply andb_true_iff in Hv. destruct Hv as [Hvx Hvl].
  apply andb_true_iff in Hvx. destruct Hvx as [_ Hvx].
  specialize (Hx Hvx). specialize (IH Hvl).
  cbn [map list_sum fold_right Json.members_text snd].
  fold (list_sum (map (fun kv => S (Json.weight (snd kv))) l)).
  rewrite !length_app. destruct l as [| y l'].
  - cbn [map list_sum fold_right List.length]. lia.
  - cbn [List.length]. lia.
Qed.

Lemma weight_length v :
  Json.valid v = true -> (Json.weight v <= 2 * List.length (Json.stringify v))%nat.
Proof.
  induction v as [| b | n | s | items IH | members IH] using value_nested_ind; intros Hv.
  - cbn. lia.
  - destruct b; cbn; lia.
  - cbn [Json.valid] in Hv. destruct (number_literal_app n [] Hv I) as (_ & c & t & -> & _).
    cbn. lia.
  - cbn [Json.weight Json.stringify]. unfold Json.quote. rewrite !length_app. cbn. lia.
  - rewrite stringify_Array. cbn [Json.weight Json.valid] in *.
    pose proof (elements_weight items IH Hv). rewrite !length_app. cbn [List.length]. lia.
  - rewrite stringify_Object. cbn [Json.weight Json.valid] in *.
    pose proof (members_weight members IH Hv). rewrite !length_app. cbn [List.length]. lia.
Qed.

(** The JSON instance reads back every value it writes. *)
Theorem Json_parse_stringify v :
  Json.valid v = true -> Json.parse (Json.stringify v) = inr v.
Proof.
  intros Hv. unfold Json.parse.
  destruct (parse_stringify_fuel (2 * List.length (Json.stringify v) + 2)) as (H & _ & _).
  specialize (H v [] Hv). rewrite app_nil_r in H.
  rewrite H; [reflexivity | | exact I].
  pose proof (weight_length v Hv). lia.
Qed.

Lemma single_line_app a b : single_line a -> single_line b -> single_line (a ++ b).
Proof.
  intros [Ha1 Ha2] [Hb1 Hb2]. split.
  - apply well_formed_app; assumption.
  - apply not_In_app; assumption.
Qed.

Lemma single_line_printable a : Forall Json.printable a -> single_line a.
Proof.
  induction 1 as [| c a Hc _ [IH1 IH2]]; [split; [reflexivity | intros []] |].
  unfold Json.printable in Hc. split.
  - cbn [Utf8.well_formed]. unfold Utf8.is_lead_surrogate, Utf8.is_trail_surrogate.
    replace ((55296 <=? c) && (c <=? 56319)) with false by lia.
    replace ((56320 <=? c) && (c <=? 57343)) with false by lia.
    rewrite IH1. cbn [negb]. lia.
  - intros [H | H]; [unfold LF in H; lia | exact (IH2 H)].
Qed.

Lemma hex_digit_printable n : 0 <= n < 16 -> Json.printable (Json.hex_digit n).
Proof.
  intros Hn. unfold Json.hex_digit, Json.printable. destruct (Z.ltb_spec n 10); lia.
Qed.

Lemma unicode_escape_line c : Json.code_unit c -> single_line (Json.unicode_escape c).
Proof.
  intros Hc. unfold Json.code_unit in Hc. apply single_line_printable.
  unfold Json.unicode_escape.
  repeat constructor; try (unfold Json.printable; lia);
    apply hex_digit_printable; Z.div_mod_to_equations; lia.
Qed.

Lemma quote_unit_line c :
  Json.code_unit c -> Utf8.is_lead_surrogate c = false -> Utf8.is_trail_surrogate c = false ->
  single_line (Json.quote_unit c).
Proof.
  intros Hc Hlead Htrail. unfold Json.quote_unit.
  repeat match goal with
  | |- context [c =? ?k] =>
      destruct (Z.eqb_spec c k);
      [apply single_line_printable; repeat constructor; unfold Json.printable; lia |]
  end.
  destruct (Z.ltb_spec c 32); [apply unicode_escape_line; exact Hc |].
  unfold Json.code_unit in Hc. split.
  - cbn [Utf8.well_formed]. rewrite Hlead, Htrail. cbn [negb]. lia.
  - intros [E | []]. unfold LF in E. lia.
Qed.

Lemma quote_chars_line (s : jsstring) :
  Forall Json.code_unit s -> single_line (Json.quote_chars s).
Proof.
  induction s as [| u s IH1 IH2] using jsstring_pair_ind; intros Hs;
    [split; [reflexivity | intros []] |].
  inversion Hs as [| ? ? Hu Hs']; subst.
  cbn [Json.quote_chars].
  destruct (Utf8.is_lead_surrogate u) eqn:Hlead.
  - destruct s as [| v s''].
    + apply unicode_escape_line. exact Hu.
    + destruct (Utf8.is_trail_surrogate v) eqn:Htrail.
      * inversion Hs' as [| ? ? Hv Hs'']; subst.
        destruct (IH2 v s'' eq_refl Hs'') as [W L]. split.
        -- cbn [Utf8.well_formed]. rewrite Hlead, Htrail, W. reflexivity.
        -- unfold Utf8.is_lead_surrogate, Utf8.is_trail_surrogate, LF in *.
           intros [H | [H | H]]; [lia | lia | exact (L H)].
      * apply single_line_app; [apply unicode_escape_line; exact Hu | exact (IH1 Hs')].
  - destruct (Utf8.is_trail_surrogate u) eqn:Htrail.
    + apply single_line_app; [apply unicode_escape_line; exact Hu | exact (IH1 Hs')].
    + apply single_line_app; [apply quote_unit_line; assumption | exact (IH1 Hs')].
Qed.

Lemma quote_line s : Json.code_units s = true -> single_line (Json.quote s).
Proof.
  intros Hs. unfold Json.quote.
  apply single_line_app; [apply single_line_printable; repeat constructor; unfold Json.printable; lia |].
  apply single_line_app; [apply quote_chars_line, code_units_Forall; exact Hs |].
  apply single_line_printable; repeat constructor; unfold Json.printable; lia.
Qed.

Lemma digits_printable s : Forall Json.printable (fst (Json.digits s)).
Proof.
  induction s as [| c s IH]; cbn [Json.digits]; [constructor |].
  destruct (Json.is_digit c) eqn:Hc; [| constructor].
  destruct (Json.digits s) as [d r]. cbn [fst] in *. constructor; [| exact IH].
  unfold Json.is_digit in Hc. unfold Json.printable. lia.
Qed.

Lemma parse_fraction_printable s f r :
  Json.parse_fraction s = Some (f, r) -> Forall Json.printable f.
Proof.
  unfold Json.parse_fraction. destruct s as [| c s].
  - intros H. injection H as <- _. constructor.
  - destruct (Z.eqb_spec c 46) as [-> | _].
    + pose proof (digits_printable s) as Hd.
      destruct (Json.digits s) as [[| d ds] r']; [discriminate |].
      intros H. injection H as <- _. constructor; [unfold Json.printable; lia | exact Hd].
    + intros H. injection H as <- _. constructor.
Qed.

Lemma parse_exponent_printable s x r :
  Json.parse_exponent s = Some (x, r) -> Forall Json.printable x.
Proof.
  unfold Json.parse_exponent. destruct s as [| e s].
  - intros H. injection H as <- _. constructor.
  - destruct ((e =? 101) || (e =? 69)) eqn:He.
    + assert (Hpe : Json.printable e) by (unfold Json.printable; lia).
      destruct s as [| c t]; [discriminate |].
      destruct ((c =? 43) || (c =? 45)) eqn:Hc.
      * pose proof (digits_printable t) as Hd.
        destruct (Json.digits t) as [[| d ds] r']; [discriminate |].
        intros H. injection H as <- _. constructor; [exact Hpe |].
        constructor; [unfold Json.printable; lia | exact Hd].
      * pose proof (digits_printable (c :: t)) as Hd.
        destruct (Json.digits (c :: t)) as [[| d ds] r']; [discriminate |].
        intros H. injection H as <- _. constructor; [exact Hpe | exact Hd].
    + intros H. injection H as <- _. constructor.
Qed.

Lemma parse_number_printable s l r :
  Json.parse_number s = Some (l, r) -> Forall Json.printable l.
Proof.
  unfold Json.parse_number.
  assert (Hgen : forall sign s1, Forall Json.printable sign ->
            match Json.digits s1 with
            | ([], _) => None
            | (int, s2) =>
                if Json.leading_zero int then None
                else match Json.parse_fraction s2 with
                     | None => None
                     | Some (frac, s3) =>
                         match Json.parse_exponent s3 with
                         | None => None
                         | Some (ex, s4) => Some (sign ++ int ++ frac ++ ex, s4)
                         end
                     end
            end = Some (l, r) -> Forall Json.printable l).
  { intros sign s1 Hsign. pose proof (digits_printable s1) as Hd.
    destruct (Json.digits s1) as [[| d ds] s2]; [discriminate |]. cbn [fst] in Hd.
    destruct (Json.leading_zero (d :: ds)); [discriminate |].
    destruct (Json.parse_fraction s2) as [[frac s3] |] eqn:Hf; [| discriminate].
    destruct (Json.parse_exponent s3) as [[ex s4] |] eqn:He; [| discriminate].
    intros H. injection H as <- _.
    apply Forall_app. split; [exact Hsign |].
    change (Forall Json.printable ((d :: ds) ++ frac ++ ex)).
    apply Forall_app. split; [exact Hd |].
    apply Forall_app. split.
    - exact (parse_fraction_printable _ _ _ Hf).
    - exact (parse_exponent_printable _ _ _ He). }
  destruct s as [| c t].
  - apply (Hgen [] []). constructor.
  - destruct (Z.eqb_spec c 45) as [-> | _].
    + apply Hgen. constructor; [unfold Json.printable; lia | constructor].
    + apply Hgen. constructor.
Qed.

Lemma number_literal_line lit : Json.number_literal lit = true -> single_line lit.
Proof.
  unfold Json.number_literal. intros H.
  destruct (Json.parse_number lit) as [[l [| c r]] |] eqn:Hp; try discriminate.
  destruct (parse_number_app lit [] l [] I Hp) as (_ & E & _).
  rewrite app_nil_r in E. subst l.
  apply single_line_printable. exact (parse_number_printable _ _ _ Hp).
Qed.

Lemma delimiter_line c : Json.printable c -> single_line [c].
Proof. intros Hc. apply single_line_printable. constructor; [exact Hc | constructor]. Qed.

(** What the JSON instance writes is well-formed UTF-16 on one line. *)
Theorem Json_stringify_single_line v :
  Json.valid v = true -> single_line (Json.stringify v).
Proof.
  induction v as [| b | n | s | items IH | members IH] using value_nested_ind; intros Hv.
  - apply single_line_check. reflexivity.
  - destruct b; apply single_line_check; reflexivity.
  - apply number_literal_line. exact Hv.
  - apply quote_line. exact Hv.
  - rewrite stringify_Array. cbn [Json.valid] in Hv.
    apply single_line_app; [apply delimiter_line; unfold Json.printable; lia |].
    apply single_line_app; [| apply delimiter_line; unfold Json.printable; lia].
    induction IH as [| x l Hx _ IHl]; [split; [reflexivity | intros []] |].
    cbn [forallb] in Hv. apply andb_true_iff in Hv. destruct Hv as [Hvx Hvl].
    cbn [Json.elements_text]. apply single_line_app; [exact (Hx Hvx) |].
    destruct l as [| y l']; [split; [reflexivity | intros []] |].
    change (44 :: Json.elements_text (y :: l')) with ([44] ++ Json.elements_text (y :: l')).
    apply single_line_app; [apply delimiter_line; unfold Json.printable; lia | exact (IHl Hvl)].
  - rewrite stringify_Object. cbn [Json.valid] in Hv.
    apply single_line_app; [apply delimiter_line; unfold Json.printable; lia |].
    apply single_line_app; [| apply delimiter_line; unfold Json.printable; lia].
    induction IH as [| [k x] l Hx _ IHl]; [split; [reflexivity | intros []] |].
    cbn [forallb fst snd] in *. apply andb_true_iff in Hv. destruct Hv as [Hvx Hvl].
    apply andb_true_iff in Hvx. destruct Hvx as [Hk Hvx].
    cbn [Json.members_text].
    apply single_line_app; [apply quote_line; exact Hk |].
    apply single_line_app; [apply delimiter_line; unfold Json.printable; lia |].
    apply single_line_app; [exact (Hx Hvx) |].
    destruct l as [| y l']; [split; [reflexivity | intros []] |].
    change (44 :: Json.members_text (y :: l')) with ([44] ++ Json.members_text (y :: l')).
    apply single_line_app; [apply delimiter_line; unfold Json.printable; lia | exact (IHl Hvl)].
Qed.

(** With the JSON instance, every value comes back from its line. *)
Theorem Json_decode_after_encode
  (v : Json.value) (getConfig : JsError + HalapiConfig)
  (fetchFn : jsstring -> RequestInit Json.value -> JsError + Response)
  (hs : list (jsstring * jsstring)) (options : ChatStreamOptions Json.value) (n : nat) :
  Json.valid v = true ->
  serves getConfig fetchFn
    (streaming_response hs [TextEncoder_encode (DATA_PREFIX ++ Json.stringify v ++ [LF])]) ->
  (1 <= n)%nat ->
  yielded (for_await Json.parse Json.error_message getConfig fetchFn n (chatStream options))
  = [v].
Proof.
  intros Hv Hserves Hn.
  destruct (chatStream_records Json.value Json.parse Json.error_message getConfig fetchFn
              options hs
              [TextEncoder_encode (DATA_PREFIX ++ Json.stringify v ++ [LF])]
              [Json.stringify v] [] n) as (H1 & _); try assumption.
  - constructor; [apply Json_stringify_single_line; exact Hv | constructor].
  - reflexivity.
  - intros [].
  - left. reflexivity.
  - cbn [List.concat flat_map]. rewrite !app_nil_r. reflexivity.
  - rewrite H1. cbn [flat_map]. unfold parsed. rewrite (Json_parse_stringify v Hv).
    cbn [app]. apply firstn_all2. simpl. lia.
Qed.

(** Scenario 1 of the specification: one record, one [text-delta] event. *)
Example scenario_1 :
  let r := stream [] [TextEncoder_encode (record Scenario.text_delta)] 2 in
  yielded r = [Scenario.text_delta_event]
  /\ completion r = Finished (Some {| result_conversationId := None;
                                      result_messageId := None |}).
Proof. vm_compute. split; reflexivity. Qed.

(** Scenario 2: a record that arrives in two chunks, cut inside the key
    [type]. *)
Example scenario_2 :
  let bytes := TextEncoder_encode (record Scenario.done) in
  yielded (stream [] [firstn 11 bytes; skipn 11 bytes] 2) = [Scenario.done_event]
  /\ firstn 11 bytes = TextEncoder_encode (Scenario.json_text "data: {'typ").
Proof. vm_compute. split; reflexivity. Qed.

(** Scenario 3: a line that is not JSON, then an [error] event; the bad
    line is warned about and nothing is thrown. *)
Example scenario_3 :
  let r := stream [] [TextEncoder_encode (record Scenario.not_json
                                          ++ record Scenario.error)] 2 in
  yielded r = [Scenario.error_event]
  /\ completion r = Finished (Some {| result_conversationId := None;
                                      result_messageId := None |})
  /\ In (ConsoleWarn Json.value (DATA_PREFIX ++ Scenario.not_json)) (effects r).
Proof. vm_compute. repeat split. do 4 right. left. reflexivity. Qed.

Lemma C1_witness :
  yielded (stream [] [firstn 20 (TextEncoder_encode (record Scenario.text_delta
                                                      ++ record Scenario.done));
                      skipn 20 (TextEncoder_encode (record Scenario.text_delta
                                                     ++ record Scenario.done))] 3)
  = [Scenario.text_delta_event; Scenario.done_event].
Proof.
  refine (proj1 (proj2
    (C1_one_event_per_record Json.value Json.parse Json.error_message (inr Scenario.config)
       (serve (streaming_response [] _))
       [(Scenario.text_delta, Scenario.text_delta_event);
        (Scenario.done, Scenario.done_event)]
       _ [] hello 3 _ _ (serves_streaming _ _)) _)).
  - intros json event [H | [H | []]]; injection H as <- <-;
      (split; [apply single_line_check |]); vm_compute; reflexivity.
  - vm_compute. reflexivity.
  - simpl. lia.
Defined.

Lemma C2_witness :
  let text :=
    record Scenario.text_delta ++ terminated [] ++ terminated Scenario.keep_alive
    ++ record Scenario.not_json ++ terminated [] ++ record Scenario.error
    ++ DATA_PREFIX ++ Scenario.done in
  yielded (stream [] [firstn 50 (TextEncoder_encode text);
                      skipn 50 (TextEncoder_encode text)] 3)
  = [Scenario.text_delta_event; Scenario.error_event]
  /\ completion (stream [] [firstn 50 (TextEncoder_encode text);
                            skipn 50 (TextEncoder_encode text)] 3)
     = Finished (Some (identifiers []))
  /\ forall json event,
       In (DATA_PREFIX ++ json) [[]; DATA_PREFIX ++ Scenario.error] ->
       Json.parse json = inr event ->
       In event (yielded (stream [] [firstn 50 (TextEncoder_encode text);
                                     skipn 50 (TextEncoder_encode text)] 3)).
Proof.
  refine (proj2 (proj2
    (C2_malformed_record_skipped Json.value Json.parse Json.error_message
       (inr Scenario.config) (serve (streaming_response [] _))
       [DATA_PREFIX ++ Scenario.text_delta; []; Scenario.keep_alive]
       [[]; DATA_PREFIX ++ Scenario.error] Scenario.not_json
       (js "Unexpected token in JSON") (DATA_PREFIX ++ Scenario.done) _ [] hello 3
       _ _ _ _ _ _ (serves_streaming _ _))) _).
  - repeat (apply Forall_cons; [apply no_newline_check; vm_compute; reflexivity |]).
    apply Forall_nil.
  - apply no_newline_check. vm_compute. reflexivity.
  - repeat (apply Forall_cons; [apply no_newline_check; vm_compute; reflexivity |]).
    apply Forall_nil.
  - apply no_newline_check. vm_compute. reflexivity.
  - vm_compute. reflexivity.
  - vm_compute. reflexivity.
  - vm_compute. lia.
Defined.

(** The cut falls after the first two of the three bytes of U+20AC. *)
Lemma C3_witness :
  let bytes := TextEncoder_encode (record Scenario.euro) in
  firstn 46 bytes = TextEncoder_encode
                      (Scenario.json_text "data: {'type':'text-delta','data':{'delta':'")
                    ++ [0xE2; 0x82]
  /\ yielded (for_await Json.parse Json.error_message (inr Scenario.config)
                (serve (streaming_response [] []))
                1 (entering Json.value (identifiers [])
                     [ReadValue (firstn 46 bytes); ReadValue (skipn 46 bytes)]))
     = [Scenario.euro_event].
Proof.
  split; [vm_compute; reflexivity |].
  refine (proj1
    (C3_record_split_in_two_chunks Json.value Json.parse Json.error_message (inr Scenario.config)
       (serve (streaming_response [] []))
       Scenario.euro Scenario.euro_event _ _ (identifiers []) 1 _ _ _ _)).
  - apply single_line_check. vm_compute. reflexivity.
  - vm_compute. reflexivity.
  - apply firstn_skipn.
  - lia.
Defined.

Lemma C4_witness :
  yielded (stream [] [TextEncoder_encode (record Scenario.text_delta
                                          ++ DATA_PREFIX ++ Scenario.done)] 3)
  = [Scenario.text_delta_event]
  /\ completion (stream [] [TextEncoder_encode (record Scenario.text_delta
                                                ++ DATA_PREFIX ++ Scenario.done)] 3)
     = Finished (Some (identifiers [])).
Proof.
  refine (proj2 (proj2
    (C4_unterminated_final_record_dropped Json.value Json.parse Json.error_message
       (inr Scenario.config) (serve (streaming_response [] _))
       [Scenario.text_delta] Scenario.done _ [] hello 3 _ _ _ (serves_streaming _ _))) _).
  - constructor; [apply single_line_check; vm_compute; reflexivity | constructor].
  - apply single_line_check. vm_compute. reflexivity.
  - vm_compute. reflexivity.
  - vm_compute. lia.
Defined.

Lemma C6_witness :
  yielded (stream [] [TextEncoder_encode
                        (DATA_PREFIX ++ Json.stringify Scenario.euro_event ++ [LF])] 1)
  = [Scenario.euro_event].
Proof.
  refine (proj1 (proj2
    (C6_decode_after_encode Json.value Json.parse Json.stringify Json.error_message
       (inr Scenario.config) (serve (streaming_response [] _))
       Scenario.euro_event [] hello 1 _ (serves_streaming _ _) _)) _).
  - apply single_line_check. vm_compute. reflexivity.
  - lia.
  - vm_compute. reflexivity.
Defined.

(** Scenario 4: the two identifiers come from the headers, compared
    without regard to case; an empty body gives no event. *)
Example scenario_4 :
  let r := stream [(js "x-conversation-id", js "c9"); (js "X-Message-Id", js "m9")] [] 1 in
  yielded r = []
  /\ completion r = Finished (Some {| result_conversationId := Some (js "c9");
                                      result_messageId := Some (js "m9") |}).
Proof. vm_compute. split; reflexivity. Qed.

(** Scenario 5: no list, an empty list and a list of 101 fail at once; lists
    of 1 and of 100 send one request. *)
Example scenario_5 :
  let call isbn13s :=
    getBookPresentations Json.parse Json.error_message (inr Scenario.config)
      (serve (streaming_response [] [])) isbn13s in
  call None
    = ([], inl (HalapiError (js "At least one ISBN-13 is required") None))
  /\ call (Some [])
     = ([], inl (HalapiError (js "At least one ISBN-13 is required") None))
  /\ call (Some (repeat Scenario.isbn 101))
     = ([], inl (HalapiError (js "Maximum 100 ISBN-13s allowed per request") None))
  /\ count (@is_Fetch Json.value) (fst (call (Some [Scenario.isbn]))) = 1%nat
  /\ count (@is_Fetch Json.value) (fst (call (Some (repeat Scenario.isbn 100)))) = 1%nat.
Proof. vm_compute. repeat split. Qed.

(** Without a token the list is still validated first, and then no request
    is sent. *)
Example getBookPresentations_without_token :
  getBookPresentations Json.parse Json.error_message (inr Scenario.no_token)
    (serve (streaming_response [] [])) (Some [Scenario.isbn])
  = ([GetConfig Json.value], inl (HalapiError (js "API token not configured") None)).
Proof. reflexivity. Qed.

(** The three ways out of the loop, on a body of two records in one chunk
    followed by a read that rejects: the consumer leaves after the first
    event; the read rejects; and, without the rejection, the body ends. *)
Example exit_paths :
  let chunk := TextEncoder_encode (record Scenario.text_delta ++ record Scenario.error) in
  let failing := [ReadValue chunk; ReadRejects (Exception (js "TypeError"))] in
  let run source n :=
    for_await Json.parse Json.error_message (inr Scenario.config)
      (serve (streaming_response [] [])) n
      (entering Json.value (identifiers []) source) in
  (completion (run failing 1%nat) = Abandoned
   /\ yielded (run failing 1%nat) = [Scenario.text_delta_event]
   /\ effects (run failing 1%nat) = [Read Json.value; ReleaseLock Json.value])
  /\ (completion (run failing 3%nat) = Failed (Exception (js "TypeError"))
      /\ yielded (run failing 3%nat) = [Scenario.text_delta_event; Scenario.error_event]
      /\ effects (run failing 3%nat)
         = [Read Json.value; Read Json.value; ReleaseLock Json.value])
  /\ (completion (run [ReadValue chunk] 3%nat) = Finished (Some (identifiers []))
      /\ effects (run [ReadValue chunk] 3%nat)
         = [Read Json.value; Read Json.value; ReleaseLock Json.value]).
Proof. vm_compute. repeat split. Qed.

(** The request of a call that gives an [externalUserId], and of one that
    does not. *)
Example externalUserId_sent :
  let request options :=
    map (@body_externalUserId Json.value)
      (flat_map (fun e => match e with Fetch _ init => [init] | _ => [] end)
         (effects (for_await Json.parse Json.error_message (inr Scenario.config)
                     (serve (streaming_response [] [])) 1 (chatStream options)))) in
  request hello = [Some (js "sdk-user")]
  /\ request {| query := js "Hello"; conversationId := None;
                externalUserId := Some (js "u-42"); metadata := None; signal := None |}
     = [Some (js "u-42")]
  /\ request {| query := js "Hello"; conversationId := None;
                externalUserId := Some []; metadata := None; signal := None |}
     = [Some []].
Proof. vm_compute. repeat split. Qed.

(** C8 as it is stated does not hold: a request that the transport rejects
    with an [AbortError] ends the call with that error, which is not a
    [HalapiError]. *)
Lemma C8_counterexample :
  ~ (forall e,
       completion
         (for_await Json.parse Json.error_message (inr Scenario.config)
            (fun (_ : jsstring) (_ : RequestInit Json.value) =>
               @inl JsError Response (Exception (js "AbortError")))
            1 (chatStream hello)) = Failed e ->
       instanceof_HalapiError e = true).
Proof.
  intros H. specialize (H (Exception (js "AbortError")) eq_refl). discriminate H.
Qed.

(** C6 as it is stated does not hold: a [done] event whose
    [executionTimeMs] is [NaN] is written with [null] in its place, and
    comes back with [null] there. *)
Lemma C6_counterexample :
  ~ (forall event : Js.value,
       yielded
         (for_await Js.parse Js.error_message (inr Scenario.config)
            (fun (_ : jsstring) (_ : RequestInit Js.value) =>
               @inr JsError Response
                 (streaming_response []
                    [TextEncoder_encode (DATA_PREFIX ++ Js.stringify event ++ [LF])]))
            1
            (chatStream {| query := js "Hello"; conversationId := None;
                           externalUserId := None; metadata := @None Js.value;
                           signal := None |}))
       = [event]).
Proof.
  intros H. specialize (H Scenario.nan_event). vm_compute in H. discriminate H.
Qed.

Example NaN_comes_back_null :
  yielded
    (for_await Js.parse Js.error_message (inr Scenario.config)
       (fun (_ : jsstring) (_ : RequestInit Js.value) =>
          @inr JsError Response
            (streaming_response []
               [TextEncoder_encode
                  (DATA_PREFIX ++ Js.stringify Scenario.nan_event ++ [LF])]))
       1
       (chatStream {| query := js "Hello"; conversationId := None;
                      externalUserId := None; metadata := @None Js.value;
                      signal := None |}))
  = [Scenario.null_event]
  /\ Js.stringify (Js.Object [(js "a", Js.Undefined); (js "b", Js.Infinity false)])
     = Scenario.json_text "{'b':null}".
Proof. vm_compute. split; reflexivity. Qed.

(** A response that is ok with a body that does not parse: what
    [getConversation] throws is a plain [Error]. *)
Example getConversation_unparseable_body :
  snd (getConversation Json.parse Json.error_message (inr Scenario.config)
         (serve {| ok := true; status := 200; headers := []; body := None;
                   text := inr Scenario.not_json |})
         (js "c1"))
  = inl (Error (js "Invalid JSON response from API: Unexpected token in JSON")).
Proof. vm_compute. reflexivity. Qed.

(** A response that is not ok: the error carries the status, and the
    message of the body when it has one. *)
Example http_error_status :
  let call response :=
    snd (getBookArtifacts Json.parse Json.error_message (inr Scenario.config)
           (serve response) (js "m1")) in
  call {| ok := false; status := 404; headers := []; body := None;
          text := inr Scenario.not_json |}
    = inl (HalapiError (js "Failed to fetch book artifacts: HTTP 404") (Some 404))
  /\ call {| ok := false; status := 500; headers := []; body := None;
             text := inr (Scenario.json_text "{'error':{'message':'boom'}}") |}
     = inl (HalapiError (js "Failed to fetch book artifacts: boom") (Some 500)).
Proof. vm_compute. split; reflexivity. Qed.

(** The events of the scenarios are values of JSON; a number that is not a
    literal of JSON is not. *)
Example scenario_values :
  forallb Json.valid [Scenario.text_delta_event; Scenario.done_event;
                      Scenario.error_event; Scenario.euro_event] = true
  /\ Json.valid (Json.Number (js "01")) = false
  /\ Json.stringify Scenario.done_event = Scenario.done.
Proof. vm_compute. repeat split. Qed.

(** ** The chunks *)

(** X8.  Where the body is cut into chunks does not matter, whatever bytes
    it holds: two responses whose chunks make the same bytes when put end
    to end give the same events, to a consumer that leaves after [n] of
    them as to one that stays, and end the same way. *)
Theorem X8_chunk_boundaries_irrelevant
  (JSValue : Type) (JSON_parse : jsstring -> jsstring + JSValue)
  (error_message : JSValue -> option jsstring) (getConfig : JsError + HalapiConfig)
  (fetchFn fetchFn' : jsstring -> RequestInit JSValue -> JsError + Response)
  (hs : list (jsstring * jsstring)) (chunks chunks' : list bytes)
  (options : ChatStreamOptions JSValue) (n : nat) :
  serves getConfig fetchFn (streaming_response hs chunks) ->
  serves getConfig fetchFn' (streaming_response hs chunks') ->
  List.concat chunks = List.concat chunks' ->
  let r := for_await JSON_parse error_message getConfig fetchFn n (chatStream options) in
  let r' := for_await JSON_parse error_message getConfig fetchFn' n (chatStream options) in
  yielded r = yielded r' /\ completion r = completion r'.
Proof.
  intros Hserves Hserves' Hsame. destruct n as [| n]; [split; reflexivity |].
  destruct (chatStream_entering JSValue JSON_parse error_message getConfig fetchFn options
              _ _ n Hserves eq_refl eq_refl) as (H1 & H2 & _).
  destruct (chatStream_entering JSValue JSON_parse error_message getConfig fetchFn' options
              _ _ n Hserves' eq_refl eq_refl) as (H1' & H2' & _).
  cbn [streaming_response headers] in H1, H2, H1', H2'.
  destruct (entering_delivered JSValue JSON_parse error_message getConfig fetchFn
              (identifiers hs) (map ReadValue chunks) (S n)) as [E1 E2].
  destruct (entering_delivered JSValue JSON_parse error_message getConfig fetchFn'
              (identifiers hs) (map ReadValue chunks') (S n)) as [E1' E2'].
  rewrite delivered_all in E1, E2, E1', E2'. rewrite outcome_chunks in E2, E2'.
  cbv zeta. rewrite H1, H2, H1', H2', E1, E2, E1', E2', Hsame. split; reflexivity.
Qed.

(** ** The adapters *)

(** X17.  The configuration of [adapters.env] has a token exactly when the
    process has an environment that gives the token variable, by default
    [HALAPI_TOKEN], a string that is not empty; a variable that is missing
    or empty, an environment or a process that is missing give empty
    strings and never an exception.  A client built on the adapter then
    resolves this configuration when it has a token, and fails with "API
    token not configured" when it has none. *)
Theorem X17_env_adapter
  (JSValue : Type) (urlVar tokenVar : option jsstring) (globalThis : GlobalThis) :
  let urlName := match urlVar with Some v => v | None => js "HALAPI_URL" end in
  let tokenName := match tokenVar with Some v => v | None => js "HALAPI_TOKEN" end in
  let config := adapters.env urlVar tokenVar globalThis in
  (isConfigValid config = true <->
   exists p e c token,
     process globalThis = Some p /\ process_env p = Some e
     /\ e tokenName = Some (c :: token))
  /\ (forall p e, process globalThis = Some p -> process_env p = Some e ->
        apiUrl config = or_empty (e urlName) /\ apiToken config = or_empty (e tokenName))
  /\ ((process globalThis = None
       \/ exists p, process globalThis = Some p /\ process_env p = None) ->
      config = {| apiUrl := []; apiToken := [] |})
  /\ resolveConfig JSValue (inr config) =
     ([GetConfig JSValue],
      if isConfigValid config then inr config
      else inl (HalapiError (js "API token not configured") None)).
Proof.
  intros urlName tokenName config. split; [| split; [| split]].
  - unfold config, adapters.env, isConfigValid. cbn [apiToken]. fold tokenName.
    destruct (process globalThis) as [[[e |]] |]; cbn [process_env].
    + destruct (e tokenName) as [[| c token] |] eqn:E; cbn [or_empty]; split;
        try discriminate; try reflexivity.
      * intros (p & e' & c & token & Hp & He & Ht). injection Hp as <-.
        cbn [process_env] in He. injection He as <-. congruence.
      * intros _. exists {| process_env := Some e |}, e, c, token. repeat split. exact E.
      * intros (p & e' & c & token & Hp & He & Ht). injection Hp as <-.
        cbn [process_env] in He. injection He as <-. congruence.
    + split; [discriminate |].
      intros (p & e' & c & token & Hp & He & Ht). injection Hp as <-. discriminate He.
    + split; [discriminate |].
      intros (p & e' & c & token & Hp & He & Ht). discriminate Hp.
  - intros p e Hp He. unfold config, adapters.env. rewrite Hp, He. split; reflexivity.
  - unfold config, adapters.env.
    intros [Hp | (p & Hp & He)]; rewrite Hp; [| rewrite He]; reflexivity.
  - unfold resolveConfig, await, throw, ret, bind.
    destruct (isConfigValid config); reflexivity.
Qed.

(** X18.  The configuration of [adapters.browser] is the one the page has
    put in [__HALAPI_CONFIG__], a field that is missing or empty read as the
    empty string; without the object both fields are empty, so that the
    configuration has no token, and nothing is thrown. *)
Theorem X18_browser_adapter (globalThis : GlobalThis) :
  let config := adapters.browser globalThis in
  (isConfigValid config = true <->
   exists c u token,
     __HALAPI_CONFIG__ globalThis = Some c /\ runtime_apiToken c = Some (u :: token))
  /\ (forall c, __HALAPI_CONFIG__ globalThis = Some c ->
        config = {| apiUrl := or_empty (runtime_apiUrl c);
                    apiToken := or_empty (runtime_apiToken c) |})
  /\ (__HALAPI_CONFIG__ globalThis = None ->
      config = {| apiUrl := []; apiToken := [] |} /\ isConfigValid config = false).
Proof.
  intros config. unfold config, adapters.browser, isConfigValid. cbn [apiToken].
  destruct (__HALAPI_CONFIG__ globalThis) as [[url token] |]; cbn [runtime_apiToken].
  - split; [| split].
    + destruct token as [[| u token] |]; cbn [or_empty]; split;
        try discriminate; try reflexivity.
      * intros (c & u & t & Hc & Ht). injection Hc as <-. discriminate Ht.
      * intros _. do 3 eexists. split; reflexivity.
      * intros (c & u & t & Hc & Ht). injection Hc as <-. discriminate Ht.
    + intros c Hc. injection Hc as <-. reflexivity.
    + discriminate.
  - split; [| split].
    + split; [discriminate | intros (c & u & t & Hc & _); discriminate Hc].
    + discriminate.
    + intros _. split; reflexivity.
Qed.

(** ** The further properties on concrete inputs *)

Lemma serves_response response :
  serves (inr Scenario.config) (serve response) response.
Proof.
  split; [exists Scenario.config; split; reflexivity | intros url init; reflexivity].
Qed.

Lemma X1_witness :
  getConversations Json.parse Json.error_message Scenario.query_string Scenario.now
    (inr (adapters.static Scenario.no_token Scenario.bare))
    (serve (streaming_response [] [])) None None
  = ([GetConfig Json.value], inl (HalapiError (js "API token not configured") None)).
Proof.
  exact (proj1 (proj2
    (X1_missing_token_sends_nothing Json.value Json.parse Json.error_message
       Scenario.query_string Scenario.now
       (inr (adapters.static Scenario.no_token Scenario.bare))
       (serve (streaming_response [] [])) Scenario.no_token eq_refl eq_refl)) None None).
Defined.

Lemma X3_witness :
  authorized (inr Scenario.config)
    (js "https://api.example.com/api/halap/artifacts/books/m1")
    (GET Json.value [(js "Authorization", js "Bearer secret")]).
Proof.
  apply (proj1 (proj2 (proj2 (proj2
    (X3_every_request_authorized Json.value Json.parse Json.error_message
       Scenario.query_string Scenario.now (inr Scenario.config)
       (serve (streaming_response [] []))
       (js "https://api.example.com/api/halap/artifacts/books/m1")
       (GET Json.value [(js "Authorization", js "Bearer secret")])))))
    (js "m1")).
  vm_compute. right. left. reflexivity.
Defined.

Lemma X4_witness :
  snd (getConversation Json.parse Json.error_message (inr Scenario.config)
         (serve {| ok := false; status := 404; headers := []; body := None;
                   text := inr Scenario.no_such_conversation |})
         (js "c1"))
  = inl (HalapiError (js "Failed to fetch conversation: No such conversation") (Some 404)).
Proof.
  exact (proj1 (proj2 (proj2
    (X4_http_error_status Json.value Json.parse Json.error_message
       Scenario.query_string Scenario.now (inr Scenario.config) _
       {| ok := false; status := 404; headers := []; body := None;
          text := inr Scenario.no_such_conversation |}
       (serves_response _) eq_refl))) (js "c1")).
Defined.

Lemma X5_witness :
  completion
    (for_await Json.parse Json.error_message (inr Scenario.config)
       (serve {| ok := true; status := 204; headers := []; body := None;
                 text := inr [] |})
       1 (chatStream hello))
  = Failed (HalapiError (js "Response body is not readable") None).
Proof.
  exact (proj1 (proj2
    (X5_body_not_readable Json.value Json.parse Json.error_message
       (inr Scenario.config) _
       {| ok := true; status := 204; headers := []; body := None; text := inr [] |}
       (serves_response _) eq_refl eq_refl hello 0%nat))).
Defined.

Lemma X6_witness :
  exists url init,
    getConversations Json.parse Json.error_message Scenario.query_string Scenario.now
      (inr Scenario.config)
      (serve {| ok := true; status := 200; headers := []; body := None;
                text := inr [32; 10] |})
      (Some (js "u-42")) None
    = ([GetConfig Json.value; Fetch url init],
       inr (NoConversations Json.value Scenario.now)).
Proof.
  exact (proj1
    (X6_getConversations_blank_body Json.value Json.parse Json.error_message
       Scenario.query_string Scenario.now (inr Scenario.config) _
       {| ok := true; status := 200; headers := []; body := None;
          text := inr [32; 10] |}
       [32; 10] (Some (js "u-42")) None (serves_response _) eq_refl eq_refl) eq_refl).
Defined.

Lemma X7_witness :
  exists url init,
    getMusicArtifacts Json.parse Json.error_message (inr Scenario.config)
      (serve {| ok := true; status := 200; headers := []; body := None;
                text := inr Scenario.not_json |})
      (js "m1")
    = ([GetConfig Json.value; Fetch url init], inl (Exception (js "SyntaxError"))).
Proof.
  exact (proj1 (proj2 (proj2
    (X7_unparseable_body Json.value Json.parse Json.error_message
       (inr Scenario.config) _
       {| ok := true; status := 200; headers := []; body := None;
          text := inr Scenario.not_json |}
       Scenario.not_json (js "Unexpected token in JSON")
       (serves_response _) eq_refl eq_refl eq_refl))) (js "m1")).
Defined.

Lemma X8_witness :
  let bytes :=
    [0xFF; 0xFE] ++ TextEncoder_encode (record Scenario.euro ++ record Scenario.done) in
  yielded (stream [] [firstn 47 bytes; []; skipn 47 bytes] 3)
  = yielded (stream [] [bytes] 3).
Proof.
  exact (proj1
    (X8_chunk_boundaries_irrelevant Json.value Json.parse Json.error_message
       (inr Scenario.config) _ _ []
       [firstn 47 ([0xFF; 0xFE]
                   ++ TextEncoder_encode (record Scenario.euro ++ record Scenario.done));
        [];
        skipn 47 ([0xFF; 0xFE]
                  ++ TextEncoder_encode (record Scenario.euro ++ record Scenario.done))]
       [[0xFF; 0xFE] ++ TextEncoder_encode (record Scenario.euro ++ record Scenario.done)]
       hello 3 (serves_streaming _ _) (serves_streaming _ _) eq_refl)).
Defined.

Lemma X9_witness :
  let chunk := TextEncoder_encode (record Scenario.text_delta ++ record Scenario.error) in
  let r :=
    for_await Json.parse Json.error_message (inr Scenario.config)
      (serve {| ok := true; status := 200; headers := [];
                body := Some [ReadValue chunk; ReadRejects (Exception (js "TypeError"));
                              ReadValue chunk];
                text := inr [] |})
      5 (chatStream hello) in
  completion r = Failed (Exception (js "TypeError")) /\ final r = Completed Json.value.
Proof.
  refine (proj2
    (X9_rejected_read_ends_stream Json.value Json.parse Json.error_message
       (inr Scenario.config) _
       {| ok := true; status := 200; headers := [];
          body := Some [ReadValue (TextEncoder_encode
                                     (record Scenario.text_delta ++ record Scenario.error));
                        ReadRejects (Exception (js "TypeError"));
                        ReadValue (TextEncoder_encode
                                     (record Scenario.text_delta ++ record Scenario.error))];
          text := inr [] |}
       [TextEncoder_encode (record Scenario.text_delta ++ record Scenario.error)]
       (Exception (js "TypeError"))
       [ReadValue (TextEncoder_encode (record Scenario.text_delta ++ record Scenario.error))]
       hello 5 (serves_response _) eq_refl eq_refl) _).
  vm_compute. lia.
Defined.

Lemma X10_witness :
  let chunk := TextEncoder_encode (record Scenario.text_delta) in
  count (@is_Read Json.value)
    (effects (stream [] [chunk; chunk; TextEncoder_encode (record Scenario.done)] 5))
  = 4%nat.
Proof.
  refine (proj2 (proj2
    (X10_reads_bounded Json.value Json.parse Json.error_message (inr Scenario.config) _
       (streaming_response [] [TextEncoder_encode (record Scenario.text_delta);
                               TextEncoder_encode (record Scenario.text_delta);
                               TextEncoder_encode (record Scenario.done)])
       (map ReadValue [TextEncoder_encode (record Scenario.text_delta);
                       TextEncoder_encode (record Scenario.text_delta);
                       TextEncoder_encode (record Scenario.done)])
       hello 5 (serves_response _) eq_refl eq_refl)) _).
  vm_compute. lia.
Defined.

Lemma X11_witness :
  let chunk := TextEncoder_encode (record Scenario.text_delta ++ record Scenario.error) in
  count (@is_Read Json.value)
    (effects (stream [] [chunk; TextEncoder_encode (record Scenario.done)] 2))
  = 1%nat.
Proof.
  refine (proj1
    (X11_reads_on_demand Json.value Json.parse Json.error_message (inr Scenario.config) _
       (streaming_response [] [TextEncoder_encode
                                 (record Scenario.text_delta ++ record Scenario.error);
                               TextEncoder_encode (record Scenario.done)])
       (TextEncoder_encode (record Scenario.text_delta ++ record Scenario.error))
       [ReadValue (TextEncoder_encode (record Scenario.done))]
       hello 2 (serves_response _) eq_refl eq_refl _)).
  vm_compute. lia.
Defined.

Lemma X12_witness :
  let lines := [Scenario.keep_alive; DATA_PREFIX ++ Scenario.text_delta; [];
                js "data:" ++ Scenario.done; DATA_PREFIX ++ Scenario.not_json;
                js "event: message"] in
  let r := stream [] [TextEncoder_encode (flat_map terminated lines)] 5 in
  yielded r = [Scenario.text_delta_event]
  /\ warnings (effects r) = [ConsoleWarn Json.value (DATA_PREFIX ++ Scenario.not_json)].
Proof.
  pose proof
    (X12_lines_events_and_warnings Json.value Json.parse Json.error_message
       (inr Scenario.config)
       (serve (streaming_response []
                 [TextEncoder_encode
                    (flat_map terminated
                       [Scenario.keep_alive; DATA_PREFIX ++ Scenario.text_delta; [];
                        js "data:" ++ Scenario.done; DATA_PREFIX ++ Scenario.not_json;
                        js "event: message"])]))
       [Scenario.keep_alive; DATA_PREFIX ++ Scenario.text_delta; [];
        js "data:" ++ Scenario.done; DATA_PREFIX ++ Scenario.not_json;
        js "event: message"]
       [TextEncoder_encode
          (flat_map terminated
             [Scenario.keep_alive; DATA_PREFIX ++ Scenario.text_delta; [];
              js "data:" ++ Scenario.done; DATA_PREFIX ++ Scenario.not_json;
              js "event: message"])]
       [] hello 5) as H.
  destruct H as [H1 H2].
  - repeat (apply Forall_cons; [apply single_line_check; vm_compute; reflexivity |]).
    apply Forall_nil.
  - vm_compute. lia.
  - vm_compute. reflexivity.
  - apply serves_streaming.
  - split; [exact H1 | apply H2; vm_compute; lia].
Defined.

Lemma X13_witness :
  yielded (stream [] [Scenario.BOM_bytes;
                      TextEncoder_encode (record Scenario.text_delta
                                          ++ record Scenario.done)] 3)
  = [Scenario.text_delta_event; Scenario.done_event].
Proof.
  refine (proj1
    (X13_byte_order_mark_skipped Json.value Json.parse Json.error_message
       (inr Scenario.config) (serve (streaming_response [] _))
       [Scenario.text_delta; Scenario.done] _ [] hello 3 _ _ (serves_streaming _ _))).
  - repeat (apply Forall_cons; [apply single_line_check; vm_compute; reflexivity |]).
    apply Forall_nil.
  - vm_compute. reflexivity.
Defined.

Lemma X14_witness :
  yielded (stream [] [TextEncoder_encode
                        (DATA_PREFIX ++ Scenario.text_delta ++ [Scenario.CR; LF])] 2)
  = [Scenario.text_delta_event].
Proof.
  refine (X14_carriage_return_kept Json.value Json.parse Json.error_message
            (inr Scenario.config) (serve (streaming_response [] _))
            [Scenario.text_delta] _ [] hello 2 _ _ (serves_streaming _ _)).
  - repeat (apply Forall_cons; [apply single_line_check; vm_compute; reflexivity |]).
    apply Forall_nil.
  - vm_compute. reflexivity.
Defined.

Lemma X15_witness :
  completion (stream [] [[0xFF; 0xC3]; [0x28; 10; 0xE2; 0x82]] 1)
  = Finished (Some (identifiers [])).
Proof.
  refine (proj2
    (X15_bytes_never_fail Json.value Json.parse Json.error_message
       (inr Scenario.config) (serve (streaming_response [] _))
       _ [] hello 1 (serves_streaming _ _)) _).
  vm_compute. lia.
Defined.

Lemma X16_witness :
  exists url init during,
    effects (stream [] [TextEncoder_encode (record Scenario.not_json
                                            ++ record Scenario.done)] 1)
    = [GetConfig Json.value; Fetch url init; GetReader Json.value]
      ++ during ++ [ReleaseLock Json.value]
    /\ forallb (@is_loop_effect Json.value) during = true.
Proof.
  exact (X16_effects_in_order Json.value Json.parse Json.error_message
           (inr Scenario.config) _
           (streaming_response [] [TextEncoder_encode (record Scenario.not_json
                                                       ++ record Scenario.done)])
           (map ReadValue [TextEncoder_encode (record Scenario.not_json
                                               ++ record Scenario.done)])
           hello 0%nat (serves_response _) eq_refl eq_refl).
Defined.

Lemma X17_witness :
  isConfigValid (adapters.env None None Scenario.node) = true
  /\ resolveConfig Json.value (inr (adapters.env None None Scenario.node_empty_token))
     = ([GetConfig Json.value], inl (HalapiError (js "API token not configured") None)).
Proof.
  split.
  - apply (proj2 (proj1 (X17_env_adapter Json.value None None Scenario.node))).
    exists {| process_env := Some Scenario.node_env |}, Scenario.node_env.
    eexists. eexists. repeat split.
  - exact (proj2 (proj2 (proj2
             (X17_env_adapter Json.value None None Scenario.node_empty_token)))).
Defined.

Lemma X18_witness :
  adapters.browser Scenario.page = {| apiUrl := []; apiToken := js "secret" |}
  /\ isConfigValid (adapters.browser Scenario.bare) = false.
Proof.
  split.
  - exact (proj1 (proj2 (X18_browser_adapter Scenario.page)) _ eq_refl).
  - exact (proj2 (proj2 (proj2 (X18_browser_adapter Scenario.bare)) eq_refl)).
Defined.

Lemma X19_witness :
  let options :=
    {| query := js "Hello"; conversationId := Some (js "c1"); externalUserId := None;
       metadata := @None Json.value; signal := Some (abort_signal 7) |} in
  let init :=
    {| init_method := Some (js "POST");
       init_headers := [(js "Authorization", js "Bearer secret");
                        (js "Content-Type", js "application/json")];
       init_body := Some (ChatBody (js "Hello") (Some (js "c1")) (js "sdk-user") None);
       init_signal := Some (abort_signal 7) |} in
  exists config,
    inr Scenario.config = @inr JsError HalapiConfig config
    /\ js "https://api.example.com/api/halap/chat/stream"
       = apiUrl config ++ js "/api/halap/chat/stream"
    /\ init_method init = Some (js "POST")
    /\ init_headers init =
       [(js "Authorization", js "Bearer " ++ apiToken config);
        (js "Content-Type", js "application/json")]
    /\ init_body init =
       Some (ChatBody (query options) (conversationId options)
               (match externalUserId options with
                | Some id => id
                | None => js "sdk-user"
                end)
               (metadata options))
    /\ init_signal init = signal options.
Proof.
  cbv zeta.
  apply (X19_chat_request Json.value Json.parse Json.error_message
           (inr Scenario.config) (serve (streaming_response [] []))
           {| query := js "Hello"; conversationId := Some (js "c1");
              externalUserId := None; metadata := None;
              signal := Some (abort_signal 7) |}
           1
           (js "https://api.example.com/api/halap/chat/stream")
           {| init_method := Some (js "POST");
              init_headers := [(js "Authorization", js "Bearer secret");
                               (js "Content-Type", js "application/json")];
              init_body := Some (ChatBody (js "Hello") (Some (js "c1")) (js "sdk-user")
                                   None);
              init_signal := Some (abort_signal 7) |}).
  vm_compute. right. left. reflexivity.
Defined.

Lemma X20_witness :
  exists config,
    inr Scenario.config = @inr JsError HalapiConfig config
    /\ js "https://api.example.com/api/halap/conversations?limit=20&externalUserId=u-42"
       = apiUrl config
         ++ js "/api/halap/conversations?"
         ++ Scenario.query_string [(js "limit", String_of_Z 20);
                                   (js "externalUserId", js "u-42")]
    /\ GET Json.value [(js "Authorization", js "Bearer secret")]
       = {| init_method := None;
            init_headers := [(js "Authorization", js "Bearer " ++ apiToken config)];
            init_body := None; init_signal := None |}.
Proof.
  apply (proj1
    (X20_read_requests Json.value Json.parse Json.error_message
       Scenario.query_string Scenario.now (inr Scenario.config)
       (serve (streaming_response [] []))
       (js "https://api.example.com/api/halap/conversations?limit=20&externalUserId=u-42")
       (GET Json.value [(js "Authorization", js "Bearer secret")]))
    (Some (js "u-42")) None I).
  vm_compute. right. left. reflexivity.
Defined.
